(** * LitEpub: pagination, series enumeration and EPUB assembly

    A shallow embedding of [app.js]: the fetch helper, the pagination loop
    with its next-link detector, the metadata and content extractors, the
    series loop, the EPUB generator and the click handler, followed by the
    properties of these functions.

    Conventions.
    - A JavaScript string is a [string] holding its UTF-8 bytes.  Every
      pattern the program searches for is ASCII except [»] (bytes C2 BB),
      and UTF-8 is self-synchronising, so prefix, substring and equality
      tests agree with their UTF-16 counterparts.
    - The browser is an explicit [World] (clock and network) and an
      explicit [State] (trace of the effects performed so far).
    - The DOM is seen through the interface the program uses:
      [querySelectorAll], [textContent], [className], [title],
      [getAttribute('href')], [innerHTML] and [document.title]. *)

From Stdlib Require Import String Ascii List NArith PeanoNat Lia Bool.
From Stdlib Require Import DecimalString DecimalNat.
Import ListNotations.
Local Open Scope string_scope.

(* ================================================================= *)
(** ** JavaScript string primitives *)

(** [s.startsWith(p)] *)
Fixpoint startsWith (s p : string) {struct p} : bool :=
  match p with
  | EmptyString => true
  | String c p' =>
      match s with
      | EmptyString => false
      | String d s' => Ascii.eqb d c && startsWith s' p'
      end
  end.

(** [s.includes(p)] *)
Fixpoint includes (s p : string) : bool :=
  startsWith s p ||
  match s with
  | EmptyString => false
  | String _ s' => includes s' p
  end.

(** [s.split(c)[0]]: the part of [s] before the first [c]. *)
Fixpoint splitHead (s : string) (c : ascii) : string :=
  match s with
  | EmptyString => EmptyString
  | String d s' => if Ascii.eqb d c then EmptyString else String d (splitHead s' c)
  end.

(** [s.replace(/pat/g, rep)] for a literal, non-empty [pat]: the leftmost
    match is replaced and the scan resumes after it.  [skip] counts the
    characters of a match that remain to be consumed. *)
Fixpoint replaceFrom (pat rep : string) (skip : nat) (s : string) : string :=
  match s with
  | EmptyString => EmptyString
  | String c s' =>
      match skip with
      | S k => replaceFrom pat rep k s'
      | O =>
          if startsWith s pat
          then rep ++ replaceFrom pat rep (String.length pat - 1) s'
          else String c (replaceFrom pat rep 0 s')
      end
  end.

Definition replaceAll (s pat rep : string) : string := replaceFrom pat rep 0 s.

(** [s.toLowerCase()].  Only the ASCII letters are mapped.  The two
    non-ASCII characters whose lower case contains an ASCII letter (U+212A,
    giving k, and U+0130, giving i) cannot produce a letter of any pattern
    the program looks for, so the tests below agree with the full Unicode
    mapping. *)
Definition lowerAscii (c : ascii) : ascii :=
  let n := nat_of_ascii c in
  if ((65 <=? n) && (n <=? 90))%nat then ascii_of_nat (n + 32) else c.

Fixpoint toLowerCase (s : string) : string :=
  match s with
  | EmptyString => EmptyString
  | String c s' => String (lowerAscii c) (toLowerCase s')
  end.

Fixpoint bytes (l : list nat) : string :=
  match l with
  | [] => EmptyString
  | n :: l' => String (ascii_of_nat n) (bytes l')
  end.

Fixpoint reverseOnto (s acc : string) : string :=
  match s with
  | EmptyString => acc
  | String c s' => reverseOnto s' (String c acc)
  end.

Definition reverse (s : string) : string := reverseOnto s EmptyString.

(** The characters [trim] removes: ECMAScript WhiteSpace and
    LineTerminator, as UTF-8 byte sequences. *)
Definition whiteSpace : list string :=
  map bytes
    ([ [9]; [10]; [11]; [12]; [13]; [32];
       [194; 160];                      (* U+00A0 *)
       [225; 154; 128] ]                (* U+1680 *)
     ++ map (fun k => [226; 128; 128 + k]) (seq 0 11)   (* U+2000 .. U+200A *)
     ++ [ [226; 128; 168];              (* U+2028 *)
          [226; 128; 169];              (* U+2029 *)
          [226; 128; 175];              (* U+202F *)
          [226; 129; 159];              (* U+205F *)
          [227; 128; 128];              (* U+3000 *)
          [239; 187; 191] ]).           (* U+FEFF *)

Fixpoint dropPrefix (s p : string) {struct p} : option string :=
  match p with
  | EmptyString => Some s
  | String c p' =>
      match s with
      | EmptyString => None
      | String d s' => if Ascii.eqb d c then dropPrefix s' p' else None
      end
  end.

Fixpoint dropOneOf (ps : list string) (s : string) : option string :=
  match ps with
  | [] => None
  | p :: ps' =>
      match dropPrefix s p with
      | Some r => Some r
      | None => dropOneOf ps' s
      end
  end.

Fixpoint dropWhileOneOf (ps : list string) (fuel : nat) (s : string) : string :=
  match fuel with
  | O => s
  | S f =>
      match dropOneOf ps s with
      | Some r => dropWhileOneOf ps f r
      | None => s
      end
  end.

Definition trimStart (s : string) : string :=
  dropWhileOneOf whiteSpace (String.length s) s.

Definition trimEnd (s : string) : string :=
  reverse (dropWhileOneOf (map reverse whiteSpace) (String.length s) (reverse s)).

(** [s.trim()] *)
Definition trim (s : string) : string := trimEnd (trimStart s).

(** Decimal rendering of a number inside a template literal. *)
Definition showNat (n : nat) : string := NilEmpty.string_of_uint (Nat.to_uint n).
Definition showN (n : N) : string := NilEmpty.string_of_uint (N.to_uint n).

(** [encodeURIComponent(s)]: every byte outside the unreserved set
    [A-Z a-z 0-9 - _ . ! ~ * ' ( )] becomes [%XX]. *)
Definition unreserved (c : ascii) : bool :=
  let n := nat_of_ascii c in
  ((65 <=? n) && (n <=? 90))%nat || ((97 <=? n) && (n <=? 122))%nat ||
  ((48 <=? n) && (n <=? 57))%nat ||
  existsb (Ascii.eqb c) (list_ascii_of_string "-_.!~*'()").

Definition hexDigit (n : nat) : ascii :=
  nth n (list_ascii_of_string "0123456789ABCDEF") "0"%char.

Definition percentEncode (c : ascii) : string :=
  let n := nat_of_ascii c in
  String "%" (String (hexDigit (n / 16)) (String (hexDigit (n mod 16)) EmptyString)).

Fixpoint encodeURIComponent (s : string) : string :=
  match s with
  | EmptyString => EmptyString
  | String c s' =>
      (if unreserved c then String c EmptyString else percentEncode c)
      ++ encodeURIComponent s'
  end.

(** In the literals of this file that come from markup, [dq] turns every
    apostrophe into a double quote; the program's markup literals contain
    no apostrophe. *)
Definition dqChar (c : ascii) : ascii :=
  if Ascii.eqb c "'"%char then ascii_of_nat 34 else c.

Fixpoint dq (s : string) : string :=
  match s with
  | EmptyString => EmptyString
  | String c s' => String (dqChar c) (dq s')
  end.

(* ================================================================= *)
(** ** The DOM, as the program reads it *)

Record Element := mkElement {
  textContent : string;
  className : string;
  title : string;
  href : option string;      (* getAttribute('href'), null when absent *)
  innerHTML : string
}.

Record Document := mkDocument {
  doc_title : string;                            (* document.title *)
  querySelectorAll : string -> list Element      (* in document order *)
}.

Definition querySelector (doc : Document) (sel : string) : option Element :=
  hd_error (querySelectorAll doc sel).

(* ================================================================= *)
(** ** Next-link detection (the callback of [links.find], lines 155-168) *)

Definition isNextLink (a : Element) : bool :=
  let text := toLowerCase (trim (textContent a)) in
  let cls := toLowerCase (className a) in
  let title := toLowerCase (title a) in
  (text =? "next") ||
  includes text "next »" ||
  (text =? "»") ||
  includes cls "pager-next" ||
  includes cls "b-pager-next" ||
  includes title "next page".

(** [Array.from(doc.querySelectorAll('a')).find(...)] *)
Definition findNextLink (doc : Document) : option Element :=
  find isNextLink (querySelectorAll doc "a").

(* ================================================================= *)
(** ** Errors and outcomes *)

Inductive JsError :=
| Error (message : string)        (* new Error(message) *)
| TypeError (message : string).   (* raised by the engine itself *)

Definition message (e : JsError) : string :=
  match e with
  | Error m => m
  | TypeError m => m
  end.

(** A call returns, throws, or (for the model of the [while] loop only)
    exhausts the recursion budget of the model. *)
Inductive Outcome (A : Type) :=
| Returned (a : A)
| Thrown (e : JsError)
| OutOfGas.

Arguments Returned {A} a.
Arguments Thrown {A} e.
Arguments OutOfGas {A}.

(* ================================================================= *)
(** ** The archive under construction (the JSZip interface)

    JSZip is loaded by the page.  Its object is modelled by what its
    interface documents: an insertion-ordered table of named entries, in
    which [file] replaces the entry of the same name and [folder] records a
    directory entry.  [file] is only ever called for a name whose folder
    already exists, so its creation of missing parent folders is not
    modelled. *)

Inductive Compression := STORE | DEFLATE.

Record ZipObject := mkZipObject {
  name : string;
  dir : bool;
  data : string;
  compression : option Compression   (* the per-entry option, when given *)
}.

Definition JSZip := list ZipObject.
Bind Scope list_scope with JSZip.

Fixpoint zipSet (zip : JSZip) (o : ZipObject) : JSZip :=
  match zip with
  | [] => [o]
  | e :: zip' => if name e =? name o then o :: zip' else e :: zipSet zip' o
  end.

Definition zipHas (zip : JSZip) (n : string) : bool :=
  existsb (fun e => name e =? n) zip.

(** [zip.file(root + n, data, options)] *)
Definition file (root n d : string) (c : option Compression) (zip : JSZip) : JSZip :=
  zipSet zip (mkZipObject (root ++ n) false d c).

(** [zip.folder(n)]: the entry [n/] is added unless present.  A directory
    entry has no data and is recorded with the [STORE] option. *)
Definition folder (n : string) (zip : JSZip) : JSZip :=
  if zipHas zip (n ++ "/") then zip
  else zipSet zip (mkZipObject (n ++ "/") true EmptyString (Some STORE)).

Definition zipFiles (zip : JSZip) : list ZipObject :=
  filter (fun e => negb (dir e)) zip.

Definition zipFind (zip : JSZip) (n : string) : option ZipObject :=
  find (fun e => name e =? n) zip.

(* ================================================================= *)
(** ** Effects: the world, the state and the monad *)

Inductive Event :=
| StatusText (s : string)                     (* status.textContent = s *)
| StatusHtml (s : string)                     (* status.innerHTML = s *)
| ButtonDisabled (b : bool)                   (* btn.disabled = b *)
| ConsoleError (e : JsError)                  (* console.error(e) *)
| Fetch (targetUrl : string)                  (* fetch(targetUrl, ...) *)
| Delay (ms : nat)                            (* await setTimeout(r, ms) *)
| SaveAs (archive : JSZip) (fileName : string).   (* saveAs(blob, fileName) *)

(** What the network answers to a request: the promise rejects ([fetch]
    or [response.text()]), or a response arrives with a status and a body
    that [DOMParser] turns into a document. *)
Inductive Response :=
| Rejected (e : JsError)
| Responded (status : nat) (doc : Document).

(** The k-th reading of [Date.now()] and the answer to the k-th request,
    counted from the start of the run. *)
Record World := mkWorld {
  now : nat -> N;
  respond : nat -> string -> Response
}.

Record State := mkState {
  clockReads : nat;
  fetches : nat;
  trace : list Event
}.

Definition M (A : Type) : Type := State -> Outcome A * State.

Definition ret {A} (a : A) : M A := fun s => (Returned a, s).

Definition throw {A} (e : JsError) : M A := fun s => (Thrown e, s).

Definition outOfGas {A} : M A := fun s => (OutOfGas, s).

Definition bind {A B} (m : M A) (k : A -> M B) : M B :=
  fun s =>
    match m s with
    | (Returned a, s') => k a s'
    | (Thrown e, s') => (Thrown e, s')
    | (OutOfGas, s') => (OutOfGas, s')
    end.

Notation "x <- m ;; k" := (bind m (fun x => k))
  (at level 61, m at next level, right associativity).
Notation "m ;; k" := (bind m (fun _ => k))
  (at level 61, right associativity).

(** [try { m } catch (err) { h err }] *)
Definition tryCatch {A} (m : M A) (h : JsError -> M A) : M A :=
  fun s =>
    match m s with
    | (Thrown e, s') => h e s'
    | r => r
    end.

Definition lift {A} (o : Outcome A) : M A := fun s => (o, s).

Definition emit (e : Event) : M unit :=
  fun s => (Returned tt, mkState (clockReads s) (fetches s) (trace s ++ [e])).

Definition dateNow (w : World) : M N :=
  fun s => (Returned (now w (clockReads s)),
            mkState (S (clockReads s)) (fetches s) (trace s)).

Definition fetch (w : World) (targetUrl : string) : M Response :=
  fun s => (Returned (respond w (fetches s) targetUrl),
            mkState (clockReads s) (S (fetches s)) (trace s ++ [Fetch targetUrl])).

(** The requests of a trace, in order. *)
Fixpoint requests (tr : list Event) : list string :=
  match tr with
  | [] => []
  | Fetch u :: tr' => u :: requests tr'
  | _ :: tr' => requests tr'
  end.

Fixpoint saved (tr : list Event) : list (JSZip * string) :=
  match tr with
  | [] => []
  | SaveAs z f :: tr' => (z, f) :: saved tr'
  | _ :: tr' => saved tr'
  end.

(* ================================================================= *)
(** ** [fetchPage] (lines 38-63) *)

Definition CORS_PROXY : string := "https://corsproxy.io/?".

Definition cacheBuster (url : string) (t : N) : string :=
  if includes url "?" then "&t=" ++ showN t else "?t=" ++ showN t.

Definition targetUrl (url : string) (t : N) : string :=
  CORS_PROXY ++ encodeURIComponent (url ++ cacheBuster url t).

(** [response.ok] *)
Definition ok (status : nat) : bool := ((200 <=? status) && (status <=? 299))%nat.

Definition blockedMessage : string :=
  "Blocked by Cloudflare protection. Try a different network.".

(** The Cloudflare check of line 55 *)
Definition blocked (doc : Document) : bool :=
  includes (doc_title doc) "Just a moment" || includes (doc_title doc) "Cloudflare".

Definition fetchPage (w : World) (url : string) : M Document :=
  tryCatch
    (t <- dateNow w ;;
     response <- fetch w (targetUrl url t) ;;
     match response with
     | Rejected e => throw e
     | Responded status doc =>
         if negb (ok status) then throw (Error ("HTTP Error: " ++ showNat status))
         else if blocked doc then throw (Error blockedMessage)
         else ret doc
     end)
    (fun err => throw (Error ("Network error: " ++ message err))).

(* ================================================================= *)
(** ** Extraction (lines 181-204) *)

(** [doc.querySelector(sel)?.textContent], with the falsy results
    ([undefined] and the empty string) as [None]. *)
Definition textOf (doc : Document) (sel : string) : option string :=
  match querySelector doc sel with
  | Some e => if textContent e =? EmptyString then None else Some (textContent e)
  | None => None
  end.

(** [textOf sel1 || textOf sel2 || ... || fallback] *)
Fixpoint firstText (doc : Document) (sels : list string) (fallback : string) : string :=
  match sels with
  | [] => fallback
  | sel :: rest =>
      match textOf doc sel with
      | Some t => t
      | None => firstText doc rest fallback
      end
  end.

(** [doc.querySelector(sel1) || doc.querySelector(sel2) || ...] *)
Fixpoint firstMatch (doc : Document) (sels : list string) : option Element :=
  match sels with
  | [] => None
  | sel :: rest =>
      match querySelector doc sel with
      | Some e => Some e
      | None => firstMatch doc rest
      end
  end.

Record Metadata := mkMetadata {
  meta_title : string;
  meta_author : string
}.

Definition titleSelectors : list string :=
  ["h1._title_2d1pc_26"; "h1.headline"; "h1"].

Definition authorSelectors : list string :=
  ["._author__title_2mplv_48"; ".y_eU"; ".b-story-user-y"].

Definition contentSelectors : list string :=
  ["._article__content_14oe9_81 > div:first-child"; ".b-story-body-x"; ".aa_ht"].

Definition extractMetadata (doc : Document) : Metadata :=
  let title := firstText doc titleSelectors "Unknown Title" in
  let author := firstText doc authorSelectors "Unknown Author" in
  mkMetadata (trim title) (trim author).

Definition contentNotFoundMessage : string :=
  "Could not locate story text. The page structure might be unknown or blocked.".

Record StoryData := mkStoryData { content : string }.

Definition extractStoryContent (doc : Document) : Outcome StoryData :=
  match firstMatch doc contentSelectors with
  | None => Thrown (Error contentNotFoundMessage)
  | Some contentDiv => Returned (mkStoryData (innerHTML contentDiv))
  end.

(* ================================================================= *)
(** ** The pagination loop, [fetchAllPagesOfStory] (lines 129-179) *)

Definition MAX_PAGES : nat := 50.

Definition separator : string :=
  dq "<hr class='page-break' style='margin: 2em 0; border-top: 2px dashed #666;' />".

(** [pageNum === 1 ? baseUrl : `${baseUrl}?page=${pageNum}`] *)
Definition currentUrl (baseUrl : string) (pageNum : nat) : string :=
  if (pageNum =? 1)%nat then baseUrl else baseUrl ++ "?page=" ++ showNat pageNum.

Record LoopState := mkLoopState {
  pageNum : nat;
  fullHtml : string;
  hasNext : bool
}.

(** One iteration of the [while] body.  [status] is the truthiness of the
    [status] argument. *)
Definition loopBody (w : World) (status : bool) (prefixLog baseUrl : string)
    (st : LoopState) : M LoopState :=
  (if status
   then emit (StatusText (prefixLog ++ " Fetching page " ++ showNat (pageNum st) ++ "..."))
   else ret tt) ;;
  doc <- fetchPage w (currentUrl baseUrl (pageNum st)) ;;
  data <- lift (extractStoryContent doc) ;;
  let fullHtml' :=
    if (pageNum st =? 1)%nat then content data
    else fullHtml st ++ separator ++ content data in
  match findNextLink doc with
  | Some _ =>
      emit (Delay 300) ;;
      ret (mkLoopState (S (pageNum st)) fullHtml' (hasNext st))
  | None =>
      ret (mkLoopState (pageNum st) fullHtml' false)
  end.

(** [while (hasNext && pageNum <= MAX_PAGES) { ... }].  The condition is
    tested as the source tests it; [gas] only bounds the recursion of the
    model and [pagesLoop_spec] shows that [MAX_PAGES] is always enough. *)
Fixpoint pagesLoop (w : World) (status : bool) (prefixLog baseUrl : string)
    (gas : nat) (st : LoopState) : M LoopState :=
  if hasNext st && (pageNum st <=? MAX_PAGES)%nat then
    match gas with
    | O => outOfGas
    | S g =>
        st' <- loopBody w status prefixLog baseUrl st ;;
        pagesLoop w status prefixLog baseUrl g st'
    end
  else ret st.

Definition fetchAllPagesOfStory (w : World) (startUrl : string) (status : bool)
    (prefixLog : string) : M string :=
  let baseUrl := splitHead startUrl "?" in
  st <- pagesLoop w status prefixLog baseUrl MAX_PAGES
          (mkLoopState 1 EmptyString true) ;;
  ret (fullHtml st).

(* ================================================================= *)
(** ** The EPUB generator, [generateEpub] (lines 209-270) *)

Record Chapter := mkChapter {
  chapter_title : string;     (* title *)
  chapter_content : string    (* content *)
}.

Definition containerXml : string :=
  dq "<?xml version='1.0'?><container version='1.0' xmlns='urn:oasis:names:tc:opendocument:xmlns:container'><rootfiles><rootfile full-path='content.opf' media-type='application/oebps-package+xml'/></rootfiles></container>".

Definition ncxManifestItem : string :=
  dq "<item id='ncx' href='toc.ncx' media-type='application/x-dtbncx+xml'/>".

Definition xhtmlContent (chapterTitle cleanContent : string) : string :=
  dq "<?xml version='1.0' encoding='utf-8'?>
            <!DOCTYPE html PUBLIC '-//W3C//DTD XHTML 1.1//EN' 'http://www.w3.org/TR/xhtml11/DTD/xhtml11.dtd'>
            <html xmlns='http://www.w3.org/1999/xhtml'>
            <head>
                <title>"
  ++ chapterTitle
  ++ "</title>
                <style>body { font-family: serif; line-height: 1.5; margin: 2em; }</style>
            </head>
            <body>
                <h2>"
  ++ chapterTitle
  ++ "</h2>
                <hr/>
                "
  ++ cleanContent
  ++ "
            </body>
            </html>".

Definition manifestItem (id fileName : string) : string :=
  dq "<item id='"
  ++ id
  ++ dq "' href='"
  ++ fileName
  ++ dq "' media-type='application/xhtml+xml'/>".

Definition spineItem (id : string) : string :=
  dq "<itemref idref='"
  ++ id
  ++ dq "'/>".

Definition navPoint (index : nat) (chapterTitle fileName : string) : string :=
  dq "<navPoint id='navPoint-"
  ++ showNat (index + 1)
  ++ dq "' playOrder='"
  ++ showNat (index + 1)
  ++ dq "'><navLabel><text>"
  ++ chapterTitle
  ++ dq "</text></navLabel><content src='"
  ++ fileName
  ++ dq "'/></navPoint>".

Definition opfContent (title author manifestItems spineItems : string) : string :=
  dq "<?xml version='1.0' encoding='UTF-8'?>
        <package xmlns='http://www.idpf.org/2007/opf' unique-identifier='BookId' version='2.0'>
            <metadata xmlns:dc='http://purl.org/dc/elements/1.1/'>
                <dc:title>"
  ++ title
  ++ "</dc:title><dc:creator>"
  ++ author
  ++ "</dc:creator><dc:language>en</dc:language>
            </metadata>
            <manifest>"
  ++ manifestItems
  ++ dq "</manifest>
            <spine toc='ncx'>"
  ++ spineItems
  ++ "</spine>
        </package>".

Definition ncxContent (title navMapItems : string) : string :=
  dq "<?xml version='1.0' encoding='UTF-8'?>
        <ncx xmlns='http://www.daisy.org/z3986/2005/ncx/' version='2005-1'>
            <head><meta name='dtb:uid' content='urn:uuid:12345'/></head>
            <docTitle><text>"
  ++ title
  ++ "</text></docTitle>
            <navMap>"
  ++ navMapItems
  ++ "</navMap>
        </ncx>".

(** The variables the [forEach] callback updates. *)
Record Assembly := mkAssembly {
  zip : JSZip;
  manifestItems : string;
  spineItems : string;
  navMapItems : string
}.

(** The pattern of the regular expression of line 225 *)
Definition nbsp : string := "&nbsp;".

(** [chapter.content.replace(/&nbsp;/g, ' ')] *)
Definition cleanContent (chapter : Chapter) : string :=
  replaceAll (chapter_content chapter) nbsp " ".

Definition chapterId (index : nat) : string := "chapter" ++ showNat (index + 1).

Definition chapterFileName (index : nat) : string := chapterId index ++ ".html".

Arguments chapterId : simpl never.
Arguments chapterFileName : simpl never.

(** The body of the [forEach] callback. *)
Definition addChapter (acc : Assembly) (chapter : Chapter) (index : nat) : Assembly :=
  let id := chapterId index in
  let fileName := chapterFileName index in
  mkAssembly
    (file EmptyString fileName
       (xhtmlContent (chapter_title chapter) (cleanContent chapter)) None (zip acc))
    (manifestItems acc ++ manifestItem id fileName)
    (spineItems acc ++ spineItem id)
    (navMapItems acc ++ navPoint index (chapter_title chapter) fileName).

(** [chapters.forEach((chapter, index) => ...)], from [index] on. *)
Fixpoint forEachChapter (chapters : list Chapter) (index : nat) (acc : Assembly) : Assembly :=
  match chapters with
  | [] => acc
  | chapter :: rest => forEachChapter rest (S index) (addChapter acc chapter index)
  end.

(** The archive as it stands when [generateAsync] is called. *)
Definition buildEpub (title author : string) (chapters : list Chapter) : JSZip :=
  let zip0 := file EmptyString "mimetype" "application/epub+zip" (Some STORE) [] in
  let zip1 := file "META-INF/" "container.xml" containerXml None (folder "META-INF" zip0) in
  let acc := forEachChapter chapters 0
               (mkAssembly zip1 ncxManifestItem EmptyString EmptyString) in
  let zip2 := file EmptyString "content.opf"
                (opfContent title author (manifestItems acc) (spineItems acc)) None (zip acc) in
  file EmptyString "toc.ncx" (ncxContent title (navMapItems acc)) None zip2.

(** [generateEpub] is [async] and its callers do not [await] it: the call
    runs up to [await zip.generateAsync(...)] and hands back the rest,
    which runs once the caller has finished. *)
Definition generateEpub (title author : string) (chapters : list Chapter) : M (M unit) :=
  emit (StatusText "Building EPUB file...") ;;
  let archive := buildEpub title author chapters in
  emit (StatusText "Zipping and downloading...") ;;
  ret (emit (SaveAs archive (title ++ ".epub")) ;;
       emit (StatusText "Done! Check your downloads.")).

(* ================================================================= *)
(** ** Series and single-story runs (lines 68-124) *)

Definition SITE_ORIGIN : string := "https://www.literotica.com".

Definition noChaptersMessage : string := "No chapters found on series page.".

(** [doc.querySelector(sel)?.textContent.trim() || fallback] *)
Definition trimmedTextOr (doc : Document) (sel fallback : string) : string :=
  match querySelector doc sel with
  | Some e =>
      let t := trim (textContent e) in
      if t =? EmptyString then fallback else t
  | None => fallback
  end.

Definition chapterLinksOf (doc : Document) : list Element :=
  querySelectorAll doc ".series__works .br_rj".

(** Line 87: [if(!chapterUrl.startsWith('http')) chapterUrl = origin + chapterUrl] *)
Definition ensureAbsolute (chapterUrl : string) : string :=
  if negb (startsWith chapterUrl "http") then SITE_ORIGIN ++ chapterUrl else chapterUrl.

(** Lines 84-87.  [getAttribute] gives [null] for a missing attribute and
    the call of [startsWith] on it raises a [TypeError] (the message is the
    engine's). *)
Definition chapterUrlOf (link : Element) : Outcome string :=
  match href link with
  | None => Thrown (TypeError "Cannot read properties of null (reading 'startsWith')")
  | Some chapterUrl => Returned (ensureAbsolute chapterUrl)
  end.

(** Line 89 *)
Definition chapterTitleOf (link : Element) : string := trim (textContent link).

(** The [for] loop of [processSeries] from index [i] on, over the links not
    yet visited; [total] is [chapterLinks.length]. *)
Fixpoint seriesLoop (w : World) (total i : nat) (links : list Element)
    (chapters : list Chapter) : M (list Chapter) :=
  match links with
  | [] => ret chapters
  | link :: rest =>
      chapterUrl <- lift (chapterUrlOf link) ;;
      let chapterTitle := chapterTitleOf link in
      emit (StatusText ("Processing Ch " ++ showNat (i + 1) ++ "/" ++ showNat total
                        ++ ": " ++ chapterTitle)) ;;
      fullChapterContent <-
        fetchAllPagesOfStory w chapterUrl true ("(Ch " ++ showNat (i + 1) ++ ")") ;;
      emit (Delay 500) ;;
      seriesLoop w total (S i) rest
        (chapters ++ [mkChapter chapterTitle fullChapterContent])
  end.

Definition processSeries (w : World) (url : string) : M (M unit) :=
  emit (StatusText "Fetching series info...") ;;
  doc <- fetchPage w url ;;
  let seriesTitle := trimmedTextOr doc "h1.headline" "Unknown Series" in
  let seriesAuthor := trimmedTextOr doc ".y_eU" "Unknown Author" in
  let chapterLinks := chapterLinksOf doc in
  if (List.length chapterLinks =? 0)%nat then throw (Error noChaptersMessage)
  else
    emit (StatusText ("Found " ++ showNat (List.length chapterLinks)
                      ++ " chapters. Starting...")) ;;
    chapters <- seriesLoop w (List.length chapterLinks) 0 chapterLinks [] ;;
    generateEpub seriesTitle seriesAuthor chapters.

Definition processSingleStory (w : World) (url : string) : M (M unit) :=
  emit (StatusText "Fetching story metadata...") ;;
  doc <- fetchPage w url ;;
  let meta := extractMetadata doc in
  fullContent <- fetchAllPagesOfStory w url true EmptyString ;;
  generateEpub (meta_title meta) (meta_author meta)
    [mkChapter (meta_title meta) fullContent].

(* ================================================================= *)
(** ** The click handler (lines 3-33) *)

(** [/^https?:\/\//i.test(url)] *)
Definition hasHttpScheme (url : string) : bool :=
  startsWith (toLowerCase url) "http://" || startsWith (toLowerCase url) "https://".

Definition errorSpan (e : JsError) : string :=
  dq "<span style='color:red; font-weight:bold;'>Error: " ++ message e ++ "</span>".

(** [input] is the value of the URL field.  The [try] block yields the
    pending rest of [generateEpub] when it completes; it runs after
    [finally]. *)
Definition onConvertClick (w : World) (input : string) : M unit :=
  let url := trim input in
  if url =? EmptyString then emit (StatusText "Please enter a URL")
  else
    let url := if negb (hasHttpScheme url) then "https://" ++ url else url in
    emit (ButtonDisabled true) ;;
    emit (StatusHtml "Initializing...") ;;
    pending <-
      tryCatch
        (rest <- (if includes url "/series/se/"
                  then processSeries w url
                  else processSingleStory w url) ;;
         ret (Some rest))
        (fun e =>
           emit (ConsoleError e) ;;
           emit (StatusHtml (errorSpan e)) ;;
           ret None) ;;
    emit (ButtonDisabled false) ;;
    match pending with
    | Some rest => rest
    | None => ret tt
    end.

Definition initialState : State := mkState 0 0 [].

(* ================================================================= *)
(** ** Vocabulary of the statements *)

(** What [fetchPage] makes of the answer to its request
    ([fetchPage_run]). *)
Definition received (r : Response) : Outcome Document :=
  match r with
  | Rejected e => Thrown (Error ("Network error: " ++ message e))
  | Responded status doc =>
      if negb (ok status)
      then Thrown (Error ("Network error: " ++ "HTTP Error: " ++ showNat status))
      else if blocked doc then Thrown (Error ("Network error: " ++ blockedMessage))
      else Returned doc
  end.

(** The state after one request for [u]. *)
Definition afterFetch (s : State) (u : string) : State :=
  mkState (S (clockReads s)) (S (fetches s)) (trace s ++ [Fetch u]).

(** The requests for the [n] pages from page [p] on, when the clock has
    been read [c] times before. *)
Definition pageUrls (w : World) (baseUrl : string) (p c n : nat) : list string :=
  map (fun i => targetUrl (currentUrl baseUrl (p + i)) (now w (c + i))) (seq 0 n).

(** From [s] to [s'] exactly the requests [urls] were issued, one clock
    reading each, and nothing was saved. *)
Definition advanced (s s' : State) (urls : list string) : Prop :=
  clockReads s' = clockReads s + List.length urls /\
  fetches s' = fetches s + List.length urls /\
  requests (trace s') = (requests (trace s) ++ urls)%list /\
  saved (trace s') = saved (trace s).

(** Events other than requests and downloads leave the summary alone. *)
Definition quiet (e : Event) : Prop :=
  match e with
  | Fetch _ => False
  | SaveAs _ _ => False
  | _ => True
  end.

(** The k-th request, for [u], is answered with a 2xx document that is not
    a challenge page. *)
Definition wellAnswered (w : World) (k : nat) (u : string) : Prop :=
  exists doc, received (respond w k u) = Returned doc.

Definition allWell (w : World) (k : nat) (urls : list string) : Prop :=
  forall i u, nth_error urls i = Some u -> wellAnswered w (k + i) u.

(** The failures the pagination of a chapter can end in. *)
Definition pageFailure (e : JsError) : Prop :=
  (exists m, e = Error ("Network error: " ++ m)) \/ e = Error contentNotFoundMessage.

(** The world serves the pages [docs], from page [p] on, to a loop that
    starts after [c] clock readings and [k] requests: each request is
    answered with a 2xx status and the page, which is not a challenge page
    and has a content container. *)
Definition serves (w : World) (baseUrl : string) (p c k : nat)
    (docs : list Document) : Prop :=
  forall i doc, nth_error docs i = Some doc ->
    exists status,
      respond w (k + i) (targetUrl (currentUrl baseUrl (p + i)) (now w (c + i)))
        = Responded status doc /\
      ok status = true /\ blocked doc = false /\
      exists d, extractStoryContent doc = Returned d.

(** The fragment [extractStoryContent] returns for a page. *)
Definition fragment (doc : Document) : string :=
  match extractStoryContent doc with
  | Returned d => content d
  | _ => EmptyString
  end.

Definition appendPage (acc frag : string) : string := acc ++ separator ++ frag.

(** The loop variables after a page has been fetched and read. *)
Definition pageStep (st : LoopState) (doc : Document) (d : StoryData) : LoopState :=
  let fullHtml' :=
    if (pageNum st =? 1)%nat then content d
    else fullHtml st ++ separator ++ content d in
  match findNextLink doc with
  | Some _ => mkLoopState (S (pageNum st)) fullHtml' (hasNext st)
  | None => mkLoopState (pageNum st) fullHtml' false
  end.

(** The accumulator after the fragments [frags] of the pages from page
    [p] on have been added to [acc]. *)
Definition pagesHtml (p : nat) (acc : string) (frags : list string) : string :=
  match frags with
  | [] => acc
  | f :: rest => fold_left appendPage rest (if (p =? 1)%nat then f else appendPage acc f)
  end.

(** The mark the [catch] clause of [fetchPage] puts on what it throws. *)
Definition isNetworkError (e : JsError) : bool :=
  startsWith (message e) "Network error: ".

(** The failures a series run can end in after its page has been read and
    found to list chapters. *)
Definition seriesFailure (e : JsError) : Prop :=
  pageFailure e \/ exists m, e = TypeError m.

(** The requests of the series loop over [links], when the clock has been
    read [c] times before: for each link in turn, those for the first pages
    (at least one, at most 50) of the chapter at the absolute form of the
    link's [href]. *)
Inductive seriesRequests (w : World) : nat -> list Element -> list string -> Prop :=
| seriesRequests_nil c : seriesRequests w c [] []
| seriesRequests_cons c link links h n urls :
    href link = Some h ->
    1 <= n <= MAX_PAGES ->
    seriesRequests w (c + n) links urls ->
    seriesRequests w c (link :: links)
      (pageUrls w (splitHead (ensureAbsolute h) "?") 1 c n ++ urls).

(** What is left of [generateEpub] after its [await]. *)
Definition saveRest (archive : JSZip) (fileName : string) : M unit :=
  emit (SaveAs archive fileName) ;;
  emit (StatusText "Done! Check your downloads.").


(** [pieces] joined by [sep]: the first piece, then for each later piece
    the separator and the piece. *)
Fixpoint join (sep : string) (pieces : list string) : string :=
  match pieces with
  | [] => EmptyString
  | [p] => p
  | p :: rest => p ++ sep ++ join sep rest
  end.

(** The part of a chapter document that precedes its heading. *)
Definition xhtmlPrologue (chapterTitle : string) : string :=
  dq "<?xml version='1.0' encoding='utf-8'?>
            <!DOCTYPE html PUBLIC '-//W3C//DTD XHTML 1.1//EN' 'http://www.w3.org/TR/xhtml11/DTD/xhtml11.dtd'>
            <html xmlns='http://www.w3.org/1999/xhtml'>
            <head>
                <title>"
  ++ chapterTitle
  ++ "</title>
                <style>body { font-family: serif; line-height: 1.5; margin: 2em; }</style>
            </head>
            <body>
                ".

(** The entry [addChapter] writes for the chapter at [index]. *)
Definition chapterEntry (index : nat) (chapter : Chapter) : ZipObject :=
  mkZipObject (chapterFileName index) false
    (xhtmlContent (chapter_title chapter) (cleanContent chapter)) None.

Fixpoint chapterEntries (chapters : list Chapter) (index : nat) : list ZipObject :=
  match chapters with
  | [] => []
  | chapter :: rest => chapterEntry index chapter :: chapterEntries rest (S index)
  end.

(** The three entries written before the chapters. *)
Definition fixedEntries : list ZipObject :=
  [ mkZipObject "mimetype" false "application/epub+zip" (Some STORE);
    mkZipObject "META-INF/" true EmptyString (Some STORE);
    mkZipObject "META-INF/container.xml" false containerXml None ].

(* ================================================================= *)
(** ** Sample inputs *)

Definition sampleNextLink : Element :=
  mkElement "Next" "l_bJ" EmptyString (Some "/s/a-story?page=2") "Next".

Definition sampleHomeLink : Element :=
  mkElement "Home" EmptyString EmptyString (Some "/") "Home".

(** A story page with one heading, one content container and, when [more]
    is set, a next-link after the home link. *)
Definition samplePage (text : string) (more : bool) : Document :=
  mkDocument "A Story - Literotica.com"
    (fun sel =>
       if sel =? "a" then
         (if more then [sampleHomeLink; sampleNextLink] else [sampleHomeLink])
       else if sel =? ".aa_ht" then
         [mkElement text "aa_ht" EmptyString None ("<p>" ++ text ++ "</p>")]
       else if sel =? "h1" then
         [mkElement " A Story " EmptyString EmptyString None " A Story "]
       else []).

(** A world that answers the k-th request with the k-th of [docs] and
    fails afterwards. *)
Definition sampleWorld (docs : list Document) : World :=
  mkWorld (fun k => (1700000000000 + N.of_nat k)%N)
    (fun k _ =>
       match nth_error docs k with
       | Some doc => Responded 200 doc
       | None => Rejected (TypeError "Failed to fetch")
       end).

Definition sampleChapter : list Document :=
  [samplePage "one" true; samplePage "two" true; samplePage "three" false].

(** A world in which every page advertises a next page. *)
Definition endlessWorld : World :=
  mkWorld (fun k => (1700000000000 + N.of_nat k)%N)
    (fun _ _ => Responded 200 (samplePage "again" true)).

Definition sampleUrl : string := "https://www.literotica.com/s/a-story?page=3".

(** A page on which no selector of the program matches anything. *)
Definition unknownPage : Document :=
  mkDocument "Page not found" (fun _ => []).

Definition sampleBook : list Chapter := [mkChapter "C1" "<p>x</p>"].

(** The interstitial page of the anti-bot service. *)
Definition challengePage : Document :=
  mkDocument "Just a moment..." (fun _ => []).

(** A world in which the transport fails with the given message. *)
Definition failingWorld (m : string) : World :=
  mkWorld (fun k => (1700000000000 + N.of_nat k)%N)
    (fun _ _ => Rejected (TypeError m)).

(** A series page with two chapter links, the first root-relative. *)
Definition sampleSeriesPage : Document :=
  mkDocument "A Series - Literotica.com"
    (fun sel =>
       if sel =? ".series__works .br_rj" then
         [ mkElement " Part One " "br_rj" EmptyString (Some "/s/part-one") "Part One";
           mkElement "Part Two" "br_rj" EmptyString
             (Some "https://www.literotica.com/s/part-two") "Part Two" ]
       else if sel =? "h1.headline" then
         [mkElement "A Series" "headline" EmptyString None "A Series"]
       else []).

(** The series page first, then one-page chapters for ever. *)
Definition sampleSeriesWorld : World :=
  mkWorld (fun k => (1700000000000 + N.of_nat k)%N)
    (fun k _ =>
       match k with
       | O => Responded 200 sampleSeriesPage
       | S _ => Responded 200 (samplePage "text" false)
       end).

Definition sampleSeriesUrl : string := "https://www.literotica.com/series/se/a-series".



Definition sampleLastLink : Element :=
  mkElement " NEXT » " EmptyString EmptyString (Some "/s/a-story?page=9") "NEXT »".

(** A page with two anchors that both qualify as next-links. *)
Definition twoNextPage : Document :=
  mkDocument "A Story - Literotica.com"
    (fun sel =>
       if sel =? "a" then [sampleHomeLink; sampleNextLink; sampleLastLink] else []).

(* ================================================================= *)
(** ** Vocabulary of the further properties *)

(** The status line the loop writes before fetching page [p], when it has
    a status element. *)
Definition fetchingStatus (status : bool) (prefixLog : string) (p : nat) : list Event :=
  if status
  then [StatusText (prefixLog ++ " Fetching page " ++ showNat p ++ "...")]
  else [].

(** The pause the loop makes after a page that has a next-link. *)
Definition politeDelay (doc : Document) : list Event :=
  match findNextLink doc with
  | Some _ => [Delay 300]
  | None => []
  end.

(** The events of the loop over the pages [docs], from page [p] on, when
    the clock has been read [c] times before. *)
Fixpoint pagesTrace (w : World) (status : bool) (prefixLog baseUrl : string)
    (p c : nat) (docs : list Document) : list Event :=
  match docs with
  | [] => []
  | doc :: rest =>
      (fetchingStatus status prefixLog p
       ++ [Fetch (targetUrl (currentUrl baseUrl p) (now w c))]
       ++ politeDelay doc
       ++ pagesTrace w status prefixLog baseUrl (S p) (S c) rest)%list
  end.

(** The pauses of [ms] milliseconds in a trace. *)
Fixpoint pauses (ms : nat) (tr : list Event) : nat :=
  match tr with
  | [] => 0
  | Delay d :: tr' => (if (d =? ms)%nat then 1 else 0) + pauses ms tr'
  | _ :: tr' => pauses ms tr'
  end.

(** What the loop makes of the answer to the request for a page: the
    content of the page, or the failure of [fetchPage] or of
    [extractStoryContent]. *)
Definition pageOutcome (r : Response) : Outcome StoryData :=
  match received r with
  | Returned doc => extractStoryContent doc
  | Thrown e => Thrown e
  | OutOfGas => OutOfGas
  end.

(** What a run does between the first and the last act of the click
    handler: status lines, requests and pauses. *)
Definition runEvent (e : Event) : Prop :=
  match e with
  | StatusText _ => True
  | Fetch _ => True
  | Delay _ => True
  | _ => False
  end.

(** What the pagination of a chapter does: status lines, requests and
    pauses of 300 ms. *)
Definition pageEvent (e : Event) : Prop :=
  match e with
  | StatusText _ => True
  | Fetch _ => True
  | Delay ms => ms = 300
  | _ => False
  end.

(** The computation [m] keeps the trace it finds and adds to it only
    events that satisfy [P]. *)
Definition only {A} (P : Event -> Prop) (m : M A) : Prop :=
  forall s, exists evs,
    trace (snd (m s)) = (trace s ++ evs)%list /\ Forall P evs.

(** The selector [sel] gives no text: it matches nothing, or its first
    match has an empty [textContent]. *)
Definition noText (doc : Document) (sel : string) : Prop :=
  match querySelector doc sel with
  | Some e => textContent e = EmptyString
  | None => True
  end.

(** A story page whose only heading is blank. *)
Definition blankHeadingPage : Document :=
  mkDocument "Literotica.com"
    (fun sel =>
       if sel =? "h1" then [mkElement "   " EmptyString EmptyString None "   "]
       else if sel =? "h1.headline" then [mkElement "   " "headline" EmptyString None "   "]
       else if sel =? ".y_eU" then [mkElement "An Author" "y_eU" EmptyString None "An Author"]
       else []).

(** A page of the anti-bot service that comes with a 503 status. *)
Definition challenge503World : World :=
  mkWorld (fun k => (1700000000000 + N.of_nat k)%N)
    (fun _ _ => Responded 503 challengePage).

(** A series page whose second chapter link has no [href]. *)
Definition brokenSeriesPage : Document :=
  mkDocument "A Series - Literotica.com"
    (fun sel =>
       if sel =? ".series__works .br_rj" then
         [ mkElement "Part One" "br_rj" EmptyString (Some "/s/part-one") "Part One";
           mkElement "Part Two" "br_rj" EmptyString None "Part Two" ]
       else []).

Definition brokenSeriesWorld : World :=
  mkWorld (fun k => (1700000000000 + N.of_nat k)%N)
    (fun k _ =>
       match k with
       | O => Responded 200 brokenSeriesPage
       | S _ => Responded 200 (samplePage "text" false)
       end).

(** A story page with a blank heading, for ever. *)
Definition blankHeadingWorld : World :=
  mkWorld (fun k => (1700000000000 + N.of_nat k)%N)
    (fun k _ =>
       match k with
       | O => Responded 200 blankHeadingPage
       | S _ => Responded 200 (samplePage "text" false)
       end).

(** The manifest items, the spine items and the navigation points the
    [forEach] adds for [chapters], the first of them at [index]. *)
Fixpoint manifestOf (chapters : list Chapter) (index : nat) : string :=
  match chapters with
  | [] => EmptyString
  | _ :: rest =>
      manifestItem (chapterId index) (chapterFileName index) ++ manifestOf rest (S index)
  end.

Fixpoint spineOf (chapters : list Chapter) (index : nat) : string :=
  match chapters with
  | [] => EmptyString
  | _ :: rest => spineItem (chapterId index) ++ spineOf rest (S index)
  end.

Fixpoint navMapOf (chapters : list Chapter) (index : nat) : string :=
  match chapters with
  | [] => EmptyString
  | chapter :: rest =>
      navPoint index (chapter_title chapter) (chapterFileName index)
      ++ navMapOf rest (S index)
  end.

(* ================================================================= *)
(** ** The service worker ([sw.js])

    The worker is seen through the interfaces it uses.  [CacheStorage] is a
    list of named caches in the order of their creation, a cache a list of
    stored requests, by URL, with their responses; [caches.match] asks the
    caches in that order.  The network gives a response or, when [fetch]
    rejects, none.  Requests are GET requests, and the assets are resolved
    against [scope], the directory of the worker script. *)

Module Sw.

Definition CACHE_NAME : string := "webtoepub-v5".

Definition ASSETS : list string :=
  ["./"; "./index.html"; "./style.css"; "./app.js"; "./manifest.json"].

(** A response: its status, whether its [Vary] header names [*], and its
    body. *)
Record Resp := mkResponse {
  status : nat;
  varyStar : bool;
  body : string
}.

(** A response without [Vary] header. *)
Definition mkResp (status : nat) (body : string) : Resp :=
  mkResponse status false body.

Definition Cache := list (string * Resp).
Bind Scope list_scope with Cache.

Definition CacheStorage := list (string * Cache).
Bind Scope list_scope with CacheStorage.

Definition Network := string -> option Resp.

Inductive SwEvent :=
| SkipWaiting                          (* self.skipWaiting() *)
| ClientsClaim                         (* self.clients.claim() *)
| NetFetch (url : string)              (* fetch(request) *)
| ConsoleLog (text key : string).      (* console.log(text, key) *)

Record State := mkState {
  caches : CacheStorage;
  log : list SwEvent
}.

(** [cache.match(url)] *)
Definition cacheMatch (c : Cache) (url : string) : option Resp :=
  match find (fun kv => fst kv =? url) c with
  | Some kv => Some (snd kv)
  | None => None
  end.

(** [cache.put(url, r)]: an entry for the same URL is replaced. *)
Definition cachePut (c : Cache) (url : string) (r : Resp) : Cache :=
  (filter (fun kv => negb (fst kv =? url)) c ++ [(url, r)])%list.

(** [caches.has(name)] *)
Definition has (cs : CacheStorage) (n : string) : bool :=
  existsb (fun nc => fst nc =? n) cs.

(** [caches.open(name)]: the cache is created, empty, when missing. *)
Definition open (cs : CacheStorage) (n : string) : CacheStorage :=
  if has cs n then cs else (cs ++ [(n, [])])%list.

(** [caches.keys()] *)
Definition keys (cs : CacheStorage) : list string := map fst cs.

(** [caches.delete(name)] *)
Definition delete (cs : CacheStorage) (n : string) : CacheStorage :=
  filter (fun nc => negb (fst nc =? n)) cs.

(** [caches.match(url)]: the first cache, in the order of [keys], that has
    a match. *)
Fixpoint matchAny (cs : CacheStorage) (url : string) : option Resp :=
  match cs with
  | [] => None
  | (_, c) :: cs' =>
      match cacheMatch c url with
      | Some r => Some r
      | None => matchAny cs' url
      end
  end.

(** The cache of the given name, after [put] has been applied to it. *)
Fixpoint update (cs : CacheStorage) (n : string) (f : Cache -> Cache) : CacheStorage :=
  match cs with
  | [] => []
  | (m, c) :: cs' =>
      if m =? n then (m, f c) :: cs' else (m, c) :: update cs' n f
  end.

(** A [./]-relative reference resolved against the directory [scope]. *)
Definition resolve (scope ref : string) : string :=
  match ref with
  | String "." (String "/" rest) => scope ++ rest
  | _ => ref
  end.

(** [response.ok] *)
Definition ok (r : Resp) : bool := ((200 <=? status r) && (status r <=? 299))%nat.

(** What [cache.addAll] accepts: a response with an ok status other than
    206 whose [Vary] header does not name [*]. *)
Definition addable (r : Resp) : bool :=
  ok r && negb (status r =? 206)%nat && negb (varyStar r).

(** What [cache.addAll] fetches: every response, when every request is
    answered with a response it accepts. *)
Fixpoint fetchAll (net : Network) (urls : list string) : option (list (string * Resp)) :=
  match urls with
  | [] => Some []
  | url :: rest =>
      match net url, fetchAll net rest with
      | Some r, Some rs => if addable r then Some ((url, r) :: rs) else None
      | _, _ => None
      end
  end.

Definition putAll (c : Cache) (entries : list (string * Resp)) : Cache :=
  fold_left (fun acc kv => cachePut acc (fst kv) (snd kv)) entries c.

(** The message of the [TypeError] with which [addAll] rejects is the
    engine's. *)
Definition addAllError : JsError :=
  TypeError "Failed to execute 'addAll' on 'Cache': Request failed".

(** The [install] handler (lines 11-16).  The outcome is that of the
    promise handed to [waitUntil]. *)
Definition onInstall (scope : string) (net : Network) (s : State) : Outcome unit * State :=
  let urls := map (resolve scope) ASSETS in
  let s1 := mkState (open (caches s) CACHE_NAME)
              (log s ++ SkipWaiting :: map NetFetch urls) in
  match fetchAll net urls with
  | Some entries =>
      (Returned tt,
       mkState (update (caches s1) CACHE_NAME (fun c => putAll c entries)) (log s1))
  | None => (Thrown addAllError, s1)
  end.

(** The callback of [keyList.map] (lines 23-28). *)
Definition cleanUp (s : State) (key : string) : State :=
  if negb (key =? CACHE_NAME)
  then mkState (delete (caches s) key)
         (log s ++ [ConsoleLog "Cleaning up old cache:" key])
  else s.

(** The [activate] handler (lines 19-33): [clients.claim()] is called
    while the handler runs, the clean-up when [caches.keys()] has
    answered. *)
Definition onActivate (s : State) : State :=
  let s1 := mkState (caches s) (log s ++ [ClientsClaim]) in
  fold_left cleanUp (keys (caches s1)) s1.

(** What the page gets for its request: a response, or nothing when the
    promise handed to [respondWith] resolves with [undefined] or rejects. *)
Inductive Answer :=
| Served (r : Resp)
| Undefined
| Rejected.

(** The [fetch] handler (lines 36-47). *)
Definition onFetch (net : Network) (url : string) (s : State) : Answer * State :=
  if includes url "app.js" then
    let s1 := mkState (caches s) (log s ++ [NetFetch url]) in
    match net url with
    | Some r => (Served r, s1)
    | None =>
        match matchAny (caches s) url with
        | Some r => (Served r, s1)
        | None => (Undefined, s1)
        end
    end
  else
    match matchAny (caches s) url with
    | Some r => (Served r, s)
    | None =>
        let s1 := mkState (caches s) (log s ++ [NetFetch url]) in
        match net url with
        | Some r => (Served r, s1)
        | None => (Rejected, s1)
        end
    end.

(** The network requests of a log. *)
Fixpoint fetched (l : list SwEvent) : list string :=
  match l with
  | [] => []
  | NetFetch u :: l' => u :: fetched l'
  | _ :: l' => fetched l'
  end.

End Sw.

(** A site that serves every asset, and an older generation of the cache
    that holds a stale page. *)
Definition sampleScope : string := "https://litepub.example/".



(** A site that answers every request with a partial response. *)
Definition partialSite : Sw.Network :=
  fun url => Some (Sw.mkResponse 206 false "part").

Definition staleCaches : Sw.CacheStorage :=
  [ ("webtoepub-v4", [("https://litepub.example/index.html", Sw.mkResp 200 "stale")]) ].

(* ================================================================= *)
(** * Properties *)

(** ** Strings *)

Lemma append_nil_r (s : string) : s ++ EmptyString = s.
Proof. induction s as [|c s IH]; simpl; congruence. Qed.

Lemma append_assoc (a b c : string) : (a ++ b) ++ c = a ++ (b ++ c).
Proof. induction a as [|x a IH]; simpl; congruence. Qed.

Lemma length_append (a b : string) :
  String.length (a ++ b) = String.length a + String.length b.
Proof. induction a as [|x a IH]; simpl; congruence. Qed.

Lemma append_inv_head (a b c : string) : a ++ b = a ++ c -> b = c.
Proof.
  induction a as [|x a IH]; simpl; intros H.
  - exact H.
  - injection H as H. auto.
Qed.

Lemma append_inv_tail (a b c : string) : a ++ c = b ++ c -> a = b.
Proof.
  revert b. induction a as [|x a IH]; intros [|y b] H; simpl in H.
  - reflexivity.
  - apply (f_equal String.length) in H. simpl in H.
    rewrite length_append in H. lia.
  - apply (f_equal String.length) in H. simpl in H.
    rewrite length_append in H. lia.
  - injection H as Hx H. subst y. f_equal. auto.
Qed.

Lemma startsWith_app (p r : string) : startsWith (p ++ r) p = true.
Proof.
  induction p as [|c p IH]; simpl.
  - reflexivity.
  - rewrite Ascii.eqb_refl. exact IH.
Qed.

Lemma startsWith_inv (s p : string) :
  startsWith s p = true -> exists r, s = p ++ r.
Proof.
  revert s. induction p as [|c p IH]; intros s H; simpl in H.
  - exists s. reflexivity.
  - destruct s as [|d s]; [discriminate|].
    apply andb_true_iff in H. destruct H as [Hc Hp].
    apply Ascii.eqb_eq in Hc. subst d.
    destruct (IH _ Hp) as [r ->]. exists r. reflexivity.
Qed.

Lemma startsWith_iff (s p : string) :
  startsWith s p = true <-> exists r, s = p ++ r.
Proof.
  split.
  - apply startsWith_inv.
  - intros [r ->]. apply startsWith_app.
Qed.

Lemma includes_startsWith (s p : string) :
  startsWith s p = true -> includes s p = true.
Proof. intros H. destruct s; simpl; rewrite H; reflexivity. Qed.

(** [includes] finds exactly the occurrences of the pattern. *)
Lemma includes_iff (s p : string) :
  includes s p = true <-> exists a b, s = a ++ p ++ b.
Proof.
  split.
  - induction s as [|c s IH]; simpl; intros H.
    + rewrite orb_false_r in H. apply startsWith_inv in H.
      destruct H as [r Hr]. exists EmptyString, r. exact Hr.
    + apply orb_true_iff in H. destruct H as [H|H].
      * apply startsWith_inv in H. destruct H as [r Hr].
        exists EmptyString, r. exact Hr.
      * destruct (IH H) as (a & b & ->). exists (String c a), b. reflexivity.
  - intros (a & b & ->). induction a as [|c a IH]; simpl.
    + apply includes_startsWith, startsWith_app.
    + rewrite IH. apply orb_true_r.
Qed.

Lemma splitHead_no_sep (s : string) (c : ascii) :
  includes (splitHead s c) (String c EmptyString) = false.
Proof.
  induction s as [|d s IH]; simpl.
  - reflexivity.
  - destruct (Ascii.eqb d c) eqn:E; simpl.
    + reflexivity.
    + rewrite E. simpl. exact IH.
Qed.

Lemma splitHead_prefix (s : string) (c : ascii) :
  s = splitHead s c \/ exists rest, s = splitHead s c ++ String c rest.
Proof.
  induction s as [|d s IH]; simpl.
  - left. reflexivity.
  - destruct (Ascii.eqb d c) eqn:E.
    + apply Ascii.eqb_eq in E. subst d. right. exists s. reflexivity.
    + destruct IH as [IH|[rest IH]].
      * left. congruence.
      * right. exists rest. simpl. congruence.
Qed.

Lemma length_encodeURIComponent (s : string) :
  String.length s <= String.length (encodeURIComponent s).
Proof.
  induction s as [|c s IH]; simpl.
  - lia.
  - rewrite length_append. destruct (unreserved c); simpl; lia.
Qed.

(** The proxied address is longer than the address it wraps. *)
Lemma length_targetUrl (url : string) (t : N) :
  String.length url < String.length (targetUrl url t).
Proof.
  unfold targetUrl. rewrite length_append.
  pose proof (length_encodeURIComponent (url ++ cacheBuster url t)) as H.
  rewrite length_append in H. simpl. lia.
Qed.

Lemma targetUrl_neq (url : string) (t : N) : targetUrl url t <> url.
Proof.
  intros H. pose proof (length_targetUrl url t) as L. rewrite H in L. lia.
Qed.

Lemma showNat_inj (n m : nat) : showNat n = showNat m -> n = m.
Proof.
  unfold showNat. intros H.
  apply DecimalNat.Unsigned.to_uint_inj.
  apply (f_equal NilEmpty.uint_of_string) in H.
  rewrite !NilEmpty.usu in H. congruence.
Qed.

(* ================================================================= *)
(** ** Traces and the monad *)

Lemma requests_app (a b : list Event) :
  requests (a ++ b) = (requests a ++ requests b)%list.
Proof.
  induction a as [|e a IH]; simpl.
  - reflexivity.
  - destruct e; simpl; rewrite IH; reflexivity.
Qed.

Lemma saved_app (a b : list Event) : saved (a ++ b) = (saved a ++ saved b)%list.
Proof.
  induction a as [|e a IH]; simpl.
  - reflexivity.
  - destruct e; simpl; rewrite IH; reflexivity.
Qed.

Lemma bind_returned {A B} (m : M A) (k : A -> M B) s a s' :
  m s = (Returned a, s') -> bind m k s = k a s'.
Proof. intros H. unfold bind. rewrite H. reflexivity. Qed.

Lemma bind_thrown {A B} (m : M A) (k : A -> M B) s e s' :
  m s = (Thrown e, s') -> bind m k s = (Thrown e, s').
Proof. intros H. unfold bind. rewrite H. reflexivity. Qed.

Lemma bind_outOfGas {A B} (m : M A) (k : A -> M B) s s' :
  m s = (OutOfGas, s') -> bind m k s = (OutOfGas, s').
Proof. intros H. unfold bind. rewrite H. reflexivity. Qed.

Lemma advanced_refl (s : State) : advanced s s [].
Proof. unfold advanced. simpl. rewrite app_nil_r. repeat split; lia. Qed.

Lemma advanced_trans (s1 s2 s3 : State) (a b : list string) :
  advanced s1 s2 a -> advanced s2 s3 b -> advanced s1 s3 (a ++ b)%list.
Proof.
  unfold advanced. intros (C1 & F1 & R1 & S1) (C2 & F2 & R2 & S2).
  rewrite length_app. repeat split; try lia.
  - rewrite R2, R1, app_assoc. reflexivity.
  - congruence.
Qed.

Lemma emit_advanced (e : Event) (s : State) :
  quiet e -> advanced s (snd (emit e s)) [].
Proof.
  intros Q. unfold advanced, emit. simpl.
  rewrite requests_app, saved_app.
  destruct e; simpl in *; try contradiction;
    rewrite ?app_nil_r; repeat split; lia.
Qed.

Lemma afterFetch_advanced (s : State) (u : string) : advanced s (afterFetch s u) [u].
Proof.
  unfold advanced, afterFetch. simpl.
  rewrite requests_app, saved_app. simpl. rewrite app_nil_r.
  repeat split; lia.
Qed.

Lemma allWell_nil (w : World) (k : nat) : allWell w k [].
Proof. intros [|i] u H; discriminate. Qed.

Lemma allWell_app (w : World) (k : nat) (a b : list string) :
  allWell w k a -> allWell w (k + List.length a) b -> allWell w k (a ++ b)%list.
Proof.
  intros Ha Hb i u H.
  destruct (Nat.lt_ge_cases i (List.length a)) as [L|L].
  - rewrite nth_error_app1 in H by exact L. apply Ha. exact H.
  - rewrite nth_error_app2 in H by exact L.
    replace (k + i) with (k + List.length a + (i - List.length a)) by lia.
    apply Hb. exact H.
Qed.

Lemma allWell_one (w : World) (k : nat) (u : string) :
  wellAnswered w k u -> allWell w k [u].
Proof.
  intros H [|[|i]] v Hv; simpl in Hv; try discriminate.
  injection Hv as <-. rewrite Nat.add_0_r. exact H.
Qed.

Lemma allWell_prefix (w : World) (k : nat) (a b : list string) :
  allWell w k (a ++ b)%list -> allWell w k a.
Proof.
  intros H i u Hi. apply H. rewrite nth_error_app1; [exact Hi|].
  apply nth_error_Some. congruence.
Qed.

Lemma allWell_removelast (w : World) (k : nat) (a : list string) :
  allWell w k a -> allWell w k (removelast a).
Proof.
  destruct a as [|x a] using rev_ind; intros H.
  - exact H.
  - rewrite removelast_last. exact (allWell_prefix _ _ _ _ H).
Qed.

Lemma nth_error_removelast {A} (l : list A) (i : nat) :
  S i < List.length l -> nth_error (removelast l) i = nth_error l i.
Proof.
  destruct l as [|x l] using rev_ind; intros H.
  - simpl in H. lia.
  - rewrite length_app in H. simpl in H.
    rewrite removelast_last, nth_error_app1 by lia. reflexivity.
Qed.

(** A run that stopped at its last request: those before it were well
    answered. *)
Lemma stopped_app (w : World) (k : nat) (a b : list string) :
  allWell w k a -> allWell w (k + List.length a) (removelast b) ->
  allWell w k (removelast (a ++ b)).
Proof.
  intros Ha Hb. destruct b as [|x b].
  - rewrite app_nil_r. apply allWell_removelast. exact Ha.
  - rewrite removelast_app by discriminate. apply allWell_app; assumption.
Qed.

(* ================================================================= *)
(** ** [fetchPage] *)

(** One clock reading, one request, and the outcome [received] computes
    from the answer. *)
Lemma fetchPage_run (w : World) (url : string) (s : State) :
  let u := targetUrl url (now w (clockReads s)) in
  fetchPage w url s = (received (respond w (fetches s) u), afterFetch s u).
Proof.
  unfold fetchPage, tryCatch, bind, dateNow, fetch, afterFetch, received. simpl.
  destruct (respond w (fetches s) _) as [e|status doc]; simpl.
  - reflexivity.
  - destruct (ok status); simpl.
    + destruct (blocked doc); reflexivity.
    + reflexivity.
Qed.

Lemma received_thrown (r : Response) (e : JsError) :
  received r = Thrown e -> exists m, e = Error ("Network error: " ++ m).
Proof.
  unfold received. destruct r as [e0|status doc].
  - intros H. injection H as <-. eexists. reflexivity.
  - destruct (negb (ok status)).
    + intros H. injection H as <-. eexists. reflexivity.
    + destruct (blocked doc); intros H; [|discriminate].
      injection H as <-. eexists. reflexivity.
Qed.

Lemma received_gas (r : Response) : received r <> OutOfGas.
Proof.
  unfold received. destruct r as [e0|status doc]; [discriminate|].
  destruct (negb (ok status)); [discriminate|].
  destruct (blocked doc); discriminate.
Qed.

Lemma received_returned (status : nat) (doc : Document) :
  ok status = true -> blocked doc = false ->
  received (Responded status doc) = Returned doc.
Proof. intros H1 H2. unfold received. rewrite H1, H2. reflexivity. Qed.

(* ================================================================= *)
(** ** Extraction *)

Lemma firstMatch_none (doc : Document) (sels : list string) :
  firstMatch doc sels = None <->
  forall sel, In sel sels -> querySelector doc sel = None.
Proof.
  induction sels as [|sel sels IH]; simpl.
  - split; [intros _ ? [] | reflexivity].
  - destruct (querySelector doc sel) eqn:E.
    + split; [discriminate|]. intros H.
      specialize (H sel (or_introl eq_refl)). congruence.
    + rewrite IH. split.
      * intros H x [<-|Hx]; auto.
      * intros H x Hx. apply H. right. exact Hx.
Qed.

Lemma firstText_none (doc : Document) (sels : list string) (fallback : string) :
  (forall sel, In sel sels -> querySelector doc sel = None) ->
  firstText doc sels fallback = fallback.
Proof.
  induction sels as [|sel sels IH]; simpl; intros H.
  - reflexivity.
  - unfold textOf. rewrite (H sel (or_introl eq_refl)).
    apply IH. intros x Hx. apply H. right. exact Hx.
Qed.

Lemma extractStoryContent_thrown (doc : Document) (e : JsError) :
  extractStoryContent doc = Thrown e -> e = Error contentNotFoundMessage.
Proof.
  unfold extractStoryContent.
  destruct (firstMatch doc contentSelectors); intros H; [discriminate|].
  injection H as <-. reflexivity.
Qed.

Lemma extractStoryContent_gas (doc : Document) : extractStoryContent doc <> OutOfGas.
Proof.
  unfold extractStoryContent.
  destruct (firstMatch doc contentSelectors); discriminate.
Qed.

(* ================================================================= *)
(** ** The pagination loop *)

Ltac summary :=
  unfold advanced, afterFetch, emit; simpl;
  rewrite ?requests_app, ?saved_app; simpl;
  rewrite ?requests_app, ?saved_app; simpl;
  rewrite ?app_nil_r; repeat split; lia.

Section PagesLoop.

Variables (w : World) (status : bool) (prefixLog baseUrl : string).

(** One iteration: one request, for the current page, and the loop
    variables [pageStep] gives when the page arrives and can be read. *)
Lemma loopBody_run (st : LoopState) (s : State) :
  let u := targetUrl (currentUrl baseUrl (pageNum st)) (now w (clockReads s)) in
  exists s', advanced s s' [u] /\
    loopBody w status prefixLog baseUrl st s =
      (match received (respond w (fetches s) u) with
       | Returned doc =>
           match extractStoryContent doc with
           | Returned d => Returned (pageStep st doc d)
           | Thrown e => Thrown e
           | OutOfGas => OutOfGas
           end
       | Thrown e => Thrown e
       | OutOfGas => OutOfGas
       end, s').
Proof.
  intros u. unfold loopBody, pageStep.
  destruct status; unfold bind at 1; simpl; unfold bind at 1;
    rewrite fetchPage_run; simpl; fold u;
    (destruct (received (respond w (fetches s) u)) as [doc|e|];
     [ unfold bind, lift;
       destruct (extractStoryContent doc) as [d|e|];
       [ destruct (findNextLink doc); simpl | | ]
     | | ]);
    (eexists; split; [|reflexivity]; summary).
Qed.

Lemma pagesLoop_done (gas : nat) (st : LoopState) :
  hasNext st && (pageNum st <=? MAX_PAGES)%nat = false ->
  pagesLoop w status prefixLog baseUrl gas st = ret st.
Proof. intros H. destruct gas; simpl; rewrite H; reflexivity. Qed.

Lemma pagesLoop_step (gas : nat) (st : LoopState) :
  hasNext st && (pageNum st <=? MAX_PAGES)%nat = true ->
  pagesLoop w status prefixLog baseUrl (S gas) st =
  (st' <- loopBody w status prefixLog baseUrl st ;;
   pagesLoop w status prefixLog baseUrl gas st').
Proof. intros H. simpl. rewrite H. reflexivity. Qed.

Lemma pageUrls_0 (p c : nat) :
  pageUrls w baseUrl p c 0 = [].
Proof. reflexivity. Qed.

Lemma pageUrls_S (p c n : nat) :
  pageUrls w baseUrl p c (S n) =
  targetUrl (currentUrl baseUrl p) (now w c) :: pageUrls w baseUrl (S p) (S c) n.
Proof.
  unfold pageUrls. simpl. rewrite !Nat.add_0_r. f_equal.
  rewrite <- seq_shift, map_map. apply map_ext. intros i.
  rewrite !Nat.add_succ_r. reflexivity.
Qed.

Lemma length_pageUrls (p c n : nat) :
  List.length (pageUrls w baseUrl p c n) = n.
Proof. unfold pageUrls. rewrite length_map, length_seq. reflexivity. Qed.

(** Whatever the network does, the loop ends (with [MAX_PAGES] as budget
    the model never runs out of it), its requests are those of consecutive
    pages, at most one per unit of budget, nothing is saved, a normal
    return means that every request was well answered, and a failure is a
    [pageFailure] that came with the last request. *)
Lemma pagesLoop_spec :
  forall (gas : nat) (st : LoopState) (s : State),
    (hasNext st = true -> MAX_PAGES < gas + pageNum st) ->
    exists n o s',
      pagesLoop w status prefixLog baseUrl gas st s = (o, s') /\
      advanced s s' (pageUrls w baseUrl (pageNum st) (clockReads s) n) /\
      n <= gas /\
      (hasNext st && (pageNum st <=? MAX_PAGES)%nat = true -> 1 <= n) /\
      match o with
      | Returned _ => allWell w (fetches s) (pageUrls w baseUrl (pageNum st) (clockReads s) n)
      | Thrown e =>
          pageFailure e /\
          allWell w (fetches s)
            (removelast (pageUrls w baseUrl (pageNum st) (clockReads s) n))
      | OutOfGas => False
      end.
Proof.
  induction gas as [|g IH]; intros st s Hgas.
  - destruct (hasNext st && (pageNum st <=? MAX_PAGES)%nat) eqn:C.
    + apply andb_true_iff in C. destruct C as [C1 C2].
      apply Nat.leb_le in C2. specialize (Hgas C1). simpl in Hgas. lia.
    + rewrite pagesLoop_done by exact C.
      exists 0, (Returned st), s.
      split; [reflexivity|]. split; [apply advanced_refl|].
      split; [lia|]. split; [discriminate|]. apply allWell_nil.
  - destruct (hasNext st && (pageNum st <=? MAX_PAGES)%nat) eqn:C.
    2:{ rewrite pagesLoop_done by exact C.
        exists 0, (Returned st), s.
        split; [reflexivity|]. split; [apply advanced_refl|].
        split; [lia|]. split; [discriminate|]. apply allWell_nil. }
    rewrite pagesLoop_step by exact C.
    apply andb_true_iff in C. destruct C as [C1 C2].
    destruct (loopBody_run st s) as (s1 & A1 & E1).
    set (u := targetUrl (currentUrl baseUrl (pageNum st)) (now w (clockReads s))) in *.
    destruct (received (respond w (fetches s) u)) as [doc|e|] eqn:R.
    + destruct (extractStoryContent doc) as [d|e|] eqn:X.
      * rewrite (bind_returned _ _ _ _ _ E1).
        assert (W : allWell w (fetches s) [u]).
        { apply allWell_one. exists doc. exact R. }
        pose proof A1 as (Ac & Af & _ & _). simpl in Ac, Af.
        unfold pageStep. destruct (findNextLink doc) as [a|] eqn:L.
        -- destruct (IH (mkLoopState (S (pageNum st))
                           (if (pageNum st =? 1)%nat then content d
                            else fullHtml st ++ separator ++ content d)
                           (hasNext st)) s1) as (n & o & s' & E & A & Hn & _ & P).
           { simpl. intros H. specialize (Hgas H). lia. }
           simpl in A, P.
           replace (clockReads s1) with (S (clockReads s)) in A, P by lia.
           replace (fetches s1) with (fetches s + 1) in P by lia.
           exists (S n), o, s'. rewrite pageUrls_S. fold u.
           change (u :: pageUrls w baseUrl (S (pageNum st)) (S (clockReads s)) n)
             with ([u] ++ pageUrls w baseUrl (S (pageNum st)) (S (clockReads s)) n)%list.
           split; [exact E|].
           split; [apply advanced_trans with s1; assumption|].
           split; [lia|]. split; [lia|].
           destruct o as [st'|e|]; [|split; [apply P|]|exact P].
           ++ apply allWell_app; [exact W|exact P].
           ++ apply stopped_app; [exact W|apply P].
        -- rewrite pagesLoop_done by reflexivity.
           exists 1, (Returned (mkLoopState (pageNum st)
                        (if (pageNum st =? 1)%nat then content d
                         else fullHtml st ++ separator ++ content d) false)), s1.
           rewrite pageUrls_S, pageUrls_0. fold u.
           split; [reflexivity|]. split; [exact A1|].
           split; [lia|]. split; [lia|]. exact W.
      * rewrite (bind_thrown _ _ _ _ _ E1).
        exists 1, (Thrown e), s1. rewrite pageUrls_S, pageUrls_0. fold u.
        split; [reflexivity|]. split; [exact A1|].
        split; [lia|]. split; [lia|].
        split; [|apply allWell_nil].
        right. eapply extractStoryContent_thrown. exact X.
      * exfalso. eapply extractStoryContent_gas. exact X.
    + rewrite (bind_thrown _ _ _ _ _ E1).
      exists 1, (Thrown e), s1. rewrite pageUrls_S, pageUrls_0. fold u.
      split; [reflexivity|]. split; [exact A1|].
      split; [lia|]. split; [lia|].
      split; [|apply allWell_nil].
      left. eapply received_thrown. exact R.
    + exfalso. eapply received_gas. exact R.
Qed.

Lemma serves_head (p c k : nat) (doc : Document) (docs : list Document) :
  serves w baseUrl p c k (doc :: docs) ->
  exists status,
    respond w k (targetUrl (currentUrl baseUrl p) (now w c)) = Responded status doc /\
    ok status = true /\ blocked doc = false /\
    exists d, extractStoryContent doc = Returned d.
Proof.
  intros H. specialize (H 0 doc eq_refl).
  rewrite !Nat.add_0_r in H. exact H.
Qed.

Lemma serves_tail (p c k : nat) (doc : Document) (docs : list Document) :
  serves w baseUrl p c k (doc :: docs) ->
  serves w baseUrl (S p) (S c) (S k) docs.
Proof.
  intros H i d Hi. specialize (H (S i) d Hi).
  rewrite !Nat.add_succ_r in H. exact H.
Qed.

Lemma pagesHtml_cons (p : nat) (acc f : string) (frags : list string) :
  pagesHtml p acc (f :: frags) =
  pagesHtml (S (S p)) (if (p =? 1)%nat then f else appendPage acc f) frags.
Proof. destruct frags; reflexivity. Qed.

(** The loop on a world that serves the pages [docs] from page [p] on,
    every page but the last with a next-link, the last without one or at
    the page bound: all of them are fetched, in order, and nothing else. *)
Lemma pagesLoop_pages :
  forall (docs : list Document) (p gas : nat) (acc : string) (s : State),
    docs <> [] ->
    1 <= p ->
    p + List.length docs <= MAX_PAGES + 1 ->
    MAX_PAGES < gas + p ->
    serves w baseUrl p (clockReads s) (fetches s) docs ->
    (forall i doc, nth_error docs i = Some doc ->
       i + 1 < List.length docs -> findNextLink doc <> None) ->
    (forall doc, nth_error docs (List.length docs - 1) = Some doc ->
       findNextLink doc = None \/ p + List.length docs = MAX_PAGES + 1) ->
    exists st' s',
      pagesLoop w status prefixLog baseUrl gas (mkLoopState p acc true) s
        = (Returned st', s') /\
      fullHtml st' = pagesHtml p acc (map fragment docs) /\
      advanced s s' (pageUrls w baseUrl p (clockReads s) (List.length docs)).
Proof.
  induction docs as [|doc docs IH]; intros p gas acc s Hne Hp Hlen Hgas Hsrv Hnext Hlast.
  - contradiction.
  - unfold MAX_PAGES in Hlen, Hgas, Hlast, IH.
    destruct gas as [|g]; [exfalso; simpl in *; lia|].
    rewrite pagesLoop_step.
    2:{ simpl. apply Nat.leb_le. unfold MAX_PAGES. simpl in Hlen. lia. }
    destruct (loopBody_run (mkLoopState p acc true) s)
      as (s1 & A1 & E1).
    simpl in A1, E1.
    destruct (serves_head _ _ _ _ _ Hsrv) as (code & R & Hok & Hblk & d & X).
    rewrite R, (received_returned _ _ Hok Hblk), X in E1.
    rewrite (bind_returned _ _ _ _ _ E1).
    assert (F : fragment doc = content d) by (unfold fragment; rewrite X; reflexivity).
    pose proof A1 as (Ac & Af & _ & _). simpl in Ac, Af.
    simpl map. rewrite pagesHtml_cons, F. simpl List.length. rewrite pageUrls_S.
    unfold pageStep. simpl pageNum. simpl fullHtml. simpl hasNext.
    fold (appendPage acc (content d)).
    destruct docs as [|doc2 docs].
    + (* the last page *)
      assert (D : hasNext (match findNextLink doc with
                           | Some _ => mkLoopState (S p)
                               (if (p =? 1)%nat then content d else appendPage acc (content d)) true
                           | None => mkLoopState p
                               (if (p =? 1)%nat then content d else appendPage acc (content d)) false
                           end)
                  && (pageNum (match findNextLink doc with
                           | Some _ => mkLoopState (S p)
                               (if (p =? 1)%nat then content d else appendPage acc (content d)) true
                           | None => mkLoopState p
                               (if (p =? 1)%nat then content d else appendPage acc (content d)) false
                           end) <=? MAX_PAGES)%nat = false).
      { destruct (findNextLink doc) eqn:L; simpl; [|reflexivity].
        destruct (Hlast doc eq_refl) as [H|H]; [congruence|].
        simpl in H. apply Nat.leb_gt. unfold MAX_PAGES. lia. }
      rewrite pagesLoop_done by exact D.
      eexists _, s1. split; [reflexivity|]. split.
      * destruct (findNextLink doc); reflexivity.
      * exact A1.
    + (* a page with a successor *)
      destruct (findNextLink doc) as [a|] eqn:L.
      2:{ exfalso. apply (Hnext 0 doc eq_refl); [simpl; lia|exact L]. }
      destruct (IH (S p) g (if (p =? 1)%nat then content d else appendPage acc (content d)) s1)
        as (st' & s' & E & H & A).
      * discriminate.
      * lia.
      * simpl in *. lia.
      * lia.
      * replace (clockReads s1) with (S (clockReads s)) by lia.
        replace (fetches s1) with (S (fetches s)) by lia.
        eapply serves_tail. exact Hsrv.
      * intros i x Hi Hx. apply (Hnext (S i) x Hi). simpl in *. lia.
      * intros x Hx. destruct (Hlast x) as [H|H].
        -- simpl in *. rewrite Nat.sub_0_r in Hx. exact Hx.
        -- left. exact H.
        -- right. simpl in *. lia.
      * exists st', s'. split; [exact E|]. split.
        -- rewrite H. destruct p as [|[|p]]; [lia| |]; reflexivity.
        -- replace (clockReads s1) with (S (clockReads s)) in A by lia.
           match goal with
           | |- advanced _ _ (?u :: ?l) => change (u :: l) with ([u] ++ l)%list
           end.
           apply advanced_trans with s1; assumption.
Qed.

End PagesLoop.

Lemma join_cons_app (sep a b : string) (rest : list string) :
  join sep ((a ++ b) :: rest) = a ++ join sep (b :: rest).
Proof. destruct rest; simpl; [reflexivity|]. apply append_assoc. Qed.

Lemma fold_appendPage (rest : list string) (f : string) :
  fold_left appendPage rest f = join separator (f :: rest).
Proof.
  revert f. induction rest as [|g rest IH]; intros f.
  - reflexivity.
  - simpl fold_left. rewrite IH. unfold appendPage.
    rewrite join_cons_app, join_cons_app. reflexivity.
Qed.

Lemma pagesHtml_first (acc : string) (frags : list string) :
  frags <> [] -> pagesHtml 1 acc frags = join separator frags.
Proof.
  destruct frags as [|f rest]; intros H.
  - contradiction.
  - unfold pagesHtml. simpl Nat.eqb. cbv iota. apply fold_appendPage.
Qed.

(** The whole loop, whatever the network does. *)
Lemma fetchAllPagesOfStory_spec (w : World) (startUrl : string) (status : bool)
    (prefixLog : string) (s : State) :
  exists n o s',
    fetchAllPagesOfStory w startUrl status prefixLog s = (o, s') /\
    advanced s s' (pageUrls w (splitHead startUrl "?") 1 (clockReads s) n) /\
    1 <= n <= MAX_PAGES /\
    match o with
    | Returned _ =>
        allWell w (fetches s) (pageUrls w (splitHead startUrl "?") 1 (clockReads s) n)
    | Thrown e =>
        pageFailure e /\
        allWell w (fetches s)
          (removelast (pageUrls w (splitHead startUrl "?") 1 (clockReads s) n))
    | OutOfGas => False
    end.
Proof.
  unfold fetchAllPagesOfStory.
  destruct (pagesLoop_spec w status prefixLog (splitHead startUrl "?") MAX_PAGES
              (mkLoopState 1 EmptyString true) s) as (n & o & s' & E & A & Hn & H1 & P).
  { intros _. unfold MAX_PAGES. simpl. lia. }
  simpl in A, P, H1. specialize (H1 eq_refl).
  exists n. destruct o as [st'|e|].
  - exists (Returned (fullHtml st')), s'.
    rewrite (bind_returned _ _ _ _ _ E). unfold ret.
    repeat (split; [first [reflexivity | assumption | lia]|]). exact P.
  - exists (Thrown e), s'. rewrite (bind_thrown _ _ _ _ _ E).
    repeat (split; [first [reflexivity | assumption | lia]|]). exact P.
  - contradiction.
Qed.

(** The whole loop on a chapter the world serves. *)
Lemma fetchAllPagesOfStory_pages (w : World) (startUrl : string) (status : bool)
    (prefixLog : string) (s : State) (docs : list Document) :
  let baseUrl := splitHead startUrl "?" in
  1 <= List.length docs <= MAX_PAGES ->
  serves w baseUrl 1 (clockReads s) (fetches s) docs ->
  (forall i doc, nth_error docs i = Some doc ->
     i + 1 < List.length docs -> findNextLink doc <> None) ->
  (forall doc, nth_error docs (List.length docs - 1) = Some doc ->
     findNextLink doc = None \/ List.length docs = MAX_PAGES) ->
  exists s',
    fetchAllPagesOfStory w startUrl status prefixLog s
      = (Returned (join separator (map fragment docs)), s') /\
    advanced s s' (pageUrls w baseUrl 1 (clockReads s) (List.length docs)).
Proof.
  intros baseUrl Hlen Hsrv Hnext Hlast.
  assert (Hne : docs <> []) by (destruct docs; [simpl in Hlen; lia | discriminate]).
  destruct (pagesLoop_pages w status prefixLog baseUrl docs 1 MAX_PAGES EmptyString s)
    as (st' & s' & E & H & A); try assumption; try lia.
  { intros doc Hd. destruct (Hlast doc Hd) as [L|L]; [left; exact L | right; lia]. }
  exists s'. split; [|exact A].
  unfold fetchAllPagesOfStory. fold baseUrl.
  rewrite (bind_returned _ _ _ _ _ E). unfold ret.
  rewrite H, pagesHtml_first; [reflexivity|].
  destruct docs; [contradiction|discriminate].
Qed.

(** C1.  A chapter of K physical pages, 1 <= K <= 50, whose pages 1..K-1
    each carry a next-link and whose page K carries none: the loop issues
    exactly K fetches, those of pages 1..K in order, and returns page 1's
    fragment followed, for each later page, by the separator, which is the
    [hr] element of class [page-break] of line 148, and that page's
    fragment. *)
Theorem paginate_chapter (w : World) (startUrl : string) (status : bool)
    (prefixLog : string) (s : State) (docs : list Document) :
  1 <= List.length docs <= MAX_PAGES ->
  serves w (splitHead startUrl "?") 1 (clockReads s) (fetches s) docs ->
  (forall i doc, nth_error docs i = Some doc ->
     i + 1 < List.length docs -> findNextLink doc <> None) ->
  (forall doc, nth_error docs (List.length docs - 1) = Some doc ->
     findNextLink doc = None) ->
  exists s',
    fetchAllPagesOfStory w startUrl status prefixLog s
      = (Returned
           (join (dq "<hr class='page-break' style='margin: 2em 0; border-top: 2px dashed #666;' />")
              (map fragment docs)), s') /\
    fetches s' = fetches s + List.length docs /\
    requests (trace s')
      = (requests (trace s)
         ++ pageUrls w (splitHead startUrl "?") 1 (clockReads s) (List.length docs))%list.
Proof.
  intros Hlen Hsrv Hnext Hlast.
  destruct (fetchAllPagesOfStory_pages w startUrl status prefixLog s docs)
    as (s' & E & A); try assumption.
  { intros doc Hd. left. apply Hlast. exact Hd. }
  exists s'. split; [exact E|].
  destruct A as (_ & Af & Ar & _). rewrite length_pageUrls in Af.
  split; assumption.
Qed.

Lemma paginate_chapter_witness :
  exists s',
    fetchAllPagesOfStory (sampleWorld sampleChapter) sampleUrl true EmptyString initialState
      = (Returned
           (dq "<p>one</p><hr class='page-break' style='margin: 2em 0; border-top: 2px dashed #666;' /><p>two</p><hr class='page-break' style='margin: 2em 0; border-top: 2px dashed #666;' /><p>three</p>"),
         s') /\
    fetches s' = 3 /\
    requests (trace s')
      = pageUrls (sampleWorld sampleChapter) "https://www.literotica.com/s/a-story" 1 0 3.
Proof.
  apply (paginate_chapter (sampleWorld sampleChapter) sampleUrl true EmptyString
           initialState sampleChapter).
  - unfold MAX_PAGES. simpl. lia.
  - intros [|[|[|i]]] doc Hi; simpl in Hi;
      [ | | | destruct i; discriminate Hi];
      injection Hi as <-; exists 200;
      (split; [reflexivity|]); (split; [reflexivity|]); (split; [reflexivity|]);
      eexists; reflexivity.
  - intros [|[|[|i]]] doc Hi Hlt; simpl in *; try lia;
      injection Hi as <-; discriminate.
  - simpl. intros doc Hd. injection Hd as <-. reflexivity.
Defined.

(** C2.  When every fetched page advertises a next-link the loop stops
    after exactly 50 fetches, returns normally, and returns the 50
    fragments in order, joined by the separator.  No run of the loop issues
    more than 50 fetches, and the budget of the model is never exhausted. *)
Theorem pagination_bounded :
  (forall (w : World) (startUrl : string) (status : bool) (prefixLog : string)
          (s : State) (docs : list Document),
      List.length docs = MAX_PAGES ->
      serves w (splitHead startUrl "?") 1 (clockReads s) (fetches s) docs ->
      (forall doc, In doc docs -> findNextLink doc <> None) ->
      exists s',
        fetchAllPagesOfStory w startUrl status prefixLog s
          = (Returned (join separator (map fragment docs)), s') /\
        fetches s' = fetches s + 50 /\
        List.length (requests (trace s')) = List.length (requests (trace s)) + 50) /\
  (forall (w : World) (startUrl : string) (status : bool) (prefixLog : string)
          (s : State),
      fst (fetchAllPagesOfStory w startUrl status prefixLog s) <> OutOfGas /\
      fetches (snd (fetchAllPagesOfStory w startUrl status prefixLog s))
        <= fetches s + 50 /\
      List.length (requests (trace (snd (fetchAllPagesOfStory w startUrl status prefixLog s))))
        <= List.length (requests (trace s)) + 50).
Proof.
  split.
  - intros w startUrl status prefixLog s docs Hlen Hsrv Hnext.
    destruct (fetchAllPagesOfStory_pages w startUrl status prefixLog s docs)
      as (s' & E & A); try assumption.
    + rewrite Hlen. unfold MAX_PAGES. lia.
    + intros i doc Hi _. apply Hnext. eapply nth_error_In. exact Hi.
    + intros doc _. right. exact Hlen.
    + exists s'. split; [exact E|].
      destruct A as (_ & Af & Ar & _). rewrite length_pageUrls, Hlen in Af.
      split; [exact Af|].
      rewrite Ar, length_app, length_pageUrls, Hlen. reflexivity.
  - intros w startUrl status prefixLog s.
    destruct (fetchAllPagesOfStory_spec w startUrl status prefixLog s)
      as (n & o & s' & E & A & Hn & P).
    rewrite E. simpl. destruct A as (_ & Af & Ar & _).
    rewrite length_pageUrls in Af. unfold MAX_PAGES in Hn.
    split; [|split].
    + intros ->. exact P.
    + lia.
    + rewrite Ar, length_app, length_pageUrls. lia.
Qed.

Lemma pagination_bounded_witness :
  exists s',
    fetchAllPagesOfStory endlessWorld sampleUrl false EmptyString initialState
      = (Returned (join separator (repeat "<p>again</p>" 50)), s') /\
    fetches s' = 50 /\
    List.length (requests (trace s')) = 50.
Proof.
  apply (proj1 pagination_bounded endlessWorld sampleUrl false EmptyString initialState
           (repeat (samplePage "again" true) 50)).
  - apply repeat_length.
  - intros i doc Hi. apply nth_error_In, repeat_spec in Hi. subst doc.
    exists 200. repeat split. eexists. reflexivity.
  - intros doc Hd. apply repeat_spec in Hd. subst doc. discriminate.
Defined.

(** C8.  The loop works from the start URL cut at its first [?]: the base
    URL has no query string, page 1 is requested (through [fetchPage]) at
    the base URL itself and every later page N at [baseUrl?page=N]; the
    requests of a run are those for pages 1..n, in order, for some n between
    1 and 50. *)
Theorem pagination_urls (w : World) (startUrl : string) (status : bool)
    (prefixLog : string) (s : State) :
  includes (splitHead startUrl "?") "?" = false /\
  (startUrl = splitHead startUrl "?" \/
   exists query, startUrl = splitHead startUrl "?" ++ "?" ++ query) /\
  currentUrl (splitHead startUrl "?") 1 = splitHead startUrl "?" /\
  (forall N, 1 < N ->
     currentUrl (splitHead startUrl "?") N
       = splitHead startUrl "?" ++ "?page=" ++ showNat N) /\
  exists n, 1 <= n <= 50 /\
    requests (trace (snd (fetchAllPagesOfStory w startUrl status prefixLog s)))
      = (requests (trace s)
         ++ map (fun i => targetUrl (currentUrl (splitHead startUrl "?") (1 + i))
                            (now w (clockReads s + i)))
              (seq 0 n))%list.
Proof.
  split; [apply splitHead_no_sep|].
  split; [apply splitHead_prefix|].
  split; [reflexivity|].
  split.
  - intros N HN. unfold currentUrl.
    destruct (N =? 1)%nat eqn:E; [apply Nat.eqb_eq in E; lia|reflexivity].
  - destruct (fetchAllPagesOfStory_spec w startUrl status prefixLog s)
      as (n & o & s' & E & A & Hn & _).
    exists n. rewrite E. simpl. destruct A as (_ & _ & Ar & _).
    split; [exact Hn|exact Ar].
Qed.

Lemma pagination_urls_witness :
  includes (splitHead sampleUrl "?") "?" = false /\
  sampleUrl = splitHead sampleUrl "?" ++ "?" ++ "page=3" /\
  currentUrl (splitHead sampleUrl "?") 2 = "https://www.literotica.com/s/a-story?page=2" /\
  exists n, 1 <= n <= 50 /\
    requests (trace (snd (fetchAllPagesOfStory (sampleWorld sampleChapter) sampleUrl
                            true EmptyString initialState)))
      = map (fun i => targetUrl (currentUrl (splitHead sampleUrl "?") (1 + i))
                        (now (sampleWorld sampleChapter) i))
          (seq 0 n).
Proof.
  destruct (pagination_urls (sampleWorld sampleChapter) sampleUrl true EmptyString
              initialState) as (H1 & _ & _ & H4 & H5).
  split; [exact H1|]. split; [reflexivity|]. split.
  - rewrite (H4 2) by lia. reflexivity.
  - exact H5.
Defined.

(** C10.  [fetchPage] issues one request per call, and not for the URL it
    is given: for the proxy prefix followed by the percent-encoding of the
    URL with [t=<timestamp>] appended, after [&] when the URL has a [?] and
    after [?] otherwise.  Hence no request of the pagination loop, that for
    page 1 included, is for the URL the loop hands to [fetchPage]. *)
Theorem fetchPage_proxied :
  (forall (w : World) (url : string) (s : State),
      snd (fetchPage w url s)
        = mkState (S (clockReads s)) (S (fetches s))
            (trace s ++ [Fetch (targetUrl url (now w (clockReads s)))]) /\
      targetUrl url (now w (clockReads s))
        = CORS_PROXY
          ++ encodeURIComponent
               (url ++ (if includes url "?" then "&" else "?")
                    ++ "t=" ++ showN (now w (clockReads s))) /\
      targetUrl url (now w (clockReads s)) <> url) /\
  (forall (w : World) (startUrl : string) (status : bool) (prefixLog : string)
          (s : State) (u : string),
      In u (requests (trace (snd (fetchAllPagesOfStory w startUrl status prefixLog s)))) ->
      In u (requests (trace s)) \/
      exists N t,
        u = targetUrl (currentUrl (splitHead startUrl "?") N) t /\
        u <> currentUrl (splitHead startUrl "?") N).
Proof.
  split.
  - intros w url s. split; [|split].
    + rewrite fetchPage_run. reflexivity.
    + unfold targetUrl, cacheBuster. destruct (includes url "?"); reflexivity.
    + apply targetUrl_neq.
  - intros w startUrl status prefixLog s u Hu.
    destruct (fetchAllPagesOfStory_spec w startUrl status prefixLog s)
      as (n & o & s' & E & A & _).
    rewrite E in Hu. simpl in Hu. destruct A as (_ & _ & Ar & _).
    rewrite Ar in Hu. apply in_app_or in Hu. destruct Hu as [Hu|Hu].
    + left. exact Hu.
    + right. unfold pageUrls in Hu. apply in_map_iff in Hu.
      destruct Hu as (i & <- & _).
      eexists _, _. split; [reflexivity|apply targetUrl_neq].
Qed.

Lemma fetchPage_proxied_witness :
  trace (snd (fetchPage (sampleWorld sampleChapter) "https://www.literotica.com/s/a-story"
                initialState))
    = [Fetch "https://corsproxy.io/?https%3A%2F%2Fwww.literotica.com%2Fs%2Fa-story%3Ft%3D1700000000000"] /\
  targetUrl sampleUrl 1700000000000
    = "https://corsproxy.io/?https%3A%2F%2Fwww.literotica.com%2Fs%2Fa-story%3Fpage%3D3%26t%3D1700000000000" /\
  forall u,
    In u (requests (trace (snd (fetchAllPagesOfStory (sampleWorld sampleChapter) sampleUrl
                                  true EmptyString initialState)))) ->
    exists N t,
      u = targetUrl (currentUrl "https://www.literotica.com/s/a-story" N) t /\
      u <> currentUrl "https://www.literotica.com/s/a-story" N.
Proof.
  destruct fetchPage_proxied as (A & B).
  split; [|split].
  - destruct (A (sampleWorld sampleChapter) "https://www.literotica.com/s/a-story"
                initialState) as (H & _ & _).
    rewrite H. reflexivity.
  - destruct (A (sampleWorld sampleChapter) sampleUrl initialState) as (_ & H & _).
    exact H.
  - intros u Hu.
    destruct (B (sampleWorld sampleChapter) sampleUrl true EmptyString initialState u Hu)
      as [[]|H].
    exact H.
Defined.

(* ================================================================= *)
(** ** The next-link detector *)

Lemma find_first {A} (f : A -> bool) (l : list A) (a : A) :
  find f l = Some a <->
  exists before after,
    l = (before ++ a :: after)%list /\ f a = true /\
    forall x, In x before -> f x = false.
Proof.
  split.
  - induction l as [|x l IH]; simpl; intros H.
    + discriminate.
    + destruct (f x) eqn:E.
      * injection H as <-. exists [], l. repeat split; [exact E|]. intros ? [].
      * destruct (IH H) as (before & after & -> & Ha & Hb).
        exists (x :: before), after. repeat split; [exact Ha|].
        intros y [<-|Hy]; auto.
  - intros (before & after & -> & Ha & Hb).
    induction before as [|x before IH]; simpl.
    + rewrite Ha. reflexivity.
    + rewrite (Hb x (or_introl eq_refl)). apply IH.
      intros y Hy. apply Hb. right. exact Hy.
Qed.

(** C4.  The detector returns the first anchor, in document order, that
    meets one of the six conditions, whatever follows it, and none when no
    anchor meets any.  The text tested is the trimmed, lower-cased text. *)
Theorem nextLink_first_match (doc : Document) :
  (forall a,
      findNextLink doc = Some a <->
      exists before after,
        querySelectorAll doc "a" = (before ++ a :: after)%list /\
        isNextLink a = true /\
        forall x, In x before -> isNextLink x = false) /\
  (findNextLink doc = None <->
   forall x, In x (querySelectorAll doc "a") -> isNextLink x = false) /\
  (forall a,
      isNextLink a = true <->
      toLowerCase (trim (textContent a)) = "next" \/
      includes (toLowerCase (trim (textContent a))) "next »" = true \/
      toLowerCase (trim (textContent a)) = "»" \/
      includes (toLowerCase (className a)) "pager-next" = true \/
      includes (toLowerCase (className a)) "b-pager-next" = true \/
      includes (toLowerCase (title a)) "next page" = true).
Proof.
  split; [|split].
  - intros a. apply find_first.
  - unfold findNextLink. split.
    + intros H x Hx. exact (find_none _ _ H x Hx).
    + intros H. destruct (find isNextLink (querySelectorAll doc "a")) eqn:E;
        [|reflexivity].
      apply find_some in E. destruct E as [E1 E2].
      rewrite (H _ E1) in E2. discriminate.
  - intros a. unfold isNextLink.
    rewrite !orb_true_iff, !String.eqb_eq. tauto.
Qed.

Lemma nextLink_first_match_witness :
  isNextLink sampleLastLink = true /\
  findNextLink twoNextPage = Some sampleNextLink /\
  findNextLink unknownPage = None.
Proof.
  split; [reflexivity|]. split.
  - apply (proj1 (nextLink_first_match twoNextPage)).
    exists [sampleHomeLink], [sampleLastLink].
    split; [reflexivity|]. split; [reflexivity|].
    intros x [<-|[]]. reflexivity.
  - apply (proj1 (proj2 (nextLink_first_match unknownPage))).
    intros x [].
Defined.

(* ================================================================= *)
(** ** Missing content and missing metadata *)

(** C6.  When none of the content selectors matches, [extractStoryContent]
    throws the could-not-locate error; when one matches it returns the
    inner markup of the first that does.  [extractMetadata] has no failure
    path: when none of the title (author) selectors matches it yields
    [Unknown Title] ([Unknown Author]). *)
Theorem missing_content_fatal_missing_metadata_tolerated (doc : Document) :
  ((forall sel, In sel contentSelectors -> querySelector doc sel = None) ->
   extractStoryContent doc = Thrown (Error contentNotFoundMessage)) /\
  ((exists sel, In sel contentSelectors /\ querySelector doc sel <> None) ->
   exists contentDiv,
     firstMatch doc contentSelectors = Some contentDiv /\
     extractStoryContent doc = Returned (mkStoryData (innerHTML contentDiv))) /\
  ((forall sel, In sel titleSelectors -> querySelector doc sel = None) ->
   meta_title (extractMetadata doc) = "Unknown Title") /\
  ((forall sel, In sel authorSelectors -> querySelector doc sel = None) ->
   meta_author (extractMetadata doc) = "Unknown Author").
Proof.
  split; [|split; [|split]].
  - intros H. unfold extractStoryContent.
    apply firstMatch_none in H. rewrite H. reflexivity.
  - intros (sel & Hin & Hsel). unfold extractStoryContent.
    destruct (firstMatch doc contentSelectors) as [contentDiv|] eqn:E.
    + exists contentDiv. split; reflexivity.
    + exfalso. apply Hsel. exact (proj1 (firstMatch_none _ _) E sel Hin).
  - intros H. unfold extractMetadata. cbn [meta_title].
    rewrite (firstText_none _ _ _ H). vm_compute. reflexivity.
  - intros H. unfold extractMetadata. cbn [meta_author].
    rewrite (firstText_none _ _ _ H). vm_compute. reflexivity.
Qed.

Lemma missing_content_fatal_missing_metadata_tolerated_witness :
  extractStoryContent unknownPage = Thrown (Error contentNotFoundMessage) /\
  extractStoryContent (samplePage "one" false)
    = Returned (mkStoryData "<p>one</p>") /\
  extractMetadata unknownPage = mkMetadata "Unknown Title" "Unknown Author".
Proof.
  pose proof (missing_content_fatal_missing_metadata_tolerated unknownPage)
    as (H1 & _ & H3 & H4).
  pose proof (missing_content_fatal_missing_metadata_tolerated (samplePage "one" false))
    as (_ & H2 & _).
  split; [|split].
  - apply H1. reflexivity.
  - destruct H2 as (contentDiv & Hf & Hx).
    + exists ".aa_ht". split; [simpl; tauto|discriminate].
    + rewrite Hx. simpl in Hf. injection Hf as <-. reflexivity.
  - specialize (H3 (fun _ _ => eq_refl)). specialize (H4 (fun _ _ => eq_refl)).
    destruct (extractMetadata unknownPage) as [t a]. simpl in H3, H4.
    subst. reflexivity.
Defined.

(* ================================================================= *)
(** ** The archive *)

Lemma zipHas_app (a b : JSZip) (n : string) :
  zipHas (a ++ b) n = zipHas a n || zipHas b n.
Proof. unfold zipHas. apply existsb_app. Qed.

Lemma zipSet_fresh (z : JSZip) (o : ZipObject) :
  zipHas z (name o) = false -> zipSet z o = (z ++ [o])%list.
Proof.
  induction z as [|e z IH]; simpl; intros H.
  - reflexivity.
  - apply orb_false_iff in H. destruct H as [H1 H2].
    rewrite H1. f_equal. auto.
Qed.

Lemma zipSet_names (z : JSZip) (o : ZipObject) (n : string) :
  In n (map name (zipSet z o)) <-> In n (map name z) \/ n = name o.
Proof.
  induction z as [|e z IH]; simpl.
  - intuition congruence.
  - destruct (name e =? name o) eqn:E; simpl.
    + apply String.eqb_eq in E. intuition congruence.
    + rewrite IH. tauto.
Qed.

(** The table is keyed by name: no operation creates a second entry of
    the same name. *)
Lemma zipSet_NoDup (z : JSZip) (o : ZipObject) :
  NoDup (map name z) -> NoDup (map name (zipSet z o)).
Proof.
  induction z as [|e z IH]; simpl; intros H.
  - constructor; [intros []|constructor].
  - inversion H as [|? ? Hn Hz]; subst.
    destruct (name e =? name o) eqn:E; simpl.
    + apply String.eqb_eq in E. constructor; [|exact Hz]. rewrite <- E. exact Hn.
    + constructor; [|auto].
      rewrite zipSet_names. intros [Hin|Heq]; [contradiction|].
      apply String.eqb_neq in E. congruence.
Qed.

Lemma chapterFileName_inj (i j : nat) :
  chapterFileName i = chapterFileName j -> i = j.
Proof.
  unfold chapterFileName, chapterId. rewrite !append_assoc. intros H.
  apply append_inv_head, append_inv_tail, showNat_inj in H. lia.
Qed.

Lemma chapterFileName_fixed (j : nat) :
  zipHas fixedEntries (chapterFileName j) = false.
Proof. reflexivity. Qed.

Lemma zipHas_chapterEntries (chapters : list Chapter) (i : nat) (n : string) :
  (forall j, i <= j -> n <> chapterFileName j) ->
  zipHas (chapterEntries chapters i) n = false.
Proof.
  revert i. induction chapters as [|c chapters IH]; intros i H.
  - reflexivity.
  - cbn [chapterEntries zipHas existsb chapterEntry name].
    apply orb_false_iff. split.
    + apply String.eqb_neq. intros E. apply (H i (le_n i)). symmetry. exact E.
    + apply IH. intros j Hj. apply H. lia.
Qed.

Lemma chapterFileName_starts (j : nat) : startsWith (chapterFileName j) "ch" = true.
Proof. reflexivity. Qed.

Lemma not_chapterFileName (n : string) (j : nat) :
  startsWith n "ch" = false -> n <> chapterFileName j.
Proof. intros H ->. rewrite chapterFileName_starts in H. discriminate. Qed.

Lemma addChapter_zip (acc : Assembly) (c : Chapter) (i : nat) :
  zipHas (zip acc) (chapterFileName i) = false ->
  zip (addChapter acc c i) = (zip acc ++ [chapterEntry i c])%list.
Proof.
  intros H. unfold addChapter, file. cbn [zip].
  apply (zipSet_fresh (zip acc) (chapterEntry i c)). exact H.
Qed.

(** The [forEach] appends one entry per chapter, in order. *)
Lemma forEachChapter_zip (chapters : list Chapter) :
  forall (i : nat) (acc : Assembly),
    (forall j, i <= j -> zipHas (zip acc) (chapterFileName j) = false) ->
    zip (forEachChapter chapters i acc) = (zip acc ++ chapterEntries chapters i)%list.
Proof.
  induction chapters as [|c chapters IH]; intros i acc H.
  - simpl. rewrite app_nil_r. reflexivity.
  - cbn [forEachChapter chapterEntries]. rewrite IH.
    + rewrite addChapter_zip by (apply H; lia).
      rewrite <- app_assoc. reflexivity.
    + intros j Hj. rewrite addChapter_zip by (apply H; lia).
      rewrite zipHas_app, H by lia. cbn [zipHas existsb orb].
      rewrite orb_false_r.
      apply String.eqb_neq. intros E. apply chapterFileName_inj in E. lia.
Qed.

(** The archive, entry by entry, in the order of writing. *)
Lemma buildEpub_entries (title author : string) (chapters : list Chapter) :
  exists opf ncx,
    buildEpub title author chapters =
    (fixedEntries ++ chapterEntries chapters 0
     ++ [ mkZipObject "content.opf" false opf None;
          mkZipObject "toc.ncx" false ncx None ])%list.
Proof.
  unfold buildEpub. eexists _, _.
  change (file "META-INF/" "container.xml" containerXml None
            (folder "META-INF"
               (file EmptyString "mimetype" "application/epub+zip" (Some STORE) [])))
    with fixedEntries.
  unfold file at 1 2. rewrite forEachChapter_zip; simpl zip.
  2:{ intros j _. apply chapterFileName_fixed. }
  assert (F : forall n, startsWith n "ch" = false ->
                zipHas fixedEntries n = false ->
                zipHas (fixedEntries ++ chapterEntries chapters 0)%list n = false).
  { intros n Hn Hf. rewrite zipHas_app, Hf. simpl.
    apply zipHas_chapterEntries. intros j _. apply not_chapterFileName. exact Hn. }
  rewrite (zipSet_fresh (fixedEntries ++ chapterEntries chapters 0)%list) by
    (apply F; reflexivity).
  rewrite zipSet_fresh.
  - rewrite <- !app_assoc. reflexivity.
  - rewrite zipHas_app, F by reflexivity. reflexivity.
Qed.

(* ================================================================= *)
(** ** The substitution of the non-breaking-space entity *)

Lemma replace_nbsp_here (rest : string) :
  replaceFrom nbsp " " 0 (nbsp ++ rest) = " " ++ replaceFrom nbsp " " 0 rest.
Proof. reflexivity. Qed.

(** The entity does not overlap itself: an occurrence that starts inside a
    text [q] followed by the entity lies within [q]. *)
Lemma nbsp_unbordered (q rest : string) :
  q <> EmptyString ->
  startsWith (q ++ nbsp ++ rest) nbsp = true -> startsWith q nbsp = true.
Proof.
  intros Hq H.
  destruct q as [|c1 q]; [contradiction|].
  cbn in H |- *. destruct (Ascii.eqb c1 "&"); [|discriminate].
  destruct q as [|c2 q]; [discriminate|].
  cbn in H |- *. destruct (Ascii.eqb c2 "n"); [|discriminate].
  destruct q as [|c3 q]; [discriminate|].
  cbn in H |- *. destruct (Ascii.eqb c3 "b"); [|discriminate].
  destruct q as [|c4 q]; [discriminate|].
  cbn in H |- *. destruct (Ascii.eqb c4 "s"); [|discriminate].
  destruct q as [|c5 q]; [discriminate|].
  cbn in H |- *. destruct (Ascii.eqb c5 "p"); [|discriminate].
  destruct q as [|c6 q]; [discriminate|].
  cbn in H |- *. destruct (Ascii.eqb c6 ";"); [|discriminate].
  reflexivity.
Qed.

Lemma replace_nbsp_piece (p rest : string) :
  includes p nbsp = false ->
  replaceFrom nbsp " " 0 (p ++ nbsp ++ rest)
    = p ++ " " ++ replaceFrom nbsp " " 0 rest.
Proof.
  induction p as [|c p IH]; intros H.
  - apply replace_nbsp_here.
  - cbn [includes] in H. apply orb_false_iff in H. destruct H as [H1 H2].
    change (String c p ++ nbsp ++ rest) with (String c (p ++ nbsp ++ rest)).
    cbn [replaceFrom].
    destruct (startsWith (String c (p ++ nbsp ++ rest)) nbsp) eqn:E.
    + apply (nbsp_unbordered (String c p) rest) in E; [congruence|discriminate].
    + rewrite IH by exact H2. reflexivity.
Qed.

Lemma replace_nbsp_none (p : string) :
  includes p nbsp = false -> replaceFrom nbsp " " 0 p = p.
Proof.
  induction p as [|c p IH]; intros H.
  - reflexivity.
  - cbn [includes] in H. apply orb_false_iff in H. destruct H as [H1 H2].
    cbn [replaceFrom]. rewrite H1, IH by exact H2. reflexivity.
Qed.

(** Global replacement turns a text cut at the occurrences of the entity
    into the same pieces joined by spaces. *)
Lemma replaceAll_nbsp_join (pieces : list string) :
  (forall p, In p pieces -> includes p nbsp = false) ->
  replaceAll (join nbsp pieces) nbsp " " = join " " pieces.
Proof.
  unfold replaceAll. induction pieces as [|p pieces IH]; intros H.
  - reflexivity.
  - destruct pieces as [|p2 pieces].
    + apply replace_nbsp_none. apply H. left. reflexivity.
    + cbn [join]. cbn [join] in IH.
      rewrite replace_nbsp_piece by (apply H; left; reflexivity).
      rewrite IH; [reflexivity|].
      intros q Hq. apply H. right. exact Hq.
Qed.

(** Every text is cut by the occurrences of the entity into pieces that
    contain none. *)
Lemma nbsp_pieces (s : string) :
  exists p ps,
    s = join nbsp (p :: ps) /\
    forall q, In q (p :: ps) -> includes q nbsp = false.
Proof.
  induction s as [|c s IH].
  - exists EmptyString, []. split; [reflexivity|].
    intros q [<-|[]]. reflexivity.
  - destruct IH as (p & ps & E & H).
    assert (Hp : includes p nbsp = false) by (apply H; left; reflexivity).
    assert (S : String c s = join nbsp (String c p :: ps)).
    { rewrite E. destruct ps; reflexivity. }
    destruct (startsWith (String c p) nbsp) eqn:W.
    + apply startsWith_inv in W. destruct W as [r W].
      exists EmptyString, (r :: ps). split.
      * rewrite S, W. destruct ps; cbn [join]; [reflexivity|].
        rewrite append_assoc. reflexivity.
      * intros q [<-|[<-|Hq]].
        -- reflexivity.
        -- destruct (includes r nbsp) eqn:I; [|reflexivity].
           apply includes_iff in I. destruct I as (a & b & ->).
           cbn in W. injection W as _ W.
           assert (I : includes p nbsp = true).
           { apply includes_iff. exists ("nbsp;" ++ a), b. rewrite W.
             rewrite !append_assoc. reflexivity. }
           congruence.
        -- apply H. right. exact Hq.
    + exists (String c p), ps. split; [exact S|].
      intros q [<-|Hq].
      * cbn [includes]. rewrite W, Hp. reflexivity.
      * apply H. right. exact Hq.
Qed.

(* ================================================================= *)
(** ** The entries of the archive *)

Lemma length_chapterEntries (chapters : list Chapter) (i : nat) :
  List.length (chapterEntries chapters i) = List.length chapters.
Proof.
  revert i. induction chapters as [|c chapters IH]; intros i; simpl; auto.
Qed.

Lemma zipFiles_chapterEntries (chapters : list Chapter) (i : nat) :
  zipFiles (chapterEntries chapters i) = chapterEntries chapters i.
Proof.
  revert i. induction chapters as [|c chapters IH]; intros i.
  - reflexivity.
  - cbn [chapterEntries zipFiles filter chapterEntry dir negb].
    f_equal. apply IH.
Qed.

Lemma zipFind_app (a b : JSZip) (n : string) :
  zipFind (a ++ b) n =
  match zipFind a n with
  | Some e => Some e
  | None => zipFind b n
  end.
Proof.
  unfold zipFind. induction a as [|e a IH]; simpl.
  - reflexivity.
  - destruct (name e =? n); [reflexivity|exact IH].
Qed.

Lemma zipFind_chapterEntries (chapters : list Chapter) :
  forall (i k : nat) (chapter : Chapter),
    nth_error chapters k = Some chapter ->
    zipFind (chapterEntries chapters i) (chapterFileName (i + k))
      = Some (chapterEntry (i + k) chapter).
Proof.
  induction chapters as [|c chapters IH]; intros i k chapter H.
  - destruct k; discriminate.
  - unfold zipFind. cbn [chapterEntries find chapterEntry name].
    destruct k as [|k].
    + injection H as <-. rewrite Nat.add_0_r, String.eqb_refl. reflexivity.
    + simpl in H.
      destruct (chapterFileName i =? chapterFileName (i + S k)) eqn:E.
      * apply String.eqb_eq, chapterFileName_inj in E. lia.
      * rewrite Nat.add_succ_r. apply (IH (S i) k chapter H).
Qed.

Lemma folder_NoDup (n : string) (z : JSZip) :
  NoDup (map name z) -> NoDup (map name (folder n z)).
Proof.
  intros H. unfold folder. destruct (zipHas z (n ++ "/")); [exact H|].
  apply zipSet_NoDup. exact H.
Qed.

Lemma forEachChapter_NoDup (chapters : list Chapter) :
  forall (i : nat) (acc : Assembly),
    NoDup (map name (zip acc)) ->
    NoDup (map name (zip (forEachChapter chapters i acc))).
Proof.
  induction chapters as [|c chapters IH]; intros i acc H.
  - exact H.
  - cbn [forEachChapter]. apply IH. unfold addChapter, file. cbn [zip].
    apply zipSet_NoDup. exact H.
Qed.

Lemma buildEpub_NoDup (title author : string) (chapters : list Chapter) :
  NoDup (map name (buildEpub title author chapters)).
Proof.
  unfold buildEpub, file.
  apply zipSet_NoDup, zipSet_NoDup, forEachChapter_NoDup. cbn [zip].
  apply zipSet_NoDup, folder_NoDup, zipSet_NoDup. constructor.
Qed.

(** What [generateEpub] does: nothing is saved before its [await]; the
    rest saves the archive under [title.epub]. *)
Lemma generateEpub_run (title author : string) (chapters : list Chapter) (s : State) :
  exists rest s1,
    generateEpub title author chapters s = (Returned rest, s1) /\
    advanced s s1 [] /\
    clockReads (snd (rest s1)) = clockReads s /\
    fetches (snd (rest s1)) = fetches s /\
    requests (trace (snd (rest s1))) = requests (trace s) /\
    saved (trace (snd (rest s1)))
      = (saved (trace s) ++ [(buildEpub title author chapters, (title ++ ".epub")%string)])%list.
Proof.
  unfold generateEpub. eexists _, _. split; [reflexivity|].
  unfold bind, emit, ret. simpl.
  rewrite !requests_app, !saved_app. simpl. rewrite !app_nil_r.
  split; [|auto]. unfold advanced. simpl.
  rewrite !requests_app, !saved_app. simpl. rewrite !app_nil_r.
  repeat split; lia.
Qed.

(** C3, as the program has it.  For a non-empty list of N chapters the
    archive holds N+4 files (the mimetype, the container descriptor, the
    package document, the navigation document and one document per
    chapter) under pairwise distinct names, and the folder entry
    [META-INF/] besides; its first entry is the mimetype, stored with the
    STORE option and the exact content [application/epub+zip]; this is the
    archive that [generateEpub] saves. *)
Theorem epub_entries (title author : string) (chapters : list Chapter) :
  chapters <> [] ->
  List.length (zipFiles (buildEpub title author chapters)) = List.length chapters + 4 /\
  List.length (buildEpub title author chapters) = List.length chapters + 5 /\
  NoDup (map name (buildEpub title author chapters)) /\
  hd_error (buildEpub title author chapters)
    = Some (mkZipObject "mimetype" false "application/epub+zip" (Some STORE)) /\
  zipFind (buildEpub title author chapters) "mimetype"
    = Some (mkZipObject "mimetype" false "application/epub+zip" (Some STORE)) /\
  forall s, exists rest s1,
    generateEpub title author chapters s = (Returned rest, s1) /\
    saved (trace s1) = saved (trace s) /\
    saved (trace (snd (rest s1)))
      = (saved (trace s) ++ [(buildEpub title author chapters, (title ++ ".epub")%string)])%list.
Proof.
  intros _.
  destruct (buildEpub_entries title author chapters) as (opf & ncx & E).
  split; [|split; [|split; [|split; [|split]]]].
  - rewrite E. unfold zipFiles. rewrite !filter_app.
    fold (zipFiles (chapterEntries chapters 0)).
    rewrite zipFiles_chapterEntries, !length_app, length_chapterEntries.
    simpl. lia.
  - rewrite E, !length_app, length_chapterEntries. simpl. lia.
  - apply buildEpub_NoDup.
  - rewrite E. reflexivity.
  - rewrite E. reflexivity.
  - intros s.
    destruct (generateEpub_run title author chapters s)
      as (rest & s1 & R & A & _ & _ & _ & S1).
    exists rest, s1. split; [exact R|]. split; [apply A|exact S1].
Qed.

Lemma epub_entries_witness :
  List.length (zipFiles (buildEpub "T" "A" sampleBook)) = 5 /\
  List.length (buildEpub "T" "A" sampleBook) = 6 /\
  zipFind (buildEpub "T" "A" sampleBook) "mimetype"
    = Some (mkZipObject "mimetype" false "application/epub+zip" (Some STORE)).
Proof.
  assert (H : sampleBook <> []) by discriminate.
  destruct (epub_entries "T" "A" sampleBook H) as (H1 & H2 & _ & _ & H5 & _).
  split; [exact H1|]. split; [exact H2|exact H5].
Defined.

(** C3 as stated fails: a one-chapter book has five files, six entries
    with the folder, not 1+3. *)
Lemma epub_entries_counterexample :
  List.length (zipFiles (buildEpub "T" "A" sampleBook)) = 5 /\
  List.length (buildEpub "T" "A" sampleBook) = 6 /\
  ~ (forall title author chapters,
       chapters <> [] ->
       List.length (zipFiles (buildEpub title author chapters))
         = List.length chapters + 3) /\
  ~ (forall title author chapters,
       chapters <> [] ->
       List.length (buildEpub title author chapters) = List.length chapters + 3).
Proof.
  split; [reflexivity|]. split; [reflexivity|]. split.
  - intros H. specialize (H "T" "A" sampleBook). discriminate H. discriminate.
  - intros H. specialize (H "T" "A" sampleBook). discriminate H. discriminate.
Qed.

(* ================================================================= *)
(** ** Chapter documents *)

(** C9.  The document written for a chapter is found under
    [chapter<index+1>.html]; after its prologue it has the heading with the
    chapter title, a rule, and the chapter content in which the entity
    [&nbsp;] has been replaced by a space wherever it occurs and nothing
    else has changed: cut at the occurrences of the entity, the content and
    its image have the same pieces, joined by the entity in the one and by
    a space in the other. *)
Theorem chapter_document (title author : string) (chapters : list Chapter)
    (index : nat) (chapter : Chapter) :
  nth_error chapters index = Some chapter ->
  zipFind (buildEpub title author chapters) (chapterFileName index)
    = Some (mkZipObject (chapterFileName index) false
              (xhtmlContent (chapter_title chapter) (cleanContent chapter)) None) /\
  chapterFileName index = "chapter" ++ showNat (index + 1) ++ ".html" /\
  xhtmlContent (chapter_title chapter) (cleanContent chapter)
    = xhtmlPrologue (chapter_title chapter)
      ++ "<h2>" ++ chapter_title chapter ++ "</h2>
                <hr/>
                "
      ++ cleanContent chapter ++ "
            </body>
            </html>" /\
  (exists p ps,
     chapter_content chapter = join nbsp (p :: ps) /\
     (forall q, In q (p :: ps) -> includes q nbsp = false) /\
     cleanContent chapter = join " " (p :: ps)) /\
  (forall pieces,
     (forall q, In q pieces -> includes q nbsp = false) ->
     chapter_content chapter = join nbsp pieces ->
     cleanContent chapter = join " " pieces) /\
  (includes (chapter_content chapter) nbsp = false ->
   cleanContent chapter = chapter_content chapter).
Proof.
  intros H.
  assert (J : forall pieces,
             (forall q, In q pieces -> includes q nbsp = false) ->
             chapter_content chapter = join nbsp pieces ->
             cleanContent chapter = join " " pieces).
  { intros pieces Hp E. unfold cleanContent. rewrite E.
    apply replaceAll_nbsp_join. exact Hp. }
  split; [|split; [|split; [|split; [|split]]]].
  - destruct (buildEpub_entries title author chapters) as (opf & ncx & E).
    rewrite E, zipFind_app.
    change (zipFind fixedEntries (chapterFileName index)) with (@None ZipObject).
    rewrite zipFind_app.
    pose proof (zipFind_chapterEntries chapters 0 index chapter H) as F.
    simpl Nat.add in F. rewrite F. reflexivity.
  - reflexivity.
  - unfold xhtmlContent, xhtmlPrologue. rewrite !append_assoc. reflexivity.
  - destruct (nbsp_pieces (chapter_content chapter)) as (p & ps & E & Hp).
    exists p, ps. split; [exact E|]. split; [exact Hp|]. apply J; assumption.
  - exact J.
  - intros N. apply (J [chapter_content chapter]); [|reflexivity].
    intros q [<-|[]]. exact N.
Qed.

Lemma chapter_document_witness :
  zipFind (buildEpub "T" "A" sampleBook) "chapter1.html"
    = Some (mkZipObject "chapter1.html" false
              (xhtmlPrologue "C1" ++ "<h2>C1</h2>
                <hr/>
                <p>x</p>
            </body>
            </html>") None) /\
  cleanContent (mkChapter "C1" "a&nbsp;b&nbsp;&nbsp;c") = "a b  c".
Proof.
  split.
  - exact (proj1 (chapter_document "T" "A" sampleBook 0 (mkChapter "C1" "<p>x</p>")
                    eq_refl)).
  - destruct (chapter_document "T" "A" [mkChapter "C1" "a&nbsp;b&nbsp;&nbsp;c"] 0
                (mkChapter "C1" "a&nbsp;b&nbsp;&nbsp;c") eq_refl)
      as (_ & _ & _ & _ & J & _).
    apply (J ["a"; "b"; EmptyString; "c"]); [|reflexivity].
    intros q [<-|[<-|[<-|[<-|[]]]]]; reflexivity.
Defined.

(* ================================================================= *)
(** ** Runs *)

Lemma bind_emit {B} (e : Event) (k : unit -> M B) (s : State) :
  bind (emit e) k s = k tt (snd (emit e s)).
Proof. reflexivity. Qed.

Lemma bind_lift_returned {A B} (a : A) (k : A -> M B) (s : State) :
  bind (lift (Returned a)) k s = k a s.
Proof. reflexivity. Qed.



(** The series loop: chapters are appended in the order of the links, one
    per link, each under the trimmed text of its link. *)
Lemma seriesLoop_spec (w : World) (total : nat) (links : list Element) :
  forall (i : nat) (chapters : list Chapter) (s : State),
  exists urls o s',
    seriesLoop w total i links chapters s = (o, s') /\
    advanced s s' urls /\
    match o with
    | Returned result =>
        allWell w (fetches s) urls /\
        seriesRequests w (clockReads s) links urls /\
        exists added,
          result = (chapters ++ added)%list /\
          map chapter_title added = map chapterTitleOf links
    | Thrown e => seriesFailure e /\ allWell w (fetches s) (removelast urls)
    | OutOfGas => False
    end.
Proof.
  induction links as [|link links IH]; intros i chapters s.
  - exists [], (Returned chapters), s.
    split; [reflexivity|]. split; [apply advanced_refl|].
    split; [apply allWell_nil|]. split; [constructor|].
    exists []. rewrite app_nil_r. split; reflexivity.
  - cbn [seriesLoop]. unfold chapterUrlOf.
    destruct (href link) as [h|] eqn:Hh.
    2:{ eexists [], (Thrown _), s.
        split; [reflexivity|]. split; [apply advanced_refl|].
        split; [|apply allWell_nil].
        right. eexists. reflexivity. }
    rewrite bind_lift_returned, bind_emit.
    set (s1 := snd (emit _ s)).
    assert (A1 : advanced s s1 []) by (apply emit_advanced; exact I).
    destruct (fetchAllPagesOfStory_spec w (ensureAbsolute h) true
                ("(Ch " ++ showNat (i + 1) ++ ")") s1)
      as (n & o & s2 & E & A2 & Hn & P).
    change (clockReads s1) with (clockReads s) in A2, P.
    change (fetches s1) with (fetches s) in P.
    destruct o as [html|e|]; [| |contradiction].
    + rewrite (bind_returned _ _ _ _ _ E), bind_emit.
      set (s3 := snd (emit (Delay 500) s2)).
      assert (A3 : advanced s2 s3 []) by (apply emit_advanced; exact I).
      destruct (IH (S i) (chapters ++ [mkChapter (chapterTitleOf link) html])%list s3)
        as (urls & o & s' & E' & A' & P').
      pose proof (advanced_trans _ _ _ _ _ A1 A2) as A12. simpl in A12.
      pose proof (advanced_trans _ _ _ _ _ A12 A3) as A13. rewrite app_nil_r in A13.
      pose proof A13 as (C3 & F3 & _ & _). rewrite length_pageUrls in C3, F3.
      eexists _, o, s'. split; [exact E'|].
      split; [exact (advanced_trans _ _ _ _ _ A13 A')|].
      destruct o as [result|e|]; [| |exact P'].
      2:{ split; [apply P'|].
          apply stopped_app; [exact P|].
          rewrite length_pageUrls, <- F3. apply P'. }
      destruct P' as (W' & R' & added & -> & T').
      split; [|split].
      * apply allWell_app; [exact P|].
        rewrite length_pageUrls, <- F3. exact W'.
      * econstructor; [exact Hh|exact Hn|]. rewrite <- C3. exact R'.
      * exists (mkChapter (chapterTitleOf link) html :: added).
        rewrite <- app_assoc. split; [reflexivity|].
        simpl. rewrite T'. reflexivity.
    + rewrite (bind_thrown _ _ _ _ _ E).
      eexists _, (Thrown e), s2. split; [reflexivity|].
      split; [exact (advanced_trans _ _ _ _ _ A1 A2)|].
      split; [left; apply P|apply P].
Qed.

Lemma generateEpub_rest (title author : string) (chapters : list Chapter) (s : State) :
  exists s',
    generateEpub title author chapters s
      = (Returned (saveRest (buildEpub title author chapters) (title ++ ".epub")), s') /\
    advanced s s' [].
Proof.
  unfold generateEpub, saveRest, bind, emit, ret. simpl.
  eexists. split; [reflexivity|]. summary.
Qed.

(** A series run: the series page is requested first; without chapter
    links the run ends in the no-chapters error, otherwise the loop runs
    over the links and the book is assembled from its chapters. *)
Lemma processSeries_spec (w : World) (url : string) (s : State) :
  exists urls o s',
    processSeries w url s = (o, s') /\
    advanced s s' (targetUrl url (now w (clockReads s)) :: urls) /\
    match o with
    | Returned rest =>
        allWell w (fetches s) (targetUrl url (now w (clockReads s)) :: urls) /\
        exists doc chapters,
          received (respond w (fetches s) (targetUrl url (now w (clockReads s))))
            = Returned doc /\
          chapterLinksOf doc <> [] /\
          seriesRequests w (S (clockReads s)) (chapterLinksOf doc) urls /\
          map chapter_title chapters = map chapterTitleOf (chapterLinksOf doc) /\
          rest = saveRest
                   (buildEpub (trimmedTextOr doc "h1.headline" "Unknown Series")
                      (trimmedTextOr doc ".y_eU" "Unknown Author") chapters)
                   (trimmedTextOr doc "h1.headline" "Unknown Series" ++ ".epub")
    | Thrown e =>
        allWell w (fetches s)
          (removelast (targetUrl url (now w (clockReads s)) :: urls)) /\
        match received (respond w (fetches s) (targetUrl url (now w (clockReads s)))) with
        | Returned doc =>
            (chapterLinksOf doc = [] /\ e = Error noChaptersMessage) \/
            (chapterLinksOf doc <> [] /\ seriesFailure e)
        | Thrown e' => e = e'
        | OutOfGas => False
        end
    | OutOfGas => False
    end.
Proof.
  unfold processSeries. rewrite bind_emit.
  set (s1 := snd (emit _ s)).
  assert (A1 : advanced s s1 []) by (apply emit_advanced; exact I).
  unfold bind at 1. rewrite fetchPage_run.
  change (clockReads s1) with (clockReads s).
  change (fetches s1) with (fetches s).
  set (u0 := targetUrl url (now w (clockReads s))).
  assert (A2 : advanced s (afterFetch s1 u0) [u0]).
  { exact (advanced_trans _ _ _ _ _ A1 (afterFetch_advanced s1 u0)). }
  destruct (received (respond w (fetches s) u0)) as [doc|e|] eqn:R.
  - destruct (chapterLinksOf doc) as [|link links] eqn:L.
    + exists [], (Thrown (Error noChaptersMessage)), (afterFetch s1 u0).
      split; [reflexivity|]. split; [exact A2|].
      split; [apply allWell_nil|]. left. split; reflexivity.
    + cbn [List.length Nat.eqb]. rewrite bind_emit.
      set (s3 := snd (emit _ (afterFetch s1 u0))).
      assert (A3 : advanced s s3 [u0]).
      { pose proof (advanced_trans _ _ _ _ _ A2
                      (emit_advanced (StatusText ("Found "
                         ++ showNat (S (List.length links)) ++ " chapters. Starting..."))
                         (afterFetch s1 u0) I)) as H.
        exact H. }
      destruct (seriesLoop_spec w (S (List.length links)) (link :: links) 0 [] s3)
        as (urls & o & s4 & E & A4 & P).
      change (clockReads s3) with (S (clockReads s)) in P.
      change (fetches s3) with (S (fetches s)) in P.
      pose proof (advanced_trans _ _ _ _ _ A3 A4) as A34. simpl in A34.
      destruct o as [chapters|e|]; [| |contradiction].
      * rewrite (bind_returned _ _ _ _ _ E).
        destruct (generateEpub_rest (trimmedTextOr doc "h1.headline" "Unknown Series")
                    (trimmedTextOr doc ".y_eU" "Unknown Author") chapters s4)
          as (s5 & G & A5).
        exists urls, (Returned (saveRest
                        (buildEpub (trimmedTextOr doc "h1.headline" "Unknown Series")
                           (trimmedTextOr doc ".y_eU" "Unknown Author") chapters)
                        (trimmedTextOr doc "h1.headline" "Unknown Series" ++ ".epub"))), s5.
        split; [exact G|].
        split.
        { pose proof (advanced_trans _ _ _ _ _ A34 A5) as H.
          rewrite app_nil_r in H. exact H. }
        destruct P as (W & Q & added & -> & T).
        split.
        { change (u0 :: urls) with ([u0] ++ urls)%list.
          apply allWell_app.
          - apply allWell_one. exists doc. exact R.
          - simpl. rewrite Nat.add_1_r. exact W. }
        exists doc, added. rewrite L.
        split; [reflexivity|]. split; [discriminate|].
        split; [exact Q|]. split; [exact T|reflexivity].
      * rewrite (bind_thrown _ _ _ _ _ E).
        exists urls, (Thrown e), s4.
        split; [reflexivity|]. split; [exact A34|].
        split.
        { change (u0 :: urls) with ([u0] ++ urls)%list.
          apply stopped_app.
          - apply allWell_one. exists doc. exact R.
          - simpl. rewrite Nat.add_1_r. apply P. }
        right. split; [discriminate|apply P].
  - exists [], (Thrown e), (afterFetch s1 u0).
    split; [reflexivity|]. split; [exact A2|].
    split; [apply allWell_nil|reflexivity].
  - exfalso. eapply received_gas. exact R.
Qed.

(** A single-story run: the story page is requested for the metadata,
    then the loop requests it again and goes on from there. *)
Lemma processSingleStory_spec (w : World) (url : string) (s : State) :
  exists urls o s',
    processSingleStory w url s = (o, s') /\
    advanced s s' urls /\
    match o with
    | Returned rest =>
        allWell w (fetches s) urls /\ exists archive f, rest = saveRest archive f
    | Thrown e => allWell w (fetches s) (removelast urls)
    | OutOfGas => False
    end.
Proof.
  unfold processSingleStory. rewrite bind_emit.
  set (s1 := snd (emit _ s)).
  assert (A1 : advanced s s1 []) by (apply emit_advanced; exact I).
  unfold bind at 1. rewrite fetchPage_run.
  change (clockReads s1) with (clockReads s).
  change (fetches s1) with (fetches s).
  set (u0 := targetUrl url (now w (clockReads s))).
  assert (A2 : advanced s (afterFetch s1 u0) [u0]).
  { exact (advanced_trans _ _ _ _ _ A1 (afterFetch_advanced s1 u0)). }
  destruct (received (respond w (fetches s) u0)) as [doc|e|] eqn:R.
  - destruct (fetchAllPagesOfStory_spec w url true EmptyString (afterFetch s1 u0))
      as (n & o & s3 & E & A3 & _ & P).
    change (fetches (afterFetch s1 u0)) with (S (fetches s)) in P.
    pose proof (advanced_trans _ _ _ _ _ A2 A3) as A23.
    destruct o as [html|e|]; [| |contradiction].
    + rewrite (bind_returned _ _ _ _ _ E).
      destruct (generateEpub_rest (meta_title (extractMetadata doc))
                  (meta_author (extractMetadata doc))
                  [mkChapter (meta_title (extractMetadata doc)) html] s3)
        as (s4 & G & A4).
      eexists _, (Returned _), s4. split; [exact G|].
      split.
      { pose proof (advanced_trans _ _ _ _ _ A23 A4) as H.
        rewrite app_nil_r in H. exact H. }
      split; [|eexists _, _; reflexivity].
      apply allWell_app.
      * apply allWell_one. exists doc. exact R.
      * simpl. rewrite Nat.add_1_r. exact P.
    + rewrite (bind_thrown _ _ _ _ _ E).
      eexists _, (Thrown e), s3. split; [reflexivity|].
      split; [exact A23|].
      apply stopped_app.
      * apply allWell_one. exists doc. exact R.
      * simpl. rewrite Nat.add_1_r. apply P.
  - exists [u0], (Thrown e), (afterFetch s1 u0).
    split; [reflexivity|]. split; [exact A2|apply allWell_nil].
  - exfalso. eapply received_gas. exact R.
Qed.

Lemma process_spec (w : World) (url : string) (s : State) :
  exists urls o s',
    (if includes url "/series/se/" then processSeries w url
     else processSingleStory w url) s = (o, s') /\
    advanced s s' urls /\
    match o with
    | Returned rest =>
        allWell w (fetches s) urls /\ exists archive f, rest = saveRest archive f
    | Thrown e => allWell w (fetches s) (removelast urls)
    | OutOfGas => False
    end.
Proof.
  destruct (includes url "/series/se/").
  - destruct (processSeries_spec w url s) as (urls & o & s' & E & A & P).
    eexists _, o, s'. split; [exact E|]. split; [exact A|].
    destruct o as [rest|e|]; [|apply P|exact P].
    destruct P as (W & doc & chapters & _ & _ & _ & _ & ->).
    split; [exact W|]. eexists _, _. reflexivity.
  - apply processSingleStory_spec.
Qed.

(** A click: the handler always returns.  Either it saves nothing, and
    then every request but the last was well answered, or it saves one
    archive, and then every request was. *)
Lemma onConvertClick_spec (w : World) (input : string) (s : State) :
  exists urls s',
    onConvertClick w input s = (Returned tt, s') /\
    requests (trace s') = (requests (trace s) ++ urls)%list /\
    ((saved (trace s') = saved (trace s) /\
      allWell w (fetches s) (removelast urls)) \/
     (allWell w (fetches s) urls /\
      exists archive f, saved (trace s') = (saved (trace s) ++ [(archive, f)])%list)).
Proof.
  unfold onConvertClick.
  destruct (trim input =? EmptyString).
  - exists []. eexists. split; [reflexivity|].
    destruct (emit_advanced (StatusText "Please enter a URL") s I) as (_ & _ & R & S0).
    split; [exact R|left; split; [exact S0|apply allWell_nil]].
  - set (url := if negb (hasHttpScheme (trim input))
                then "https://" ++ trim input else trim input).
    rewrite !bind_emit.
    set (s0 := snd (emit (StatusHtml "Initializing...") (snd (emit (ButtonDisabled true) s)))).
    assert (A0 : advanced s s0 []).
    { exact (advanced_trans _ _ _ _ _
               (emit_advanced (ButtonDisabled true) s I)
               (emit_advanced (StatusHtml "Initializing...") _ I)). }
    destruct (process_spec w url s0) as (urls & o & s1 & E & A1 & P).
    change (fetches s0) with (fetches s) in P.
    pose proof (advanced_trans _ _ _ _ _ A0 A1) as A01. simpl in A01.
    destruct A01 as (_ & _ & R1 & S1).
    exists urls.
    unfold bind at 1. unfold tryCatch. unfold bind at 1. rewrite E.
    destruct o as [rest|e|]; [| |contradiction].
    + destruct P as (W & archive & f & ->).
      unfold ret at 1. rewrite bind_emit. unfold saveRest. rewrite !bind_emit.
      eexists. split; [reflexivity|].
      unfold emit. simpl. rewrite !requests_app, !saved_app. simpl.
      rewrite !app_nil_r. split; [exact R1|].
      right. split; [exact W|]. exists archive, f. rewrite S1. reflexivity.
    + rewrite !bind_emit. unfold ret at 1. rewrite bind_emit.
      eexists. split; [reflexivity|].
      unfold emit. simpl. rewrite !requests_app, !saved_app. simpl.
      rewrite !app_nil_r. split; [exact R1|left; split; [exact S1|exact P]].
Qed.

(* ================================================================= *)
(** ** The challenge page *)

Lemma blocked_not_well (w : World) (k : nat) (u : string) (status : nat) (doc : Document) :
  respond w k u = Responded status doc ->
  ok status = true ->
  includes (doc_title doc) "Just a moment" = true ->
  ~ wellAnswered w k u.
Proof.
  intros R Hok Hb [doc' H]. unfold received in H.
  rewrite R, Hok in H. unfold blocked in H. rewrite Hb in H. discriminate.
Qed.

(** C5, as the program has it.  A 2xx answer whose document title contains
    [Just a moment] makes [fetchPage] throw an [Error] whose message is the
    blocked-by-Cloudflare text under the same [Network error: ] prefix that
    a transport failure and a non-2xx status get; the handler catches it
    and the run ends there: the request that met the challenge page is the
    last one of the run and no archive is saved. *)
Theorem blocked_page_aborts :
  (forall (w : World) (url : string) (s : State) (status : nat) (doc : Document),
      respond w (fetches s) (targetUrl url (now w (clockReads s))) = Responded status doc ->
      ok status = true ->
      includes (doc_title doc) "Just a moment" = true ->
      fetchPage w url s
        = (Thrown (Error ("Network error: " ++ blockedMessage)),
           afterFetch s (targetUrl url (now w (clockReads s))))) /\
  (forall (w : World) (url : string) (s : State),
      (forall e,
          respond w (fetches s) (targetUrl url (now w (clockReads s))) = Rejected e ->
          fst (fetchPage w url s) = Thrown (Error ("Network error: " ++ message e))) /\
      (forall status doc,
          respond w (fetches s) (targetUrl url (now w (clockReads s)))
            = Responded status doc ->
          ok status = false ->
          fst (fetchPage w url s)
            = Thrown (Error ("Network error: " ++ "HTTP Error: " ++ showNat status)))) /\
  (forall (w : World) (input : string) (s : State),
      exists urls s',
        onConvertClick w input s = (Returned tt, s') /\
        requests (trace s') = (requests (trace s) ++ urls)%list /\
        forall i u status doc,
          nth_error urls i = Some u ->
          respond w (fetches s + i) u = Responded status doc ->
          ok status = true ->
          includes (doc_title doc) "Just a moment" = true ->
          saved (trace s') = saved (trace s) /\ S i = List.length urls).
Proof.
  split; [|split].
  - intros w url s status doc R Hok Hb. rewrite fetchPage_run.
    unfold received, blocked. rewrite R, Hok, Hb. reflexivity.
  - intros w url s. split.
    + intros e R. rewrite fetchPage_run. simpl. rewrite R. reflexivity.
    + intros status doc R Hok. rewrite fetchPage_run. simpl. rewrite R.
      simpl. rewrite Hok. reflexivity.
  - intros w input s.
    destruct (onConvertClick_spec w input s) as (urls & s' & E & R & S0).
    exists urls, s'. split; [exact E|]. split; [exact R|].
    intros i u status doc Hi Hr Hok Hb.
    pose proof (blocked_not_well w (fetches s + i) u status doc Hr Hok Hb) as N.
    destruct S0 as [[S0 W]|[W _]].
    + split; [exact S0|].
      assert (L : i < List.length urls) by (apply nth_error_Some; congruence).
      destruct (Nat.eq_dec (S i) (List.length urls)) as [D|D]; [exact D|].
      exfalso. apply N, W. rewrite nth_error_removelast by lia. exact Hi.
    + exfalso. apply N, W. exact Hi.
Qed.

Lemma blocked_page_aborts_witness :
  fst (fetchPage (sampleWorld [challengePage]) sampleUrl initialState)
    = Thrown (Error "Network error: Blocked by Cloudflare protection. Try a different network.") /\
  saved (trace (snd (onConvertClick (sampleWorld [challengePage]) sampleUrl initialState)))
    = [].
Proof.
  destruct blocked_page_aborts as (A & _ & B).
  split.
  - rewrite (A (sampleWorld [challengePage]) sampleUrl initialState 200 challengePage);
      reflexivity.
  - destruct (B (sampleWorld [challengePage]) sampleUrl initialState)
      as (urls & s' & E & R & H).
    rewrite E. simpl.
    assert (U : nth_error urls 0
                = Some (targetUrl sampleUrl (now (sampleWorld [challengePage]) 0))).
    { assert (T : requests (trace s')
                  = requests (trace (snd (onConvertClick (sampleWorld [challengePage])
                                            sampleUrl initialState))))
        by (rewrite E; reflexivity).
      rewrite R in T. vm_compute in T. subst urls. reflexivity. }
    apply (H 0 _ 200 challengePage U); reflexivity.
Defined.

(** C5 as stated fails: the error a challenge page produces carries the
    network-error mark, and is the very error a transport failure with the
    same text produces. *)
Lemma blocked_error_counterexample :
  fst (fetchPage (sampleWorld [challengePage]) sampleUrl initialState)
    = Thrown (Error "Network error: Blocked by Cloudflare protection. Try a different network.") /\
  fst (fetchPage (failingWorld blockedMessage) sampleUrl initialState)
    = fst (fetchPage (sampleWorld [challengePage]) sampleUrl initialState) /\
  ~ (forall (w : World) (url : string) (s : State) (status : nat) (doc : Document),
        respond w (fetches s) (targetUrl url (now w (clockReads s)))
          = Responded status doc ->
        ok status = true ->
        includes (doc_title doc) "Just a moment" = true ->
        exists e, fst (fetchPage w url s) = Thrown e /\ isNetworkError e = false).
Proof.
  split; [reflexivity|]. split; [reflexivity|].
  intros H.
  destruct (H (sampleWorld [challengePage]) sampleUrl initialState 200 challengePage
              eq_refl eq_refl eq_refl) as (e & E & N).
  vm_compute in E. injection E as <-. discriminate N.
Qed.

(* ================================================================= *)
(** ** Series enumeration *)











(* ================================================================= *)
(** * Further properties *)

(** ** The trace of the pagination loop *)

Lemma pauses_app (ms : nat) (a b : list Event) :
  pauses ms (a ++ b) = pauses ms a + pauses ms b.
Proof.
  induction a as [|e a IH]; simpl.
  - reflexivity.
  - destruct e; simpl; rewrite IH; lia.
Qed.

Lemma bind_ret {A B} (a : A) (k : A -> M B) (s : State) : bind (ret a) k s = k a s.
Proof. reflexivity. Qed.

Lemma bind_fetchPage {B} (w : World) (url : string) (k : Document -> M B) (s : State) :
  bind (fetchPage w url) k s =
  match received (respond w (fetches s) (targetUrl url (now w (clockReads s)))) with
  | Returned doc => k doc (afterFetch s (targetUrl url (now w (clockReads s))))
  | Thrown e => (Thrown e, afterFetch s (targetUrl url (now w (clockReads s))))
  | OutOfGas => (OutOfGas, afterFetch s (targetUrl url (now w (clockReads s))))
  end.
Proof. unfold bind. rewrite fetchPage_run. reflexivity. Qed.

(** One iteration on a page that arrives and can be read: the state it
    leaves, event by event. *)
Lemma loopBody_served (w : World) (status : bool) (prefixLog baseUrl : string)
    (st : LoopState) (s : State) (code : nat) (doc : Document) (d : StoryData) :
  respond w (fetches s) (targetUrl (currentUrl baseUrl (pageNum st)) (now w (clockReads s)))
    = Responded code doc ->
  ok code = true -> blocked doc = false ->
  extractStoryContent doc = Returned d ->
  loopBody w status prefixLog baseUrl st s =
    (Returned (pageStep st doc d),
     mkState (S (clockReads s)) (S (fetches s))
       (trace s
        ++ fetchingStatus status prefixLog (pageNum st)
        ++ [Fetch (targetUrl (currentUrl baseUrl (pageNum st)) (now w (clockReads s)))]
        ++ politeDelay doc)).
Proof.
  intros R Hok Hb X.
  unfold loopBody, pageStep, fetchingStatus, politeDelay.
  destruct status.
  - rewrite bind_emit, bind_fetchPage.
    cbn [emit snd fetches clockReads trace]. rewrite R, (received_returned _ _ Hok Hb).
    rewrite X, bind_lift_returned.
    destruct (findNextLink doc).
    + rewrite bind_emit. unfold ret, afterFetch, emit. cbn [snd fetches clockReads trace].
      rewrite <- !app_assoc. reflexivity.
    + unfold ret, afterFetch. cbn [snd fetches clockReads trace].
      rewrite <- !app_assoc. reflexivity.
  - rewrite bind_ret, bind_fetchPage.
    rewrite R, (received_returned _ _ Hok Hb).
    rewrite X, bind_lift_returned.
    destruct (findNextLink doc).
    + rewrite bind_emit. unfold ret, afterFetch, emit. cbn [snd fetches clockReads trace].
      rewrite <- !app_assoc. reflexivity.
    + unfold ret, afterFetch. cbn [snd fetches clockReads trace app].
      reflexivity.
Qed.

(** The loop on a chapter the world serves, event by event. *)
Lemma pagesLoop_trace (w : World) (status : bool) (prefixLog baseUrl : string) :
  forall (docs : list Document) (p gas : nat) (acc : string) (s : State),
    docs <> [] ->
    1 <= p ->
    p + List.length docs <= MAX_PAGES + 1 ->
    MAX_PAGES < gas + p ->
    serves w baseUrl p (clockReads s) (fetches s) docs ->
    (forall i doc, nth_error docs i = Some doc ->
       i + 1 < List.length docs -> findNextLink doc <> None) ->
    (forall doc, nth_error docs (List.length docs - 1) = Some doc ->
       findNextLink doc = None \/ p + List.length docs = MAX_PAGES + 1) ->
    exists st' s',
      pagesLoop w status prefixLog baseUrl gas (mkLoopState p acc true) s
        = (Returned st', s') /\
      trace s' = (trace s ++ pagesTrace w status prefixLog baseUrl p (clockReads s) docs)%list.
Proof.
  induction docs as [|doc docs IH]; intros p gas acc s Hne Hp Hlen Hgas Hsrv Hnext Hlast.
  - contradiction.
  - unfold MAX_PAGES in Hlen, Hgas, Hlast, IH.
    destruct gas as [|g]; [exfalso; simpl in *; lia|].
    rewrite pagesLoop_step.
    2:{ simpl. apply Nat.leb_le. unfold MAX_PAGES. simpl in Hlen. lia. }
    destruct (serves_head _ _ _ _ _ _ _ Hsrv) as (code & R & Hok & Hblk & d & X).
    pose proof (loopBody_served w status prefixLog baseUrl (mkLoopState p acc true)
                  s code doc d R Hok Hblk X) as E1.
    rewrite (bind_returned _ _ _ _ _ E1).
    cbn [pagesTrace]. cbn [pageNum] in *.
    destruct docs as [|doc2 docs].
    + assert (D : hasNext (pageStep (mkLoopState p acc true) doc d)
                  && (pageNum (pageStep (mkLoopState p acc true) doc d) <=? MAX_PAGES)%nat
                  = false).
      { unfold pageStep. destruct (findNextLink doc) eqn:L; simpl; [|reflexivity].
        destruct (Hlast doc eq_refl) as [H|H]; [congruence|].
        simpl in H. apply Nat.leb_gt. unfold MAX_PAGES. lia. }
      rewrite pagesLoop_done by exact D.
      eexists _, _. split; [reflexivity|].
      simpl. rewrite app_nil_r. reflexivity.
    + destruct (findNextLink doc) as [a|] eqn:L.
      2:{ exfalso. apply (Hnext 0 doc eq_refl); [simpl; lia|exact L]. }
      unfold pageStep. rewrite L. cbn [pageNum fullHtml hasNext].
      match goal with
      | |- context [pagesLoop w status prefixLog baseUrl g (mkLoopState (S p) ?h true) ?st] =>
          destruct (IH (S p) g h st) as (st' & s' & E & T)
      end.
      * discriminate.
      * lia.
      * simpl in *. lia.
      * lia.
      * simpl. eapply serves_tail. exact Hsrv.
      * intros i x Hi Hx. apply (Hnext (S i) x Hi). simpl in *. lia.
      * intros x Hx. destruct (Hlast x) as [H|H].
        -- simpl in *. rewrite Nat.sub_0_r in Hx. exact Hx.
        -- left. exact H.
        -- right. simpl in *. lia.
      * exists st', s'. split; [exact E|].
        rewrite T. simpl clockReads. simpl trace.
        rewrite <- !app_assoc. reflexivity.
Qed.

Lemma pauses_pagesTrace (w : World) (status : bool) (prefixLog baseUrl : string) :
  forall (docs : list Document) (p c : nat),
    docs <> [] ->
    (forall i doc, nth_error docs i = Some doc ->
       i + 1 < List.length docs -> findNextLink doc <> None) ->
    (forall doc, nth_error docs (List.length docs - 1) = Some doc ->
       findNextLink doc = None) ->
    pauses 300 (pagesTrace w status prefixLog baseUrl p c docs) = List.length docs - 1.
Proof.
  induction docs as [|doc docs IH]; intros p c Hne Hnext Hlast.
  - contradiction.
  - cbn [pagesTrace]. rewrite !pauses_app.
    assert (F : pauses 300 (fetchingStatus status prefixLog p) = 0)
      by (destruct status; reflexivity).
    rewrite F. cbn [pauses Nat.add].
    destruct docs as [|doc2 docs].
    + unfold politeDelay. rewrite (Hlast doc eq_refl). reflexivity.
    + unfold politeDelay. destruct (findNextLink doc) eqn:L.
      2:{ exfalso. apply (Hnext 0 doc eq_refl); [simpl; lia|exact L]. }
      rewrite IH.
      * simpl. lia.
      * discriminate.
      * intros i x Hi Hx. apply (Hnext (S i) x Hi). simpl in *. lia.
      * intros x Hx. apply Hlast. simpl in *. rewrite Nat.sub_0_r in Hx. exact Hx.
Qed.

(** X1.  On a chapter of K pages as in C1 the loop does this and nothing
    else: for each page in turn it writes the status line, the prefix
    followed by [Fetching page n...] (when it has a status element), issues
    the request, and pauses 300 ms if the page has a next-link.  So there is one pause between consecutive requests and none
    after the last, K-1 in all. *)
Theorem pagination_trace (w : World) (startUrl : string) (status : bool)
    (prefixLog : string) (s : State) (docs : list Document) :
  1 <= List.length docs <= MAX_PAGES ->
  serves w (splitHead startUrl "?") 1 (clockReads s) (fetches s) docs ->
  (forall i doc, nth_error docs i = Some doc ->
     i + 1 < List.length docs -> findNextLink doc <> None) ->
  (forall doc, nth_error docs (List.length docs - 1) = Some doc ->
     findNextLink doc = None) ->
  trace (snd (fetchAllPagesOfStory w startUrl status prefixLog s))
    = (trace s
       ++ pagesTrace w status prefixLog (splitHead startUrl "?") 1 (clockReads s) docs)%list /\
  pauses 300 (trace (snd (fetchAllPagesOfStory w startUrl status prefixLog s)))
    = pauses 300 (trace s) + (List.length docs - 1).
Proof.
  intros Hlen Hsrv Hnext Hlast.
  assert (Hne : docs <> []) by (destruct docs; [simpl in Hlen; lia | discriminate]).
  destruct (pagesLoop_trace w status prefixLog (splitHead startUrl "?") docs 1
              MAX_PAGES EmptyString s) as (st' & s' & E & T); try assumption; try lia.
  { intros doc Hd. left. apply Hlast. exact Hd. }
  unfold fetchAllPagesOfStory. rewrite (bind_returned _ _ _ _ _ E). unfold ret. simpl snd.
  split; [exact T|].
  rewrite T, pauses_app, pauses_pagesTrace by assumption. reflexivity.
Qed.

Lemma pagination_trace_witness :
  trace (snd (fetchAllPagesOfStory (sampleWorld sampleChapter) sampleUrl true "(Ch 1)"
                initialState))
    = [ StatusText "(Ch 1) Fetching page 1...";
        Fetch "https://corsproxy.io/?https%3A%2F%2Fwww.literotica.com%2Fs%2Fa-story%3Ft%3D1700000000000";
        Delay 300;
        StatusText "(Ch 1) Fetching page 2...";
        Fetch "https://corsproxy.io/?https%3A%2F%2Fwww.literotica.com%2Fs%2Fa-story%3Fpage%3D2%26t%3D1700000000001";
        Delay 300;
        StatusText "(Ch 1) Fetching page 3...";
        Fetch "https://corsproxy.io/?https%3A%2F%2Fwww.literotica.com%2Fs%2Fa-story%3Fpage%3D3%26t%3D1700000000002" ].
Proof.
  refine (proj1 (pagination_trace (sampleWorld sampleChapter) sampleUrl true "(Ch 1)"
                   initialState sampleChapter _ _ _ _)).
  - unfold MAX_PAGES. simpl. lia.
  - intros [|[|[|i]]] doc Hi; simpl in Hi;
      [ | | | destruct i; discriminate Hi];
      injection Hi as <-; exists 200;
      (split; [reflexivity|]); (split; [reflexivity|]); (split; [reflexivity|]);
      eexists; reflexivity.
  - intros [|[|[|i]]] doc Hi Hlt; simpl in *; try lia;
      injection Hi as <-; discriminate.
  - simpl. intros doc Hd. injection Hd as <-. reflexivity.
Defined.

(** ** A page that cannot be fetched or read *)

Lemma pagesLoop_fails (w : World) (status : bool) (prefixLog baseUrl : string) :
  forall (docs : list Document) (p gas : nat) (acc : string) (s : State) (e : JsError),
    1 <= p ->
    p + List.length docs <= MAX_PAGES ->
    MAX_PAGES < gas + p ->
    serves w baseUrl p (clockReads s) (fetches s) docs ->
    (forall doc, In doc docs -> findNextLink doc <> None) ->
    pageOutcome
      (respond w (fetches s + List.length docs)
         (targetUrl (currentUrl baseUrl (p + List.length docs))
            (now w (clockReads s + List.length docs)))) = Thrown e ->
    exists s',
      pagesLoop w status prefixLog baseUrl gas (mkLoopState p acc true) s = (Thrown e, s') /\
      fetches s' = fetches s + List.length docs + 1 /\
      saved (trace s') = saved (trace s).
Proof.
  induction docs as [|doc docs IH]; intros p gas acc s e Hp Hlen Hgas Hsrv Hnext Hfail.
  - simpl in Hlen, Hfail. rewrite !Nat.add_0_r in Hfail.
    destruct gas as [|g]; [exfalso; simpl in *; lia|].
    rewrite pagesLoop_step.
    2:{ simpl. apply Nat.leb_le. lia. }
    destruct (loopBody_run w status prefixLog baseUrl (mkLoopState p acc true) s)
      as (s1 & A1 & E1).
    cbn [pageNum] in E1. unfold pageOutcome in Hfail.
    destruct (received (respond w (fetches s)
                (targetUrl (currentUrl baseUrl p) (now w (clockReads s))))) as [d0|e0|].
    + rewrite Hfail in E1. rewrite (bind_thrown _ _ _ _ _ E1).
      exists s1. split; [reflexivity|]. destruct A1 as (_ & F & _ & S0).
      simpl in F. split; [simpl; lia|exact S0].
    + injection Hfail as <-. rewrite (bind_thrown _ _ _ _ _ E1).
      exists s1. split; [reflexivity|]. destruct A1 as (_ & F & _ & S0).
      simpl in F. split; [simpl; lia|exact S0].
    + discriminate.
  - cbn [List.length] in Hlen, Hfail.
    destruct gas as [|g]; [exfalso; simpl in *; lia|].
    rewrite pagesLoop_step.
    2:{ simpl. apply Nat.leb_le. lia. }
    destruct (serves_head _ _ _ _ _ _ _ Hsrv) as (code & R & Hok & Hblk & d & X).
    pose proof (loopBody_served w status prefixLog baseUrl (mkLoopState p acc true)
                  s code doc d R Hok Hblk X) as E1.
    rewrite (bind_returned _ _ _ _ _ E1).
    destruct (findNextLink doc) as [a|] eqn:L.
    2:{ exfalso. apply (Hnext doc (or_introl eq_refl)). exact L. }
    unfold pageStep. rewrite L. cbn [pageNum fullHtml hasNext].
    match goal with
    | |- context [pagesLoop w status prefixLog baseUrl g (mkLoopState (S p) ?h true) ?st] =>
        destruct (IH (S p) g h st e) as (s' & E & F & S0)
    end.
    + lia.
    + lia.
    + lia.
    + simpl. eapply serves_tail. exact Hsrv.
    + intros x Hx. apply Hnext. right. exact Hx.
    + simpl fetches. simpl clockReads.
      rewrite !Nat.add_succ_r in Hfail. exact Hfail.
    + exists s'. split; [exact E|]. simpl in F, S0.
      rewrite saved_app in S0.
      split; [simpl; lia|].
      rewrite S0, !saved_app.
      assert (Q : saved (fetchingStatus status prefixLog p) = [])
        by (destruct status; reflexivity).
      rewrite Q. unfold politeDelay. rewrite L. simpl. rewrite app_nil_r. reflexivity.
Qed.

(** X2.  When the pages before page n+1 arrive with next-links and the
    request for page n+1 (n < 50) fails, is refused, meets a challenge page
    or brings a page without content container, the loop throws that
    page's error after exactly n+1 requests: what the earlier pages
    contributed is not returned. *)
Theorem pagination_failure (w : World) (startUrl : string) (status : bool)
    (prefixLog : string) (s : State) (docs : list Document) (e : JsError) :
  List.length docs < MAX_PAGES ->
  serves w (splitHead startUrl "?") 1 (clockReads s) (fetches s) docs ->
  (forall doc, In doc docs -> findNextLink doc <> None) ->
  pageOutcome
    (respond w (fetches s + List.length docs)
       (targetUrl (currentUrl (splitHead startUrl "?") (1 + List.length docs))
          (now w (clockReads s + List.length docs)))) = Thrown e ->
  fst (fetchAllPagesOfStory w startUrl status prefixLog s) = Thrown e /\
  fetches (snd (fetchAllPagesOfStory w startUrl status prefixLog s))
    = fetches s + List.length docs + 1 /\
  (e = Error contentNotFoundMessage \/ exists m, e = Error ("Network error: " ++ m)).
Proof.
  intros Hlen Hsrv Hnext Hfail.
  destruct (pagesLoop_fails w status prefixLog (splitHead startUrl "?") docs 1 MAX_PAGES
              EmptyString s e) as (s' & E & F & _); try assumption; try lia.
  unfold fetchAllPagesOfStory. rewrite (bind_thrown _ _ _ _ _ E). simpl.
  split; [reflexivity|]. split; [exact F|].
  unfold pageOutcome in Hfail.
  destruct (received _) as [d0|e0|] eqn:R; [| |discriminate].
  - left. eapply extractStoryContent_thrown. exact Hfail.
  - right. injection Hfail as <-. eapply received_thrown. exact R.
Qed.

Lemma pagination_failure_witness :
  fst (fetchAllPagesOfStory
         (sampleWorld [samplePage "one" true; unknownPage]) sampleUrl true EmptyString
         initialState)
    = Thrown (Error contentNotFoundMessage) /\
  fetches (snd (fetchAllPagesOfStory
                  (sampleWorld [samplePage "one" true; unknownPage]) sampleUrl true
                  EmptyString initialState)) = 2.
Proof.
  destruct (pagination_failure (sampleWorld [samplePage "one" true; unknownPage])
              sampleUrl true EmptyString initialState [samplePage "one" true]
              (Error contentNotFoundMessage)) as (H1 & H2 & _).
  - unfold MAX_PAGES. simpl. lia.
  - intros [|[|i]] doc Hi; simpl in Hi;
      [ | discriminate Hi | discriminate Hi];
      injection Hi as <-; exists 200;
      (split; [reflexivity|]); (split; [reflexivity|]); (split; [reflexivity|]);
      eexists; reflexivity.
  - intros doc [<-|[]]. discriminate.
  - reflexivity.
  - split; [exact H1|exact H2].
Defined.

(* ================================================================= *)
(** ** What a computation adds to the trace *)

Section Only.

Variable P : Event -> Prop.

Lemma only_ret {A} (a : A) : only P (ret a).
Proof. intros s. exists []. simpl. rewrite app_nil_r. split; [reflexivity|constructor]. Qed.

Lemma only_throw {A} (e : JsError) : only P (@throw A e).
Proof. intros s. exists []. simpl. rewrite app_nil_r. split; [reflexivity|constructor]. Qed.

Lemma only_outOfGas {A} : only P (@outOfGas A).
Proof. intros s. exists []. simpl. rewrite app_nil_r. split; [reflexivity|constructor]. Qed.

Lemma only_lift {A} (o : Outcome A) : only P (lift o).
Proof. intros s. exists []. simpl. rewrite app_nil_r. split; [reflexivity|constructor]. Qed.

Lemma only_emit (e : Event) : P e -> only P (emit e).
Proof.
  intros H s. exists [e]. split; [reflexivity|]. constructor; [exact H|constructor].
Qed.

Lemma only_bind {A B} (m : M A) (k : A -> M B) :
  only P m -> (forall a, only P (k a)) -> only P (bind m k).
Proof.
  intros Hm Hk s. unfold bind. destruct (Hm s) as (evs & T & F).
  destruct (m s) as [[a|e|] s1]; simpl in T.
  - destruct (Hk a s1) as (evs' & T' & F').
    exists (evs ++ evs')%list. rewrite T', T, app_assoc.
    split; [reflexivity|]. apply Forall_app. split; assumption.
  - exists evs. split; assumption.
  - exists evs. split; assumption.
Qed.

Lemma only_tryCatch {A} (m : M A) (h : JsError -> M A) :
  only P m -> (forall e, only P (h e)) -> only P (tryCatch m h).
Proof.
  intros Hm Hh s. unfold tryCatch. destruct (Hm s) as (evs & T & F).
  destruct (m s) as [[a|e|] s1]; simpl in T.
  - exists evs. split; assumption.
  - destruct (Hh e s1) as (evs' & T' & F').
    exists (evs ++ evs')%list. rewrite T', T, app_assoc.
    split; [reflexivity|]. apply Forall_app. split; assumption.
  - exists evs. split; assumption.
Qed.

Hypothesis P_fetch : forall u, P (Fetch u).

Lemma only_fetchPage (w : World) (url : string) : only P (fetchPage w url).
Proof.
  intros s. rewrite fetchPage_run. eexists. split; [reflexivity|].
  constructor; [apply P_fetch|constructor].
Qed.

Hypothesis P_status : forall t, P (StatusText t).
Hypothesis P_delay : P (Delay 300).

Lemma only_loopBody (w : World) (status : bool) (prefixLog baseUrl : string)
    (st : LoopState) : only P (loopBody w status prefixLog baseUrl st).
Proof.
  unfold loopBody. apply only_bind.
  - destruct status; [apply only_emit, P_status|apply only_ret].
  - intros _. apply only_bind; [apply only_fetchPage|]. intros doc.
    apply only_bind; [apply only_lift|]. intros d.
    destruct (findNextLink doc).
    + apply only_bind; [apply only_emit, P_delay|]. intros _. apply only_ret.
    + apply only_ret.
Qed.

Lemma only_pagesLoop (w : World) (status : bool) (prefixLog baseUrl : string)
    (gas : nat) : forall st, only P (pagesLoop w status prefixLog baseUrl gas st).
Proof.
  induction gas as [|g IH]; intros st; simpl;
    destruct (hasNext st && (pageNum st <=? MAX_PAGES)%nat).
  - apply only_outOfGas.
  - apply only_ret.
  - apply only_bind; [apply only_loopBody|apply IH].
  - apply only_ret.
Qed.

Lemma only_fetchAllPagesOfStory (w : World) (startUrl : string) (status : bool)
    (prefixLog : string) : only P (fetchAllPagesOfStory w startUrl status prefixLog).
Proof.
  unfold fetchAllPagesOfStory. apply only_bind; [apply only_pagesLoop|].
  intros st. apply only_ret.
Qed.

End Only.

Lemma pageEvent_runEvent (e : Event) : pageEvent e -> runEvent e.
Proof. destruct e; simpl; auto. Qed.

Lemma only_seriesLoop (w : World) (total : nat) (links : list Element) :
  forall i chapters, only runEvent (seriesLoop w total i links chapters).
Proof.
  induction links as [|link links IH]; intros i chapters; cbn [seriesLoop].
  - apply only_ret.
  - apply only_bind; [apply only_lift|]. intros chapterUrl.
    apply only_bind; [apply only_emit; exact I|]. intros _.
    apply only_bind.
    { apply only_fetchAllPagesOfStory; intros; exact I. }
    intros html. apply only_bind; [apply only_emit; exact I|]. intros _. apply IH.
Qed.

Lemma only_generateEpub (title author : string) (chapters : list Chapter) :
  only runEvent (generateEpub title author chapters).
Proof.
  unfold generateEpub. apply only_bind; [apply only_emit; exact I|]. intros _.
  apply only_bind; [apply only_emit; exact I|]. intros _. apply only_ret.
Qed.

(** Both kinds of run begin with a status line and the request for the
    URL they are given. *)
Lemma processSeries_trace (w : World) (url : string) (s : State) :
  exists evs,
    trace (snd (processSeries w url s))
      = (trace s ++ StatusText "Fetching series info..."
                 :: Fetch (targetUrl url (now w (clockReads s))) :: evs)%list /\
    Forall runEvent evs.
Proof.
  unfold processSeries. rewrite bind_emit, bind_fetchPage.
  cbn [emit snd fetches clockReads trace].
  destruct (received _) as [doc|e|].
  - match goal with
    | |- context [snd (?m (afterFetch ?st ?u))] =>
        assert (O : only runEvent m)
    end.
    { destruct (List.length (chapterLinksOf doc) =? 0)%nat; [apply only_throw|].
      apply only_bind; [apply only_emit; exact I|]. intros _.
      apply only_bind; [apply only_seriesLoop|]. intros chapters.
      apply only_generateEpub. }
    match goal with
    | |- context [snd (?m (afterFetch ?st ?u))] =>
        destruct (O (afterFetch st u)) as (evs & T & F)
    end.
    exists evs. rewrite T. unfold afterFetch. cbn [trace].
    rewrite <- !app_assoc. split; [reflexivity|exact F].
  - exists []. unfold afterFetch. cbn [snd trace].
    rewrite <- !app_assoc. split; [reflexivity|constructor].
  - exists []. unfold afterFetch. cbn [snd trace].
    rewrite <- !app_assoc. split; [reflexivity|constructor].
Qed.

Lemma processSingleStory_trace (w : World) (url : string) (s : State) :
  exists evs,
    trace (snd (processSingleStory w url s))
      = (trace s ++ StatusText "Fetching story metadata..."
                 :: Fetch (targetUrl url (now w (clockReads s))) :: evs)%list /\
    Forall runEvent evs.
Proof.
  unfold processSingleStory. rewrite bind_emit, bind_fetchPage.
  cbn [emit snd fetches clockReads trace].
  destruct (received _) as [doc|e|].
  - match goal with
    | |- context [snd (?m (afterFetch ?st ?u))] =>
        assert (O : only runEvent m)
    end.
    { apply only_bind.
      - apply only_fetchAllPagesOfStory; intros; exact I.
      - intros html. apply only_generateEpub. }
    match goal with
    | |- context [snd (?m (afterFetch ?st ?u))] =>
        destruct (O (afterFetch st u)) as (evs & T & F)
    end.
    exists evs. rewrite T. unfold afterFetch. cbn [trace].
    rewrite <- !app_assoc. split; [reflexivity|exact F].
  - exists []. unfold afterFetch. cbn [snd trace].
    rewrite <- !app_assoc. split; [reflexivity|constructor].
  - exists []. unfold afterFetch. cbn [snd trace].
    rewrite <- !app_assoc. split; [reflexivity|constructor].
Qed.

(* ================================================================= *)
(** ** The click handler *)

Lemma process_trace (w : World) (url : string) (s : State) :
  exists evs,
    trace (snd ((if includes url "/series/se/" then processSeries w url
                 else processSingleStory w url) s))
      = (trace s
         ++ StatusText (if includes url "/series/se/" then "Fetching series info..."
                        else "Fetching story metadata...")
         :: Fetch (targetUrl url (now w (clockReads s))) :: evs)%list /\
    Forall runEvent evs.
Proof.
  destruct (includes url "/series/se/");
    [apply processSeries_trace|apply processSingleStory_trace].
Qed.

Lemma click_run (w : World) (input : string) (s : State) :
  trim input <> EmptyString ->
  exists evs tail s',
    onConvertClick w input s = (Returned tt, s') /\
    trace s'
      = (trace s
         ++ [ ButtonDisabled true;
              StatusHtml "Initializing...";
              StatusText
                (if includes (if negb (hasHttpScheme (trim input))
                              then "https://" ++ trim input else trim input)
                      "/series/se/"
                 then "Fetching series info..." else "Fetching story metadata...");
              Fetch (targetUrl (if negb (hasHttpScheme (trim input))
                                then "https://" ++ trim input else trim input)
                       (now w (clockReads s))) ]
         ++ evs ++ tail)%list /\
    Forall runEvent evs /\
    ((exists e, tail = [ConsoleError e; StatusHtml (errorSpan e); ButtonDisabled false]) \/
     (exists archive f,
        tail = [ButtonDisabled false; SaveAs archive f;
                StatusText "Done! Check your downloads."])).
Proof.
  intros H. unfold onConvertClick.
  apply String.eqb_neq in H. rewrite H.
  set (url := if negb (hasHttpScheme (trim input))
              then "https://" ++ trim input else trim input).
  rewrite !bind_emit.
  set (s0 := snd (emit (StatusHtml "Initializing...") (snd (emit (ButtonDisabled true) s)))).
  destruct (process_spec w url s0) as (urls & o & s1 & E & _ & P).
  destruct (process_trace w url s0) as (evs & T & F).
  rewrite E in T. cbn [snd] in T.
  change (clockReads s0) with (clockReads s) in T.
  change (trace s0)
    with ((trace s ++ [ButtonDisabled true]) ++ [StatusHtml "Initializing..."])%list in T.
  exists evs.
  unfold bind at 1. unfold tryCatch. unfold bind at 1. rewrite E.
  destruct o as [rest|e|]; [| |contradiction].
  - destruct P as (_ & archive & f & ->).
    unfold ret at 1. rewrite bind_emit. unfold saveRest. rewrite !bind_emit.
    eexists _, _. split; [reflexivity|]. split; [|split; [exact F|]].
    2:{ right. exists archive, f. reflexivity. }
    unfold emit. cbn [snd trace]. rewrite T. rewrite <- !app_assoc. reflexivity.
  - rewrite !bind_emit. unfold ret at 1. rewrite bind_emit.
    eexists _, _. split; [reflexivity|]. split; [|split; [exact F|]].
    2:{ left. exists e. reflexivity. }
    unfold emit. cbn [snd trace]. rewrite T. rewrite <- !app_assoc. reflexivity.
Qed.

(** X3.  What a click does.  An input that is empty once trimmed only
    gets the please-enter-a-URL status: no request, the button untouched.
    Otherwise the button is disabled, the status reset, and the run starts
    with the request for the input, to which [https://] has been prefixed
    unless it starts with [http://] or [https://] in any letter case; a URL
    containing [/series/se/] is run as a series, any other as a single
    story.  The run itself only writes status lines, requests and pauses.
    It ends in one of two ways: the error is logged, shown in the status
    and the button re-enabled; or the button is re-enabled and then, the
    archive being generated without the handler waiting for it, the
    archive is saved and the status says done. *)
Theorem click_outcomes (w : World) (input : string) (s : State) :
  (trim input = EmptyString ->
   onConvertClick w input s
     = (Returned tt,
        mkState (clockReads s) (fetches s)
          (trace s ++ [StatusText "Please enter a URL"]))) /\
  (trim input <> EmptyString ->
   exists evs tail,
     fst (onConvertClick w input s) = Returned tt /\
     trace (snd (onConvertClick w input s))
       = (trace s
          ++ [ ButtonDisabled true;
               StatusHtml "Initializing...";
               StatusText
                 (if includes (if negb (hasHttpScheme (trim input))
                               then "https://" ++ trim input else trim input)
                       "/series/se/"
                  then "Fetching series info..." else "Fetching story metadata...");
               Fetch (targetUrl (if negb (hasHttpScheme (trim input))
                                 then "https://" ++ trim input else trim input)
                        (now w (clockReads s))) ]
          ++ evs ++ tail)%list /\
     Forall runEvent evs /\
     ((exists e, tail = [ConsoleError e; StatusHtml (errorSpan e); ButtonDisabled false]) \/
      (exists archive f,
         tail = [ButtonDisabled false; SaveAs archive f;
                 StatusText "Done! Check your downloads."]))).
Proof.
  split.
  - intros H. unfold onConvertClick. rewrite H. reflexivity.
  - intros H. destruct (click_run w input s H) as (evs & tail & s' & E & T & F & D).
    exists evs, tail. rewrite E. split; [reflexivity|].
    split; [exact T|]. split; [exact F|exact D].
Qed.

Lemma click_outcomes_witness :
  onConvertClick endlessWorld (bytes [32; 9; 194; 160]) initialState
    = (Returned tt, mkState 0 0 [StatusText "Please enter a URL"]) /\
  exists evs tail,
    trace (snd (onConvertClick (failingWorld "Failed to fetch")
                  " WWW.literotica.com/s/a-story " initialState))
      = ([ ButtonDisabled true;
           StatusHtml "Initializing...";
           StatusText "Fetching story metadata...";
           Fetch (targetUrl "https://WWW.literotica.com/s/a-story" 1700000000000) ]
         ++ evs ++ tail)%list.
Proof.
  split.
  - apply (proj1 (click_outcomes endlessWorld (bytes [32; 9; 194; 160]) initialState)).
    reflexivity.
  - destruct (proj2 (click_outcomes (failingWorld "Failed to fetch")
                       " WWW.literotica.com/s/a-story " initialState))
      as (evs & tail & _ & T & _).
    + discriminate.
    + exists evs, tail. exact T.
Defined.

(* ================================================================= *)
(** ** The outcomes of [fetchPage] *)

(** X4.  [fetchPage] returns the document exactly when the answer has a
    2xx status and a title containing neither [Just a moment] nor
    [Cloudflare].  The status is looked at first: a challenge page that
    comes with a non-2xx status is reported as an HTTP error, not as
    blocked.  Whatever fails, what leaves [fetchPage] is an [Error] (never
    the [TypeError] of the transport) whose message starts with
    [Network error: ], and the call has issued its one request. *)
Theorem fetchPage_outcomes (w : World) (url : string) (s : State) :
  (forall doc,
      fst (fetchPage w url s) = Returned doc <->
      exists status,
        respond w (fetches s) (targetUrl url (now w (clockReads s)))
          = Responded status doc /\
        200 <= status <= 299 /\
        includes (doc_title doc) "Just a moment" = false /\
        includes (doc_title doc) "Cloudflare" = false) /\
  (forall status doc,
      respond w (fetches s) (targetUrl url (now w (clockReads s)))
        = Responded status doc ->
      ~ (200 <= status <= 299) ->
      fst (fetchPage w url s)
        = Thrown (Error ("Network error: HTTP Error: " ++ showNat status))) /\
  (forall status doc,
      respond w (fetches s) (targetUrl url (now w (clockReads s)))
        = Responded status doc ->
      200 <= status <= 299 ->
      includes (doc_title doc) "Cloudflare" = true ->
      fst (fetchPage w url s) = Thrown (Error ("Network error: " ++ blockedMessage))) /\
  (forall e,
      fst (fetchPage w url s) = Thrown e ->
      exists m, e = Error ("Network error: " ++ m)) /\
  fst (fetchPage w url s) <> OutOfGas /\
  fetches (snd (fetchPage w url s)) = S (fetches s).
Proof.
  rewrite fetchPage_run. cbn [fst snd afterFetch fetches].
  assert (K : forall status, ok status = true <-> 200 <= status <= 299).
  { intros status. unfold ok. rewrite andb_true_iff, !Nat.leb_le. reflexivity. }
  split; [|split; [|split; [|split; [|split]]]].
  - intros doc. unfold received, blocked. split.
    + destruct (respond w (fetches s) _) as [e|status d]; [discriminate|].
      destruct (ok status) eqn:Hok; simpl; [|discriminate].
      destruct (includes (doc_title d) "Just a moment") eqn:J; simpl; [discriminate|].
      destruct (includes (doc_title d) "Cloudflare") eqn:C; simpl; [discriminate|].
      intros H. injection H as <-. exists status.
      split; [reflexivity|]. split; [apply K; exact Hok|]. split; assumption.
    + intros (status & -> & Hs & J & C). apply K in Hs.
      rewrite Hs, J, C. reflexivity.
  - intros status doc R Hs. rewrite R. unfold received.
    destruct (ok status) eqn:Hok; [exfalso; apply Hs, K; exact Hok|]. reflexivity.
  - intros status doc R Hs C. rewrite R. unfold received, blocked.
    apply K in Hs. rewrite Hs, C, orb_true_r. reflexivity.
  - intros e. apply received_thrown.
  - apply received_gas.
  - reflexivity.
Qed.

Lemma fetchPage_outcomes_witness :
  fst (fetchPage (sampleWorld sampleChapter) sampleUrl initialState)
    = Returned (samplePage "one" true) /\
  fst (fetchPage challenge503World sampleUrl initialState)
    = Thrown (Error "Network error: HTTP Error: 503") /\
  fst (fetchPage (failingWorld "Failed to fetch") sampleUrl initialState)
    = Thrown (Error "Network error: Failed to fetch").
Proof.
  split; [|split].
  - apply (proj1 (fetchPage_outcomes (sampleWorld sampleChapter) sampleUrl initialState)).
    exists 200. split; [reflexivity|]. split; [lia|]. split; reflexivity.
  - destruct (fetchPage_outcomes challenge503World sampleUrl initialState)
      as (_ & H & _).
    exact (H 503 challengePage eq_refl ltac:(lia)).
  - destruct (fetchPage_outcomes (failingWorld "Failed to fetch") sampleUrl initialState)
      as (_ & _ & _ & H & _).
    destruct (H (Error "Network error: Failed to fetch") eq_refl) as [m E].
    reflexivity.
Defined.

(* ================================================================= *)
(** ** Titles and authors *)

Lemma firstText_first (doc : Document) (before : list string) (sel : string)
    (rest : list string) (fallback : string) (e : Element) :
  (forall x, In x before -> noText doc x) ->
  querySelector doc sel = Some e ->
  textContent e <> EmptyString ->
  firstText doc (before ++ sel :: rest) fallback = textContent e.
Proof.
  intros Hb Hq Ht. induction before as [|x before IH]; cbn [app firstText].
  - unfold textOf. rewrite Hq.
    apply String.eqb_neq in Ht. rewrite Ht. reflexivity.
  - assert (N : textOf doc x = None).
    { specialize (Hb x (or_introl eq_refl)). unfold noText in Hb. unfold textOf.
      destruct (querySelector doc x) as [y|]; [|reflexivity].
      rewrite Hb. reflexivity. }
    rewrite N. apply IH. intros y Hy. apply Hb. right. exact Hy.
Qed.

Lemma firstText_fallback (doc : Document) (sels : list string) (fallback : string) :
  (forall x, In x sels -> noText doc x) ->
  firstText doc sels fallback = fallback.
Proof.
  induction sels as [|x sels IH]; cbn [firstText]; intros H.
  - reflexivity.
  - assert (N : textOf doc x = None).
    { specialize (H x (or_introl eq_refl)). unfold noText in H. unfold textOf.
      destruct (querySelector doc x) as [y|]; [|reflexivity].
      rewrite H. reflexivity. }
    rewrite N. apply IH. intros y Hy. apply H. right. exact Hy.
Qed.

(** X5.  The title of a story is the trimmed text of the first of the three
    title selectors [h1._title_2d1pc_26], [h1.headline] and [h1], in this
    order, whose first match has a non-empty text; a match with empty text
    is passed over like no match, and when every candidate is passed over
    the title is [Unknown Title].  The text is trimmed after the choice, so
    a heading of white space only is chosen and gives an empty title.  The
    author is found the same way over [._author__title_2mplv_48], [.y_eU]
    and [.b-story-user-y], with [Unknown Author]. *)
Theorem metadata_precedence (doc : Document) :
  (forall before sel rest e,
      ["h1._title_2d1pc_26"; "h1.headline"; "h1"] = (before ++ sel :: rest)%list ->
      (forall x, In x before -> noText doc x) ->
      querySelector doc sel = Some e ->
      textContent e <> EmptyString ->
      meta_title (extractMetadata doc) = trim (textContent e)) /\
  (forall before sel rest e,
      ["._author__title_2mplv_48"; ".y_eU"; ".b-story-user-y"] = (before ++ sel :: rest)%list ->
      (forall x, In x before -> noText doc x) ->
      querySelector doc sel = Some e ->
      textContent e <> EmptyString ->
      meta_author (extractMetadata doc) = trim (textContent e)) /\
  ((forall x, In x ["h1._title_2d1pc_26"; "h1.headline"; "h1"] -> noText doc x) ->
   meta_title (extractMetadata doc) = "Unknown Title") /\
  ((forall x, In x
      ["._author__title_2mplv_48"; ".y_eU"; ".b-story-user-y"] -> noText doc x) ->
   meta_author (extractMetadata doc) = "Unknown Author").
Proof.
  change ["h1._title_2d1pc_26"; "h1.headline"; "h1"] with titleSelectors.
  change ["._author__title_2mplv_48"; ".y_eU"; ".b-story-user-y"] with authorSelectors.
  unfold extractMetadata. cbn [meta_title meta_author].
  split; [|split; [|split]].
  - intros before sel rest e E Hb Hq Ht.
    rewrite E, (firstText_first doc before sel rest _ e Hb Hq Ht). reflexivity.
  - intros before sel rest e E Hb Hq Ht.
    rewrite E, (firstText_first doc before sel rest _ e Hb Hq Ht). reflexivity.
  - intros H. rewrite (firstText_fallback _ _ _ H). vm_compute. reflexivity.
  - intros H. rewrite (firstText_fallback _ _ _ H). vm_compute. reflexivity.
Qed.

Lemma metadata_precedence_witness :
  meta_title (extractMetadata (samplePage "one" false)) = "A Story" /\
  meta_title (extractMetadata blankHeadingPage) = EmptyString /\
  meta_author (extractMetadata unknownPage) = "Unknown Author".
Proof.
  split; [|split].
  - apply (proj1 (metadata_precedence (samplePage "one" false))
             ["h1._title_2d1pc_26"; "h1.headline"] "h1" []
             (mkElement " A Story " EmptyString EmptyString None " A Story ")).
    + reflexivity.
    + intros x [<-|[<-|[]]]; exact I.
    + reflexivity.
    + discriminate.
  - apply (proj1 (metadata_precedence blankHeadingPage)
             ["h1._title_2d1pc_26"] "h1.headline" ["h1"]
             (mkElement "   " "headline" EmptyString None "   ")).
    + reflexivity.
    + intros x [<-|[]]. exact I.
    + reflexivity.
    + discriminate.
  - apply (proj2 (proj2 (proj2 (metadata_precedence unknownPage)))).
    intros x _. exact I.
Defined.

(* ================================================================= *)
(** ** Single-story runs *)

Lemma processSingleStory_run (w : World) (url : string) (s : State) (doc : Document) :
  received (respond w (fetches s) (targetUrl url (now w (clockReads s)))) = Returned doc ->
  exists n o s',
    processSingleStory w url s = (o, s') /\
    advanced s s'
      (targetUrl url (now w (clockReads s))
       :: pageUrls w (splitHead url "?") 1 (S (clockReads s)) n) /\
    1 <= n <= MAX_PAGES /\
    match o with
    | Returned rest =>
        exists html,
          fst (fetchAllPagesOfStory w url true EmptyString
                 (afterFetch (snd (emit (StatusText "Fetching story metadata...") s))
                    (targetUrl url (now w (clockReads s)))))
            = Returned html /\
          rest = saveRest
                   (buildEpub (meta_title (extractMetadata doc))
                      (meta_author (extractMetadata doc))
                      [mkChapter (meta_title (extractMetadata doc)) html])
                   (meta_title (extractMetadata doc) ++ ".epub")
    | Thrown e => pageFailure e
    | OutOfGas => False
    end.
Proof.
  intros R. unfold processSingleStory. rewrite bind_emit, bind_fetchPage.
  set (s1 := snd (emit (StatusText "Fetching story metadata...") s)).
  change (clockReads s1) with (clockReads s).
  change (fetches s1) with (fetches s).
  set (u0 := targetUrl url (now w (clockReads s))) in *.
  rewrite R.
  assert (A2 : advanced s (afterFetch s1 u0) [u0]).
  { exact (advanced_trans _ _ _ _ _
             (emit_advanced (StatusText "Fetching story metadata...") s I)
             (afterFetch_advanced s1 u0)). }
  destruct (fetchAllPagesOfStory_spec w url true EmptyString (afterFetch s1 u0))
    as (n & o & s3 & E & A3 & Hn & P).
  change (clockReads (afterFetch s1 u0)) with (S (clockReads s)) in A3.
  pose proof (advanced_trans _ _ _ _ _ A2 A3) as A23. cbn [app] in A23.
  exists n. destruct o as [html|e|]; [| |contradiction].
  - rewrite (bind_returned _ _ _ _ _ E).
    destruct (generateEpub_rest (meta_title (extractMetadata doc))
                (meta_author (extractMetadata doc))
                [mkChapter (meta_title (extractMetadata doc)) html] s3)
      as (s4 & G & A4).
    eexists _, s4. split; [exact G|]. split.
    { pose proof (advanced_trans _ _ _ _ _ A23 A4) as H.
      rewrite app_nil_r in H. exact H. }
    split; [exact Hn|]. exists html. rewrite E. split; reflexivity.
  - rewrite (bind_thrown _ _ _ _ _ E).
    exists (Thrown e), s3. split; [reflexivity|]. split; [exact A23|].
    split; [exact Hn|apply P].
Qed.

(** X6.  A single-story run whose first request is well answered requests
    page 1 twice: once at the URL as given, for the title and the author,
    and again, at the URL cut at its first [?], as the first of the 1 to 50
    requests of the pagination loop.  When it completes, the book has one
    chapter, whose title is the book title, and is saved under
    [<title>.epub], title and author being those of the first answer. *)
Theorem single_story_run (w : World) (url : string) (s : State) (doc : Document) :
  received (respond w (fetches s) (targetUrl url (now w (clockReads s)))) = Returned doc ->
  (exists n, 1 <= n <= 50 /\
     requests (trace (snd (processSingleStory w url s)))
       = (requests (trace s)
          ++ targetUrl url (now w (clockReads s))
          :: targetUrl (splitHead url "?") (now w (S (clockReads s)))
          :: pageUrls w (splitHead url "?") 2 (S (S (clockReads s))) (n - 1))%list) /\
  (forall rest s',
      processSingleStory w url s = (Returned rest, s') ->
      exists html,
        fst (fetchAllPagesOfStory w url true EmptyString
               (afterFetch (snd (emit (StatusText "Fetching story metadata...") s))
                  (targetUrl url (now w (clockReads s)))))
          = Returned html /\
        rest = saveRest
                 (buildEpub (meta_title (extractMetadata doc))
                    (meta_author (extractMetadata doc))
                    [mkChapter (meta_title (extractMetadata doc)) html])
                 (meta_title (extractMetadata doc) ++ ".epub")).
Proof.
  intros R.
  destruct (processSingleStory_run w url s doc R) as (n & o & s' & E & A & Hn & P).
  split.
  - exists n. split; [exact Hn|]. rewrite E. cbn [snd].
    destruct A as (_ & _ & Ar & _). rewrite Ar.
    destruct n as [|n]; [lia|]. rewrite pageUrls_S. simpl Nat.sub.
    rewrite Nat.sub_0_r. reflexivity.
  - intros rest s'' E'. rewrite E in E'. injection E' as -> ->. exact P.
Qed.

Lemma single_story_run_witness :
  (exists n, 1 <= n <= 50 /\
     requests (trace (snd (processSingleStory (sampleWorld sampleChapter) sampleUrl
                             initialState)))
       = targetUrl sampleUrl 1700000000000
         :: targetUrl "https://www.literotica.com/s/a-story" 1700000000001
         :: pageUrls (sampleWorld sampleChapter) "https://www.literotica.com/s/a-story"
              2 2 (n - 1)) /\
  exists archive,
    saved (trace (snd (onConvertClick blankHeadingWorld "literotica.com/s/a-story"
                         initialState)))
      = [(archive, ".epub")].
Proof.
  split.
  - exact (proj1 (single_story_run (sampleWorld sampleChapter) sampleUrl initialState
                    (samplePage "one" true) eq_refl)).
  - eexists. vm_compute. reflexivity.
Defined.

(* ================================================================= *)
(** ** Series runs *)

Lemma trimmedTextOr_nonempty (doc : Document) (sel fallback : string) :
  fallback <> EmptyString -> trimmedTextOr doc sel fallback <> EmptyString.
Proof.
  intros H. unfold trimmedTextOr.
  destruct (querySelector doc sel) as [e|]; [|exact H].
  destruct (trim (textContent e) =? EmptyString) eqn:E; [exact H|].
  apply String.eqb_neq. exact E.
Qed.

(** X7.  The title and the author of a series are the trimmed text of the
    first match of their selector, and the sentinel when there is no match
    or the trimmed text is empty: unlike a story title, they are never
    empty, so a series is never saved under the bare name [.epub]. *)
Theorem series_title_never_empty (w : World) (url : string) (s : State) :
  forall rest s',
    processSeries w url s = (Returned rest, s') ->
    exists doc chapters,
      received (respond w (fetches s) (targetUrl url (now w (clockReads s))))
        = Returned doc /\
      rest = saveRest
               (buildEpub (trimmedTextOr doc "h1.headline" "Unknown Series")
                  (trimmedTextOr doc ".y_eU" "Unknown Author") chapters)
               (trimmedTextOr doc "h1.headline" "Unknown Series" ++ ".epub") /\
      trimmedTextOr doc "h1.headline" "Unknown Series" <> EmptyString /\
      trimmedTextOr doc ".y_eU" "Unknown Author" <> EmptyString /\
      (trimmedTextOr doc "h1.headline" "Unknown Series" = "Unknown Series" \/
       exists e, querySelector doc "h1.headline" = Some e /\
                 trimmedTextOr doc "h1.headline" "Unknown Series" = trim (textContent e)).
Proof.
  intros rest s' E.
  destruct (processSeries_spec w url s) as (urls & o & s1 & E1 & _ & P).
  rewrite E in E1. injection E1 as <- <-.
  destruct P as (_ & doc & chapters & R & _ & _ & _ & ->).
  exists doc, chapters. split; [exact R|]. split; [reflexivity|].
  split; [apply trimmedTextOr_nonempty; discriminate|].
  split; [apply trimmedTextOr_nonempty; discriminate|].
  unfold trimmedTextOr. destruct (querySelector doc "h1.headline") as [e|];
    [|left; reflexivity].
  destruct (trim (textContent e) =? EmptyString); [left; reflexivity|].
  right. exists e. split; reflexivity.
Qed.

Lemma series_title_never_empty_witness :
  exists archive,
    saved (trace (snd (onConvertClick sampleSeriesWorld sampleSeriesUrl initialState)))
      = [(archive, "A Series.epub")].
Proof.
  destruct (processSeries sampleSeriesWorld sampleSeriesUrl
              (mkState 0 0 [ButtonDisabled true; StatusHtml "Initializing..."]))
    as [[rest|e|] s'] eqn:E.
  - destruct (series_title_never_empty sampleSeriesWorld sampleSeriesUrl _ rest s' E)
      as (doc & chapters & R & _).
    eexists. vm_compute. reflexivity.
  - vm_compute in E. discriminate E.
  - vm_compute in E. discriminate E.
Defined.

Lemma seriesRequests_href (w : World) (c : nat) (links : list Element) (urls : list string) :
  seriesRequests w c links urls ->
  forall link, In link links -> href link <> None.
Proof.
  induction 1 as [c|c link links h n urls Hh Hn Hs IH]; intros x Hx.
  - destruct Hx.
  - destruct Hx as [<-|Hx]; [congruence|apply IH; exact Hx].
Qed.

(** X8.  A series page on which some chapter link has no [href] never
    gives a book: the run throws and saves nothing, whatever the network
    does.  When it is the first link, the run throws the engine's
    [TypeError] right after the request for the series page. *)
Theorem series_missing_href (w : World) (url : string) (s : State) (doc : Document) :
  received (respond w (fetches s) (targetUrl url (now w (clockReads s)))) = Returned doc ->
  ((exists link, In link (chapterLinksOf doc) /\ href link = None) ->
   exists e,
     fst (processSeries w url s) = Thrown e /\
     saved (trace (snd (processSeries w url s))) = saved (trace s)) /\
  (forall link links,
      chapterLinksOf doc = link :: links ->
      href link = None ->
      exists m,
        fst (processSeries w url s) = Thrown (TypeError m) /\
        fetches (snd (processSeries w url s)) = S (fetches s)).
Proof.
  intros R. split.
  - intros (link & Hin & Hh).
    destruct (processSeries_spec w url s) as (urls & o & s1 & E & A & P).
    rewrite E. cbn [fst snd]. destruct o as [rest|e|]; [| |contradiction].
    + exfalso. destruct P as (_ & doc' & chapters & R' & _ & Q & _).
      rewrite R in R'. injection R' as <-.
      exact (seriesRequests_href _ _ _ _ Q link Hin Hh).
    + exists e. split; [reflexivity|apply A].
  - intros link links L Hh.
    unfold processSeries. rewrite bind_emit, bind_fetchPage.
    cbn [emit snd fetches clockReads]. rewrite R, L.
    cbn [List.length Nat.eqb seriesLoop]. rewrite bind_emit.
    unfold chapterUrlOf. rewrite Hh.
    eexists. split; reflexivity.
Qed.

Lemma series_missing_href_witness :
  exists e,
    fst (processSeries brokenSeriesWorld sampleSeriesUrl initialState) = Thrown e /\
    saved (trace (snd (processSeries brokenSeriesWorld sampleSeriesUrl initialState))) = [].
Proof.
  apply (proj1 (series_missing_href brokenSeriesWorld sampleSeriesUrl initialState
                  brokenSeriesPage eq_refl)).
  eexists. split; [right; left; reflexivity|reflexivity].
Defined.

Lemma pauses_pageEvents (evs : list Event) :
  Forall pageEvent evs -> pauses 500 evs = 0.
Proof.
  induction 1 as [|e evs He _ IH]; [reflexivity|].
  destruct e; simpl in *; try exact IH; try contradiction.
  subst ms. exact IH.
Qed.

Lemma seriesLoop_pauses (w : World) (total : nat) (links : list Element) :
  forall (i : nat) (chapters result : list Chapter) (s s' : State),
    seriesLoop w total i links chapters s = (Returned result, s') ->
    pauses 500 (trace s') = pauses 500 (trace s) + List.length links.
Proof.
  induction links as [|link links IH]; intros i chapters result s s' E.
  - injection E as _ <-. simpl. lia.
  - cbn [seriesLoop] in E. unfold chapterUrlOf in E.
    destruct (href link) as [h|]; [|discriminate E].
    rewrite bind_lift_returned, bind_emit in E.
    match type of E with
    | bind (fetchAllPagesOfStory w ?u true ?pl) _ ?st = _ =>
        destruct (only_fetchAllPagesOfStory pageEvent ltac:(intros; exact I)
                    ltac:(intros; exact I) eq_refl w u true pl st) as (evs & T & F);
        destruct (fetchAllPagesOfStory w u true pl st) as [[html|e|] s2] eqn:E2
    end.
    + rewrite (bind_returned _ _ _ _ _ E2), bind_emit in E.
      apply IH in E. rewrite E. cbn [snd emit trace] in T |- *.
      rewrite (pauses_app 500), T, !(pauses_app 500), (pauses_pageEvents _ F). simpl. lia.
    + rewrite (bind_thrown _ _ _ _ _ E2) in E. discriminate E.
    + rewrite (bind_outOfGas _ _ _ _ E2) in E. discriminate E.
Qed.

(** X9.  A series run that completes has paused 500 ms once per chapter,
    after the last chapter too, on top of the 300 ms pauses between the
    pages of a chapter. *)
Theorem series_pauses (w : World) (url : string) (s : State) (doc : Document) :
  received (respond w (fetches s) (targetUrl url (now w (clockReads s)))) = Returned doc ->
  forall rest s',
    processSeries w url s = (Returned rest, s') ->
    pauses 500 (trace s') = pauses 500 (trace s) + List.length (chapterLinksOf doc).
Proof.
  intros R rest s' E. unfold processSeries in E.
  rewrite bind_emit, bind_fetchPage in E.
  cbn [emit snd fetches clockReads] in E. rewrite R in E.
  destruct (List.length (chapterLinksOf doc) =? 0)%nat; [discriminate E|].
  rewrite bind_emit in E.
  match type of E with
  | bind (seriesLoop w ?t 0 ?ls []) _ ?st = _ =>
      destruct (seriesLoop w t 0 ls [] st) as [[chapters|e|] s2] eqn:E2
  end.
  - rewrite (bind_returned _ _ _ _ _ E2) in E.
    apply seriesLoop_pauses in E2.
    unfold generateEpub, bind, emit, ret in E. cbn in E. injection E as _ <-.
    cbn [trace]. rewrite !(pauses_app 500), E2. unfold afterFetch, emit. cbn [snd trace].
    rewrite !(pauses_app 500). simpl. lia.
  - rewrite (bind_thrown _ _ _ _ _ E2) in E. discriminate E.
  - rewrite (bind_outOfGas _ _ _ _ E2) in E. discriminate E.
Qed.

Lemma series_pauses_witness :
  pauses 500 (trace (snd (processSeries sampleSeriesWorld sampleSeriesUrl initialState))) = 2.
Proof.
  destruct (processSeries sampleSeriesWorld sampleSeriesUrl initialState)
    as [[rest|e|] s'] eqn:E.
  - exact (series_pauses sampleSeriesWorld sampleSeriesUrl initialState sampleSeriesPage
             eq_refl rest s' E).
  - vm_compute in E. discriminate E.
  - vm_compute in E. discriminate E.
Defined.

(* ================================================================= *)
(** ** The package and navigation documents *)

Lemma forEachChapter_items (chapters : list Chapter) :
  forall (i : nat) (acc : Assembly),
    manifestItems (forEachChapter chapters i acc)
      = manifestItems acc ++ manifestOf chapters i /\
    spineItems (forEachChapter chapters i acc) = spineItems acc ++ spineOf chapters i /\
    navMapItems (forEachChapter chapters i acc) = navMapItems acc ++ navMapOf chapters i.
Proof.
  induction chapters as [|c chapters IH]; intros i acc.
  - cbn [forEachChapter manifestOf spineOf navMapOf].
    rewrite !append_nil_r. repeat split.
  - cbn [forEachChapter manifestOf spineOf navMapOf].
    destruct (IH (S i) (addChapter acc c i)) as (H1 & H2 & H3).
    rewrite H1, H2, H3. unfold addChapter.
    cbn [manifestItems spineItems navMapItems].
    rewrite !append_assoc. repeat split.
Qed.

Lemma buildEpub_layout (title author : string) (chapters : list Chapter) :
  buildEpub title author chapters =
  (fixedEntries ++ chapterEntries chapters 0
   ++ [ mkZipObject "content.opf" false
          (opfContent title author (ncxManifestItem ++ manifestOf chapters 0)
             (spineOf chapters 0)) None;
        mkZipObject "toc.ncx" false (ncxContent title (navMapOf chapters 0)) None ])%list.
Proof.
  unfold buildEpub.
  change (file "META-INF/" "container.xml" containerXml None
            (folder "META-INF"
               (file EmptyString "mimetype" "application/epub+zip" (Some STORE) [])))
    with fixedEntries.
  destruct (forEachChapter_items chapters 0
              (mkAssembly fixedEntries ncxManifestItem EmptyString EmptyString))
    as (H1 & H2 & H3).
  rewrite H1, H2, H3. cbn [manifestItems spineItems navMapItems append].
  unfold file at 1 2. rewrite forEachChapter_zip; cbn [zip].
  2:{ intros j _. apply chapterFileName_fixed. }
  assert (F : forall n, startsWith n "ch" = false ->
                zipHas fixedEntries n = false ->
                zipHas (fixedEntries ++ chapterEntries chapters 0)%list n = false).
  { intros n Hn Hf. rewrite zipHas_app, Hf. cbn [orb].
    apply zipHas_chapterEntries. intros j _. apply not_chapterFileName. exact Hn. }
  rewrite (zipSet_fresh (fixedEntries ++ chapterEntries chapters 0)%list) by
    (apply F; reflexivity).
  rewrite zipSet_fresh.
  - rewrite <- !app_assoc. reflexivity.
  - rewrite zipHas_app, F by reflexivity. reflexivity.
Qed.

(** X10.  The archive, entry by entry and in the order of writing: the
    mimetype, the folder, the container descriptor, one document per
    chapter in the order of the chapter list, then the package document,
    whose manifest lists the navigation document and then the chapters and
    whose spine lists the chapters, and the navigation document, whose
    navigation points follow the same order with ids and play orders that
    count from 1.  Title, author and chapter titles go into the markup as
    they are.  The markup is that of lines 214-262. *)
Theorem epub_archive (title author : string) (chapters : list Chapter) :
  buildEpub title author chapters =
  ([ mkZipObject "mimetype" false "application/epub+zip" (Some STORE);
     mkZipObject "META-INF/" true EmptyString (Some STORE);
     mkZipObject "META-INF/container.xml" false
       (dq "<?xml version='1.0'?><container version='1.0' xmlns='urn:oasis:names:tc:opendocument:xmlns:container'><rootfiles><rootfile full-path='content.opf' media-type='application/oebps-package+xml'/></rootfiles></container>") None ]
   ++ chapterEntries chapters 0
   ++ [ mkZipObject "content.opf" false
          (dq "<?xml version='1.0' encoding='UTF-8'?>
        <package xmlns='http://www.idpf.org/2007/opf' unique-identifier='BookId' version='2.0'>
            <metadata xmlns:dc='http://purl.org/dc/elements/1.1/'>
                <dc:title>"
           ++ title
           ++ "</dc:title><dc:creator>"
           ++ author
           ++ "</dc:creator><dc:language>en</dc:language>
            </metadata>
            <manifest>"
           ++ (dq "<item id='ncx' href='toc.ncx' media-type='application/x-dtbncx+xml'/>" ++ manifestOf chapters 0)
           ++ dq "</manifest>
            <spine toc='ncx'>"
           ++ spineOf chapters 0
           ++ "</spine>
        </package>") None;
        mkZipObject "toc.ncx" false
          (dq "<?xml version='1.0' encoding='UTF-8'?>
        <ncx xmlns='http://www.daisy.org/z3986/2005/ncx/' version='2005-1'>
            <head><meta name='dtb:uid' content='urn:uuid:12345'/></head>
            <docTitle><text>"
           ++ title
           ++ "</text></docTitle>
            <navMap>"
           ++ navMapOf chapters 0
           ++ "</navMap>
        </ncx>") None ])%list /\
  (forall index,
      chapterEntries [] index = [] /\ manifestOf [] index = EmptyString /\
      spineOf [] index = EmptyString /\ navMapOf [] index = EmptyString) /\
  (forall chapter rest index,
      chapterEntries (chapter :: rest) index
        = mkZipObject ("chapter" ++ showNat (index + 1) ++ ".html") false
            (dq "<?xml version='1.0' encoding='utf-8'?>
            <!DOCTYPE html PUBLIC '-//W3C//DTD XHTML 1.1//EN' 'http://www.w3.org/TR/xhtml11/DTD/xhtml11.dtd'>
            <html xmlns='http://www.w3.org/1999/xhtml'>
            <head>
                <title>"
           ++ chapter_title chapter
           ++ "</title>
                <style>body { font-family: serif; line-height: 1.5; margin: 2em; }</style>
            </head>
            <body>
                <h2>"
           ++ chapter_title chapter
           ++ "</h2>
                <hr/>
                "
           ++ replaceAll (chapter_content chapter) "&nbsp;" " "
           ++ "
            </body>
            </html>") None
          :: chapterEntries rest (S index)) /\
  (forall chapter rest index,
      manifestOf (chapter :: rest) index
        = (dq "<item id='"
        ++ ("chapter" ++ showNat (index + 1))
        ++ dq "' href='"
        ++ ("chapter" ++ showNat (index + 1) ++ ".html")
        ++ dq "' media-type='application/xhtml+xml'/>")
          ++ manifestOf rest (S index)) /\
  (forall chapter rest index,
      spineOf (chapter :: rest) index
        = (dq "<itemref idref='"
        ++ ("chapter" ++ showNat (index + 1))
        ++ dq "'/>")
          ++ spineOf rest (S index)) /\
  (forall chapter rest index,
      navMapOf (chapter :: rest) index
        = (dq "<navPoint id='navPoint-"
        ++ showNat (index + 1)
        ++ dq "' playOrder='"
        ++ showNat (index + 1)
        ++ dq "'><navLabel><text>"
        ++ chapter_title chapter
        ++ dq "</text></navLabel><content src='"
        ++ ("chapter" ++ showNat (index + 1) ++ ".html")
        ++ dq "'/></navPoint>")
          ++ navMapOf rest (S index)).
Proof.
  split; [rewrite buildEpub_layout; reflexivity|].
  split; [intros index; repeat split|].
  split; [intros chapter rest index; reflexivity|].
  split; [|split]; intros chapter rest index.
  - cbn [manifestOf]. unfold manifestItem, chapterFileName, chapterId. reflexivity.
  - cbn [spineOf]. unfold spineItem, chapterId. reflexivity.
  - cbn [navMapOf]. unfold navPoint, chapterFileName, chapterId. reflexivity.
Qed.

Lemma epub_archive_witness :
  buildEpub "A Story" "An Author"
    [mkChapter "Part One" "<p>one&nbsp;two</p>"; mkChapter "Part Two" "<p>three</p>"] =
  [ mkZipObject "mimetype" false
      ("application/epub+zip") (Some STORE);
    mkZipObject "META-INF/" true
      (EmptyString) (Some STORE);
    mkZipObject "META-INF/container.xml" false
      (dq "<?xml version='1.0'?><container version='1.0' xmlns='urn:oasis:names:tc:opendocument:xmlns:container'><rootfiles><rootfile full-path='content.opf' media-type='application/oebps-package+xml'/></rootfiles></container>") None;
    mkZipObject "chapter1.html" false
      (dq "<?xml version='1.0' encoding='utf-8'?>
            <!DOCTYPE html PUBLIC '-//W3C//DTD XHTML 1.1//EN' 'http://www.w3.org/TR/xhtml11/DTD/xhtml11.dtd'>
            <html xmlns='http://www.w3.org/1999/xhtml'>
            <head>
                <title>Part One</title>
                <style>body { font-family: serif; line-height: 1.5; margin: 2em; }</style>
            </head>
            <body>
                <h2>Part One</h2>
                <hr/>
                <p>one two</p>
            </body>
            </html>") None;
    mkZipObject "chapter2.html" false
      (dq "<?xml version='1.0' encoding='utf-8'?>
            <!DOCTYPE html PUBLIC '-//W3C//DTD XHTML 1.1//EN' 'http://www.w3.org/TR/xhtml11/DTD/xhtml11.dtd'>
            <html xmlns='http://www.w3.org/1999/xhtml'>
            <head>
                <title>Part Two</title>
                <style>body { font-family: serif; line-height: 1.5; margin: 2em; }</style>
            </head>
            <body>
                <h2>Part Two</h2>
                <hr/>
                <p>three</p>
            </body>
            </html>") None;
    mkZipObject "content.opf" false
      (dq "<?xml version='1.0' encoding='UTF-8'?>
        <package xmlns='http://www.idpf.org/2007/opf' unique-identifier='BookId' version='2.0'>
            <metadata xmlns:dc='http://purl.org/dc/elements/1.1/'>
                <dc:title>A Story</dc:title><dc:creator>An Author</dc:creator><dc:language>en</dc:language>
            </metadata>
            <manifest><item id='ncx' href='toc.ncx' media-type='application/x-dtbncx+xml'/><item id='chapter1' href='chapter1.html' media-type='application/xhtml+xml'/><item id='chapter2' href='chapter2.html' media-type='application/xhtml+xml'/></manifest>
            <spine toc='ncx'><itemref idref='chapter1'/><itemref idref='chapter2'/></spine>
        </package>") None;
    mkZipObject "toc.ncx" false
      (dq "<?xml version='1.0' encoding='UTF-8'?>
        <ncx xmlns='http://www.daisy.org/z3986/2005/ncx/' version='2005-1'>
            <head><meta name='dtb:uid' content='urn:uuid:12345'/></head>
            <docTitle><text>A Story</text></docTitle>
            <navMap><navPoint id='navPoint-1' playOrder='1'><navLabel><text>Part One</text></navLabel><content src='chapter1.html'/></navPoint><navPoint id='navPoint-2' playOrder='2'><navLabel><text>Part Two</text></navLabel><content src='chapter2.html'/></navPoint></navMap>
        </ncx>") None ].
Proof.
  exact (eq_trans
           (proj1 (epub_archive "A Story" "An Author"
                     [mkChapter "Part One" "<p>one&nbsp;two</p>"; mkChapter "Part Two" "<p>three</p>"]))
           eq_refl).
Defined.

(* ================================================================= *)
(** ** After the substitution *)

Lemma nbsp_not_across_space (q r : string) :
  startsWith (q ++ " " ++ r) nbsp = true -> startsWith q nbsp = true.
Proof.
  intros H.
  destruct q as [|c1 q]; [discriminate|].
  cbn in H |- *. destruct (Ascii.eqb c1 "&"); [|discriminate].
  destruct q as [|c2 q]; [discriminate|].
  cbn in H |- *. destruct (Ascii.eqb c2 "n"); [|discriminate].
  destruct q as [|c3 q]; [discriminate|].
  cbn in H |- *. destruct (Ascii.eqb c3 "b"); [|discriminate].
  destruct q as [|c4 q]; [discriminate|].
  cbn in H |- *. destruct (Ascii.eqb c4 "s"); [|discriminate].
  destruct q as [|c5 q]; [discriminate|].
  cbn in H |- *. destruct (Ascii.eqb c5 "p"); [|discriminate].
  destruct q as [|c6 q]; [discriminate|].
  cbn in H |- *. destruct (Ascii.eqb c6 ";"); [|discriminate].
  reflexivity.
Qed.

Lemma nbsp_free_space (p r : string) :
  includes p nbsp = false -> includes r nbsp = false ->
  includes (p ++ " " ++ r) nbsp = false.
Proof.
  intros Hp Hr. induction p as [|c p IH].
  - change (EmptyString ++ " " ++ r) with (String " " r).
    cbn [includes]. rewrite Hr. reflexivity.
  - cbn [includes] in Hp. apply orb_false_iff in Hp. destruct Hp as [H1 H2].
    change (String c p ++ " " ++ r) with (String c (p ++ " " ++ r)).
    cbn [includes]. rewrite (IH H2), orb_false_r.
    destruct (startsWith (String c (p ++ " " ++ r)) nbsp) eqn:E; [|reflexivity].
    apply (nbsp_not_across_space (String c p) r) in E. congruence.
Qed.

Lemma nbsp_free_join (pieces : list string) :
  (forall p, In p pieces -> includes p nbsp = false) ->
  includes (join " " pieces) nbsp = false.
Proof.
  induction pieces as [|p pieces IH]; intros H.
  - reflexivity.
  - destruct pieces as [|p2 pieces].
    + apply H. left. reflexivity.
    + cbn [join]. apply nbsp_free_space.
      * apply H. left. reflexivity.
      * apply IH. intros q Hq. apply H. right. exact Hq.
Qed.

Lemma join_cons (sep p : string) (pieces : list string) :
  pieces <> [] -> join sep (p :: pieces) = p ++ sep ++ join sep pieces.
Proof. destruct pieces; [contradiction|reflexivity]. Qed.

Lemma length_join_nbsp (pieces : list string) :
  String.length (join " " pieces) <= String.length (join nbsp pieces).
Proof.
  induction pieces as [|p pieces IH]; [simpl; lia|].
  destruct (list_eq_dec string_dec pieces []) as [->|N]; [simpl; lia|].
  rewrite !join_cons by exact N. rewrite !length_append.
  change (String.length nbsp) with 6. change (String.length " ") with 1. lia.
Qed.

(** X11.  The content that goes into a chapter document contains no
    [&nbsp;] entity, is never longer than the chapter's content, and is a
    fixed point of the substitution. *)
Theorem clean_content_clean (chapter : Chapter) :
  includes (cleanContent chapter) nbsp = false /\
  String.length (cleanContent chapter) <= String.length (chapter_content chapter) /\
  cleanContent (mkChapter (chapter_title chapter) (cleanContent chapter))
    = cleanContent chapter.
Proof.
  destruct (nbsp_pieces (chapter_content chapter)) as (p & ps & E & H).
  assert (C : cleanContent chapter = join " " (p :: ps)).
  { unfold cleanContent. rewrite E. apply replaceAll_nbsp_join. exact H. }
  assert (N : includes (cleanContent chapter) nbsp = false).
  { rewrite C. apply nbsp_free_join. exact H. }
  split; [exact N|]. split.
  - rewrite C, E. apply length_join_nbsp.
  - unfold cleanContent at 1. cbn [chapter_content].
    apply (replaceAll_nbsp_join [cleanContent chapter]).
    intros q [<-|[]]. exact N.
Qed.

(* ================================================================= *)
(** ** The service worker *)

Lemma sw_filter_filter {A} (f g : A -> bool) (l : list A) :
  filter f (filter g l) = filter (fun x => g x && f x) l.
Proof.
  induction l as [|x l IH]; simpl; [reflexivity|].
  destruct (g x); simpl; [destruct (f x)|]; rewrite ?IH; reflexivity.
Qed.

Lemma sw_filter_all {A} (l : list A) : filter (fun _ => true) l = l.
Proof. induction l as [|x l IH]; simpl; [|rewrite IH]; reflexivity. Qed.

Lemma sw_find_app {A} (f : A -> bool) (l l' : list A) :
  find f (l ++ l')%list =
  match find f l with Some x => Some x | None => find f l' end.
Proof.
  induction l as [|x l IH]; simpl; [reflexivity|].
  destruct (f x); [reflexivity|exact IH].
Qed.

Lemma sw_append_inj (p x y : string) : p ++ x = p ++ y -> x = y.
Proof.
  induction p as [|c p IH]; simpl; intros H; [exact H|].
  injection H as H. exact (IH H).
Qed.

Lemma sw_fold_cleanUp (ks : list string) : forall s,
  Sw.caches (fold_left Sw.cleanUp ks s) =
    filter (fun nc =>
              negb (existsb (fun k => negb (k =? Sw.CACHE_NAME) && (fst nc =? k)) ks))
           (Sw.caches s)
  /\ Sw.log (fold_left Sw.cleanUp ks s) =
       (Sw.log s ++
        map (Sw.ConsoleLog "Cleaning up old cache:")
            (filter (fun k => negb (k =? Sw.CACHE_NAME)) ks))%list.
Proof.
  induction ks as [|k ks IH]; intros s.
  - simpl. rewrite sw_filter_all, app_nil_r. split; reflexivity.
  - cbn [fold_left]. destruct (IH (Sw.cleanUp s k)) as [C L]. rewrite C, L.
    unfold Sw.cleanUp. cbn [existsb filter].
    destruct (k =? Sw.CACHE_NAME) eqn:E; cbn [negb andb orb Sw.caches Sw.log map].
    + split; reflexivity.
    + unfold Sw.delete. rewrite sw_filter_filter. split.
      * apply filter_ext. intros nc. destruct (fst nc =? k); reflexivity.
      * rewrite <- app_assoc. reflexivity.
Qed.

Lemma sw_fetched_app (l l' : list Sw.SwEvent) :
  Sw.fetched (l ++ l')%list = (Sw.fetched l ++ Sw.fetched l')%list.
Proof.
  induction l as [|e l IH]; simpl; [reflexivity|].
  destruct e; simpl; rewrite IH; reflexivity.
Qed.

Lemma sw_fetched_requests (urls : list string) :
  Sw.fetched (map Sw.NetFetch urls) = urls.
Proof. induction urls as [|u urls IH]; simpl; [|rewrite IH]; reflexivity. Qed.

Lemma sw_fetchAll_some (net : Sw.Network) (urls : list string) : forall es,
  Sw.fetchAll net urls = Some es ->
  map fst es = urls
  /\ Forall (fun kv => net (fst kv) = Some (snd kv) /\ Sw.addable (snd kv) = true) es.
Proof.
  induction urls as [|u urls IH]; simpl; intros es H.
  - injection H as <-. split; constructor.
  - destruct (net u) as [r|] eqn:N; [|discriminate].
    destruct (Sw.fetchAll net urls) as [rs|]; [|discriminate].
    destruct (Sw.addable r) eqn:O; [|discriminate].
    injection H as <-. destruct (IH rs eq_refl) as [M F]. split.
    + simpl. rewrite M. reflexivity.
    + constructor; [split; assumption|exact F].
Qed.

Lemma sw_fetchAll_all (net : Sw.Network) (urls : list string) :
  (exists es, Sw.fetchAll net urls = Some es) <->
  Forall (fun u => exists r, net u = Some r /\ Sw.addable r = true) urls.
Proof.
  induction urls as [|u urls IH]; simpl.
  - split; [constructor|eexists; reflexivity].
  - split.
    + intros [es H]. destruct (net u) as [r|] eqn:N; [|discriminate].
      destruct (Sw.fetchAll net urls) as [rs|]; [|discriminate].
      destruct (Sw.addable r) eqn:O; [|discriminate].
      constructor; [exists r; split; [exact N|exact O]|].
      apply IH. eexists; reflexivity.
    + intros F. inversion F as [|? ? (r & N & O) F' ]; subst.
      apply IH in F' as [rs R]. rewrite N, R, O. eexists; reflexivity.
Qed.

Lemma sw_keys_update (cs : Sw.CacheStorage) (n : string) (f : Sw.Cache -> Sw.Cache) :
  Sw.keys (Sw.update cs n f) = Sw.keys cs.
Proof.
  unfold Sw.keys. induction cs as [|[m c] cs IH]; [reflexivity|].
  cbn [Sw.update]. destruct (m =? n); cbn [map fst]; [reflexivity|].
  rewrite IH. reflexivity.
Qed.

Lemma sw_others_update (cs : Sw.CacheStorage) (n : string) (f : Sw.Cache -> Sw.Cache)
    (m : string) (c : Sw.Cache) :
  m <> n -> In (m, c) (Sw.update cs n f) <-> In (m, c) cs.
Proof.
  intros D. induction cs as [|[k d] cs IH]; simpl; [tauto|].
  destruct (k =? n) eqn:E; simpl.
  - apply String.eqb_eq in E. subst k.
    split; (intros [H|H]; [injection H as H _; congruence|right; exact H]).
  - rewrite IH. tauto.
Qed.

Lemma sw_others_open (cs : Sw.CacheStorage) (n m : string) (c : Sw.Cache) :
  m <> n -> In (m, c) (Sw.open cs n) <-> In (m, c) cs.
Proof.
  intros D. unfold Sw.open. destruct (Sw.has cs n); [tauto|].
  rewrite in_app_iff. simpl. split; [|tauto].
  intros [H|[H|[]]]; [exact H|]. injection H as H _. congruence.
Qed.

Lemma sw_has_open (cs : Sw.CacheStorage) (n : string) :
  Sw.has (Sw.open cs n) n = true.
Proof.
  unfold Sw.open. destruct (Sw.has cs n) eqn:H; [exact H|].
  unfold Sw.has. rewrite existsb_app. simpl. rewrite String.eqb_refl.
  rewrite Bool.orb_true_r. reflexivity.
Qed.


Lemma sw_match_put_same (c : Sw.Cache) (u : string) (r : Sw.Resp) :
  Sw.cacheMatch (Sw.cachePut c u r) u = Some r.
Proof.
  unfold Sw.cacheMatch, Sw.cachePut. rewrite sw_find_app.
  assert (F : find (fun kv : string * Sw.Resp => fst kv =? u)
                (filter (fun kv => negb (fst kv =? u)) c) = None).
  { induction c as [|kv c IH]; simpl; [reflexivity|].
    destruct (fst kv =? u) eqn:E; simpl; [exact IH|]. rewrite E. exact IH. }
  rewrite F. simpl. rewrite String.eqb_refl. reflexivity.
Qed.

Lemma sw_match_put_other (c : Sw.Cache) (u u' : string) (r : Sw.Resp) :
  u' <> u -> Sw.cacheMatch (Sw.cachePut c u r) u' = Sw.cacheMatch c u'.
Proof.
  intros D. unfold Sw.cacheMatch, Sw.cachePut. rewrite sw_find_app.
  assert (F : find (fun kv : string * Sw.Resp => fst kv =? u')
                (filter (fun kv => negb (fst kv =? u)) c) =
              find (fun kv => fst kv =? u') c).
  { induction c as [|kv c IH]; simpl; [reflexivity|].
    destruct (fst kv =? u) eqn:E; simpl.
    - apply String.eqb_eq in E. rewrite E.
      apply not_eq_sym in D. apply String.eqb_neq in D. rewrite D. exact IH.
    - destruct (fst kv =? u'); [reflexivity|exact IH]. }
  rewrite F. destruct (find (fun kv => fst kv =? u') c); [reflexivity|].
  simpl. apply not_eq_sym in D. apply String.eqb_neq in D. rewrite D. reflexivity.
Qed.

Lemma sw_putAll_other (es : list (string * Sw.Resp)) : forall c url,
  ~ In url (map fst es) ->
  Sw.cacheMatch (Sw.putAll c es) url = Sw.cacheMatch c url.
Proof.
  induction es as [|[u r] es IH]; intros c url N; [reflexivity|].
  unfold Sw.putAll in *. cbn [fold_left fst snd].
  rewrite IH by (intros H; apply N; right; exact H).
  apply sw_match_put_other. intros ->. apply N. left. reflexivity.
Qed.

Lemma sw_putAll_in (es : list (string * Sw.Resp)) : forall c url r,
  NoDup (map fst es) -> In (url, r) es ->
  Sw.cacheMatch (Sw.putAll c es) url = Some r.
Proof.
  induction es as [|[u q] es IH]; intros c url r D I; [destruct I|].
  inversion D as [|? ? N D']; subst. destruct I as [E|I].
  - injection E as -> ->. unfold Sw.putAll. cbn [fold_left fst snd].
    fold (Sw.putAll (Sw.cachePut c url r) es).
    rewrite sw_putAll_other by exact N. apply sw_match_put_same.
  - unfold Sw.putAll. cbn [fold_left fst snd].
    fold (Sw.putAll (Sw.cachePut c u q) es). apply IH; assumption.
Qed.

Lemma sw_NoDup_map {A B} (f : A -> B) (l : list A) :
  (forall x y, f x = f y -> x = y) -> NoDup l -> NoDup (map f l).
Proof.
  intros J D. induction D as [|x l N D IH]; simpl; constructor; [|exact IH].
  intros H. apply in_map_iff in H as (y & E & I). apply J in E. subst y. exact (N I).
Qed.

Lemma sw_assets_distinct (scope : string) :
  NoDup (map (Sw.resolve scope) Sw.ASSETS).
Proof.
  assert (R : map (Sw.resolve scope) Sw.ASSETS =
              map (append scope)
                [EmptyString; "index.html"; "style.css"; "app.js"; "manifest.json"])
    by reflexivity.
  rewrite R. apply sw_NoDup_map.
  - intros x y. apply sw_append_inj.
  - repeat constructor; simpl; intros H;
      repeat (destruct H as [H|H]; [discriminate H|]); exact H.
Qed.

Lemma sw_install_run (scope : string) (net : Sw.Network) (s : Sw.State) :
  fst (Sw.onInstall scope net s) = Returned tt ->
  exists es,
    Sw.fetchAll net (map (Sw.resolve scope) Sw.ASSETS) = Some es
    /\ Sw.caches (snd (Sw.onInstall scope net s)) =
         Sw.update (Sw.open (Sw.caches s) Sw.CACHE_NAME) Sw.CACHE_NAME
           (fun c => Sw.putAll c es).
Proof.
  unfold Sw.onInstall.
  destruct (Sw.fetchAll net (map (Sw.resolve scope) Sw.ASSETS)) as [es|];
    [|discriminate].
  intros _. exists es. split; reflexivity.
Qed.

Lemma sw_activate_caches (s : Sw.State) :
  Sw.caches (Sw.onActivate s) =
    filter (fun nc => fst nc =? Sw.CACHE_NAME) (Sw.caches s).
Proof.
  unfold Sw.onActivate. cbn [Sw.caches].
  destruct (sw_fold_cleanUp (Sw.keys (Sw.caches s))
              (Sw.mkState (Sw.caches s) (Sw.log s ++ [Sw.ClientsClaim]))) as [C _].
  rewrite C. cbn [Sw.caches].
  apply filter_ext_in. intros nc I.
  destruct (fst nc =? Sw.CACHE_NAME) eqn:E.
  - apply String.eqb_eq in E.
    destruct (existsb _ _) eqn:X; [|reflexivity].
    apply existsb_exists in X as (k & _ & H).
    apply Bool.andb_true_iff in H as [H1 H2].
    apply String.eqb_eq in H2. rewrite <- H2, E, String.eqb_refl in H1. discriminate.
  - assert (X : existsb (fun k => negb (k =? Sw.CACHE_NAME) && (fst nc =? k))
                  (Sw.keys (Sw.caches s)) = true).
    { apply existsb_exists. exists (fst nc). split.
      - unfold Sw.keys. apply in_map. exact I.
      - rewrite E, String.eqb_refl. reflexivity. }
    rewrite X. reflexivity.
Qed.

(** X12 (sw.js, activate handler).  Activation leaves exactly the caches
    named [CACHE_NAME], with their contents untouched and in their order,
    and deletes every other one, whatever the cache storage held; it claims
    the clients first and then writes one console line for each deleted
    cache, in the order of [caches.keys()]. *)
Theorem sw_activate_cleans (s : Sw.State) :
  Sw.caches (Sw.onActivate s) =
    filter (fun nc => fst nc =? Sw.CACHE_NAME) (Sw.caches s)
  /\ Sw.log (Sw.onActivate s) =
       (Sw.log s ++
        Sw.ClientsClaim ::
        map (Sw.ConsoleLog "Cleaning up old cache:")
            (filter (fun k => negb (k =? Sw.CACHE_NAME)) (Sw.keys (Sw.caches s))))%list.
Proof.
  split; [apply sw_activate_caches|].
  unfold Sw.onActivate. cbn [Sw.caches].
  destruct (sw_fold_cleanUp (Sw.keys (Sw.caches s))
              (Sw.mkState (Sw.caches s) (Sw.log s ++ [Sw.ClientsClaim]))) as [_ L].
  rewrite L. cbn [Sw.log]. rewrite <- app_assoc. reflexivity.
Qed.

(** X13 (sw.js, fetch handler).  The fetch handler never writes to a
    cache; a served response is the network's or a cached one; a URL that
    contains [app.js] is always requested from the network and the
    network's response wins over any cached copy; any other URL that is
    cached is answered from the cache without a network request; and
    nothing is served only when both the network and the caches fail. *)
Theorem sw_fetch_sources (net : Sw.Network) (url : string) (s : Sw.State) :
  let answer := fst (Sw.onFetch net url s) in
  let s' := snd (Sw.onFetch net url s) in
  Sw.caches s' = Sw.caches s
  /\ (forall r, answer = Sw.Served r ->
        net url = Some r \/ Sw.matchAny (Sw.caches s) url = Some r)
  /\ (includes url "app.js" = true ->
        Sw.log s' = (Sw.log s ++ [Sw.NetFetch url])%list
        /\ forall r, net url = Some r -> answer = Sw.Served r)
  /\ (includes url "app.js" = false ->
        forall r, Sw.matchAny (Sw.caches s) url = Some r ->
          answer = Sw.Served r /\ Sw.log s' = Sw.log s)
  /\ ((forall r, answer <> Sw.Served r) <->
        net url = None /\ Sw.matchAny (Sw.caches s) url = None).
Proof.
  unfold Sw.onFetch.
  destruct (includes url "app.js") eqn:A;
    destruct (net url) as [r1|] eqn:N;
    destruct (Sw.matchAny (Sw.caches s) url) as [r2|] eqn:C;
    cbn [fst snd Sw.caches Sw.log];
    (split; [reflexivity|]);
    (split; [intros r H; first [discriminate H|injection H as <-; auto]|]);
    (split; [intros H; first
               [discriminate H
               |split; [reflexivity
                       |intros r H'; first
                          [discriminate H'|injection H' as <-; reflexivity]]]|]);
    (split; [intros H r H'; first
               [discriminate H|discriminate H'
               |injection H' as <-; split; reflexivity]|]);
    (split; [intros H; first [exfalso; eapply H; reflexivity|split; reflexivity]
            |intros [H1 H2]; first
               [discriminate H1|discriminate H2|intros r H'; discriminate H']]).
Qed.

Lemma sw_addable (r : Sw.Resp) :
  Sw.addable r = true <->
  Sw.ok r = true /\ Sw.status r <> 206 /\ Sw.varyStar r = false.
Proof.
  unfold Sw.addable. rewrite !Bool.andb_true_iff, !Bool.negb_true_iff, Nat.eqb_neq.
  tauto.
Qed.

Lemma sw_asset_urls (scope : string) :
  map (Sw.resolve scope) Sw.ASSETS =
  [scope; scope ++ "index.html"; scope ++ "style.css"; scope ++ "app.js";
   scope ++ "manifest.json"].
Proof. cbn [map Sw.ASSETS Sw.resolve]. rewrite append_nil_r. reflexivity. Qed.

Lemma sw_update_in (cs : Sw.CacheStorage) (n : string) (f : Sw.Cache -> Sw.Cache) :
  Sw.has cs n = true -> exists c, In (n, f c) (Sw.update cs n f).
Proof.
  induction cs as [|[m c] cs IH]; [discriminate|].
  cbn [Sw.has existsb fst Sw.update]. destruct (m =? n) eqn:E.
  - intros _. apply String.eqb_eq in E. subst m. exists c. left. reflexivity.
  - cbn [orb]. intros H. destruct (IH H) as [c' I]. exists c'. right. exact I.
Qed.

(** X14 (sw.js, install handler).  The install handler calls [skipWaiting]
    and requests the five assets once each, in the order of [ASSETS], at
    the scope itself and at [index.html], [style.css], [app.js] and
    [manifest.json] under it.  The installation succeeds exactly when each
    of them is answered with a response that [addAll] accepts: an ok
    status other than 206 and no [Vary: *].  It then has stored each
    response under its URL in the cache [webtoepub-v5]; otherwise it fails
    with the error of [addAll] and has stored nothing, that cache being at
    most created.  In both cases no cache of another name is created,
    removed or changed. *)
Theorem sw_install_all_or_nothing (scope : string) (net : Sw.Network) (s : Sw.State) :
  let outcome := fst (Sw.onInstall scope net s) in
  let s' := snd (Sw.onInstall scope net s) in
  let urls := [scope; scope ++ "index.html"; scope ++ "style.css"; scope ++ "app.js";
               scope ++ "manifest.json"] in
  (outcome = Returned tt <->
     forall u, In u urls ->
       exists r, net u = Some r
                 /\ 200 <= Sw.status r <= 299 /\ Sw.status r <> 206
                 /\ Sw.varyStar r = false)
  /\ (outcome = Returned tt ->
        forall u, In u urls ->
          exists c, In ("webtoepub-v5", c) (Sw.caches s') /\ Sw.cacheMatch c u = net u)
  /\ (outcome = Returned tt
      \/ outcome = Thrown Sw.addAllError
         /\ Sw.caches s' = Sw.open (Sw.caches s) "webtoepub-v5")
  /\ Sw.fetched (Sw.log s') = (Sw.fetched (Sw.log s) ++ urls)%list
  /\ In Sw.SkipWaiting (Sw.log s')
  /\ Sw.keys (Sw.caches s') = Sw.keys (Sw.open (Sw.caches s) "webtoepub-v5")
  /\ (forall m c, m <> "webtoepub-v5" ->
        In (m, c) (Sw.caches s') <-> In (m, c) (Sw.caches s)).
Proof.
  cbv zeta. rewrite <- (sw_asset_urls scope).
  change "webtoepub-v5" with Sw.CACHE_NAME.
  assert (L : forall l,
            Sw.fetched (l ++ Sw.SkipWaiting :: map Sw.NetFetch (map (Sw.resolve scope) Sw.ASSETS))
            = (Sw.fetched l ++ map (Sw.resolve scope) Sw.ASSETS)%list).
  { intros l. rewrite sw_fetched_app. cbn [Sw.fetched].
    rewrite sw_fetched_requests. reflexivity. }
  pose proof (sw_fetchAll_all net (map (Sw.resolve scope) Sw.ASSETS)) as Q.
  rewrite Forall_forall in Q.
  assert (Q' : (exists es, Sw.fetchAll net (map (Sw.resolve scope) Sw.ASSETS) = Some es) <->
               forall u, In u (map (Sw.resolve scope) Sw.ASSETS) ->
                 exists r, net u = Some r
                           /\ 200 <= Sw.status r <= 299 /\ Sw.status r <> 206
                           /\ Sw.varyStar r = false).
  { rewrite Q. split; intros H u I; destruct (H u I) as (r & N & A); exists r;
      (split; [exact N|]).
    - apply sw_addable in A as (O & D & V). unfold Sw.ok in O.
      apply Bool.andb_true_iff in O as [O1 O2].
      apply Nat.leb_le in O1. apply Nat.leb_le in O2. repeat split; assumption.
    - destruct A as ([O1 O2] & D & V). apply sw_addable. unfold Sw.ok.
      apply Nat.leb_le in O1. apply Nat.leb_le in O2. rewrite O1, O2.
      repeat split; assumption. }
  clear Q.
  assert (S : fst (Sw.onInstall scope net s) = Returned tt ->
              forall u, In u (map (Sw.resolve scope) Sw.ASSETS) ->
                exists c, In (Sw.CACHE_NAME, c) (Sw.caches (snd (Sw.onInstall scope net s)))
                          /\ Sw.cacheMatch c u = net u).
  { intros R u I. destruct (sw_install_run scope net s R) as (es & F & C).
    destruct (sw_fetchAll_some _ _ _ F) as [K A].
    destruct (sw_update_in (Sw.open (Sw.caches s) Sw.CACHE_NAME) Sw.CACHE_NAME
                (fun c => Sw.putAll c es) (sw_has_open _ _)) as [c0 I0].
    exists (Sw.putAll c0 es). split; [rewrite C; exact I0|].
    assert (J : In u (map fst es)) by (rewrite K; exact I).
    apply in_map_iff in J as ([u' r] & U & J). simpl in U. subst u'.
    rewrite Forall_forall in A. destruct (A _ J) as [N _]. simpl in N.
    rewrite N. apply sw_putAll_in; [|exact J].
    rewrite K. apply sw_assets_distinct. }
  split; [|split; [exact S|]]; clear S; unfold Sw.onInstall;
    destruct (Sw.fetchAll net (map (Sw.resolve scope) Sw.ASSETS)) as [es|];
    cbn [fst snd Sw.caches Sw.log].
  - split; [intros _; apply Q'; eexists; reflexivity|reflexivity].
  - split; [discriminate|intros H; apply Q' in H as [es H]; discriminate].
  - split; [left; reflexivity|]. split; [apply L|].
    split; [apply in_or_app; right; left; reflexivity|].
    split; [apply sw_keys_update|].
    intros m c D. rewrite sw_others_update by exact D. apply sw_others_open. exact D.
  - split; [right; split; reflexivity|]. split; [apply L|].
    split; [apply in_or_app; right; left; reflexivity|].
    split; [reflexivity|].
    intros m c D. apply sw_others_open. exact D.
Qed.

Lemma sw_install_all_or_nothing_witness :
  fst (Sw.onInstall sampleScope partialSite (Sw.mkState staleCaches []))
    = Thrown Sw.addAllError /\
  Sw.caches (snd (Sw.onInstall sampleScope partialSite (Sw.mkState staleCaches [])))
    = (staleCaches ++ [("webtoepub-v5", [])])%list /\
  Sw.fetched (Sw.log (snd (Sw.onInstall sampleScope partialSite (Sw.mkState staleCaches []))))
    = [ "https://litepub.example/"; "https://litepub.example/index.html";
        "https://litepub.example/style.css"; "https://litepub.example/app.js";
        "https://litepub.example/manifest.json" ].
Proof.
  pose proof (sw_install_all_or_nothing sampleScope partialSite (Sw.mkState staleCaches []))
    as H.
  cbv zeta in H. destruct H as (H1 & _ & H2 & H3 & _).
  destruct H2 as [H2|[H2 H2']].
  - exfalso.
    destruct (proj1 H1 H2 sampleScope (or_introl eq_refl)) as (r & N & _ & D & _).
    injection N as <-. apply D. reflexivity.
  - split; [exact H2|]. split; [exact H2'|exact H3].
Defined.




